(** * Verification of the Excel import parser (src/src/excelImportParser.js)

    The parser turns a multi-sheet workbook into an import payload and a list
    of issues.  This development embeds the parser function by function and
    proves (or refutes) the properties its specification states.

    Modelling conventions.
    - A JS string is a [string]: a sequence of 8-bit code units.  [trim]
      strips the ECMAScript white space of that range, case mapping is the
      one of the ASCII letters.
    - A JS number is a decimal fraction, an infinity or NaN.  The built-ins
      whose results depend on IEEE rounding or on a grammar of their own
      ([String(n)], [parseInt], [parseFloat], [JSON.parse]) are the fields of
      a [Host], and every property is proved for every host.
    - A JS object is the list of its own properties in enumeration order,
      a JS [Map] is a [gmap], a JS [Set] that is only queried is a [gset] and
      a [Set] that is iterated is the duplicate-free list of its elements in
      insertion order.
    - The shared, mutated issue array is threaded through every function. *)

From stdpp Require Import gmap strings list fin_maps.
From Stdlib Require Import Ascii String.

Local Open Scope string_scope.
Set Warnings "-register-all,-clear-no-such-hyp".

(** ** Strings *)

Module Str.

(** White space and line terminators of ECMAScript with a code below 256. *)
Definition is_space (c : ascii) : bool :=
  let n := N_of_ascii c in
  ((9 <=? n) && (n <=? 13) || (n =? 32) || (n =? 160))%N.

Definition is_upper (c : ascii) : bool :=
  let n := N_of_ascii c in ((65 <=? n) && (n <=? 90))%N.

Definition is_lower (c : ascii) : bool :=
  let n := N_of_ascii c in ((97 <=? n) && (n <=? 122))%N.

Definition is_digit (c : ascii) : bool :=
  let n := N_of_ascii c in ((48 <=? n) && (n <=? 57))%N.

Definition lower_char (c : ascii) : ascii :=
  if is_upper c then ascii_of_N (N_of_ascii c + 32) else c.

Definition upper_char (c : ascii) : ascii :=
  if is_lower c then ascii_of_N (N_of_ascii c - 32) else c.

Fixpoint map_chars (f : ascii → ascii) (s : string) : string :=
  match s with
  | EmptyString => EmptyString
  | String c r => String (f c) (map_chars f r)
  end.

(** [s.toLowerCase()] and [s.toUpperCase()]. *)
Definition toLowerCase : string → string := map_chars lower_char.
Definition toUpperCase : string → string := map_chars upper_char.

Fixpoint trimStart (s : string) : string :=
  match s with
  | EmptyString => EmptyString
  | String c r => if is_space c then trimStart r else s
  end.

Fixpoint trimEnd (s : string) : string :=
  match s with
  | EmptyString => EmptyString
  | String c r =>
      match trimEnd r with
      | EmptyString => if is_space c then EmptyString else String c EmptyString
      | r' => String c r'
      end
  end.

(** [s.trim()]. *)
Definition trim (s : string) : string := trimEnd (trimStart s).

(** [s.startsWith(p)]. *)
Definition startsWith (p s : string) : bool := String.prefix p s.

(** [s.slice(n)] for a non-negative [n]. *)
Fixpoint slice (n : nat) (s : string) : string :=
  match n, s with
  | O, _ => s
  | S _, EmptyString => EmptyString
  | S m, String _ r => slice m r
  end.

(** [s.split(/[;,]/)]: the pieces between separators, empty ones kept. *)
Fixpoint split_on (sep : ascii → bool) (s : string) : list string :=
  match s with
  | EmptyString => [EmptyString]
  | String c r =>
      if sep c then EmptyString :: split_on sep r
      else match split_on sep r with
           | [] => [String c EmptyString]
           | p :: ps => String c p :: ps
           end
  end.

Definition is_csv_separator (c : ascii) : bool :=
  Ascii.eqb c ";" || Ascii.eqb c ",".

(** [parts.join(sep)]. *)
Fixpoint join (sep : string) (parts : list string) : string :=
  match parts with
  | [] => EmptyString
  | [p] => p
  | p :: ps => p ++ sep ++ join sep ps
  end.

Fixpoint all_chars (f : ascii → bool) (s : string) : bool :=
  match s with
  | EmptyString => true
  | String c r => f c && all_chars f r
  end.

(** [/^-?\d+$/.test(s)]. *)
Definition is_integer_text (s : string) : bool :=
  let digits := match s with
                | String "-"%char r => r
                | _ => s
                end in
  negb (String.eqb digits EmptyString) && all_chars is_digit digits.

(** [/^[a-z]{2}(-[a-z]{2})?$/.test(s)]. *)
Definition is_language_tag (s : string) : bool :=
  match s with
  | String a (String b EmptyString) => is_lower a && is_lower b
  | String a (String b (String "-"%char (String c (String d EmptyString)))) =>
      is_lower a && is_lower b && is_lower c && is_lower d
  | _ => false
  end.

End Str.

(** ** Numbers and JS values *)

(** A JS number.  Every finite IEEE double is a decimal fraction
    [mantissa / 10 ^ scale], so the finite numbers are modelled by these
    fractions (a proper superset of the doubles; the sign of zero is not
    modelled). *)
Inductive number :=
  | Fin (mantissa : Z) (scale : nat)
  | Infinity (negative : bool)
  | NaN.

(** The fraction without trailing zeros. *)
Fixpoint normalize (m : Z) (e : nat) : Z * nat :=
  match e with
  | O => (m, O)
  | S e' => if (m `mod` 10 =? 0)%Z then normalize (m `div` 10)%Z e'
            else (m, e)
  end.

(** [a === b] on numbers. *)
Definition number_eqb (a b : number) : bool :=
  match a, b with
  | Fin m e, Fin m' e' =>
      let '(x, k) := normalize m e in
      let '(y, l) := normalize m' e' in
      (x =? y)%Z && (k =? l)%nat
  | Infinity s, Infinity s' => Bool.eqb s s'
  | _, _ => false
  end.

(** The number denoted by a non-negative integer literal. *)
Definition number_of_nat (n : nat) : number := Fin (Z.of_nat n) 0.

Definition Number_isInteger (a : number) : bool :=
  match a with
  | Fin m e => ((normalize m e).2 =? O)%nat
  | _ => false
  end.

Definition Number_isFinite (a : number) : bool :=
  match a with Fin _ _ => true | _ => false end.

Inductive jsval : Type :=
  | JUndefined
  | JNull
  | JBool (b : bool)
  | JNum (n : number)
  | JStr (s : string)
  | JArr (elements : list jsval)
  | JObj (properties : list (string * jsval)).

(** A JS object: its own enumerable properties in enumeration order. *)
Abbreviation obj := (list (string * jsval)).

(** The built-ins of the JS host whose results depend on IEEE rounding or on
    a grammar of their own.  The parser is verified for every host. *)
Class Host := {
  (** [String(n)] *)
  Number_toString : number → string;
  (** [Number.parseInt(text, 10)] *)
  Number_parseInt : string → number;
  (** [Number.parseFloat(text)] *)
  Number_parseFloat : string → number;
  (** [JSON.parse(text)]; [None] stands for a thrown [SyntaxError]. *)
  JSON_parse : string → option jsval;
}.

Section Objects.
Context `{Host}.

Fixpoint obj_lookup (k : string) (o : obj) : option jsval :=
  match o with
  | [] => None
  | (k', v) :: r => if decide (k = k') then Some v else obj_lookup k r
  end.

(** [o[k]]. *)
Definition prop (o : obj) (k : string) : jsval :=
  default JUndefined (obj_lookup k o).

(** [o[k] = v]: an existing property keeps its place, a new one is added
    last. *)
Fixpoint obj_set (k : string) (v : jsval) (o : obj) : obj :=
  match o with
  | [] => [(k, v)]
  | (k', v') :: r =>
      if decide (k = k') then (k, v) :: r else (k', v') :: obj_set k v r
  end.

(** [Object.keys(o)]. *)
Definition obj_keys (o : obj) : list string := o.*1.

(** [String(v)]. *)
Fixpoint String_of (v : jsval) : string :=
  match v with
  | JUndefined => "undefined"
  | JNull => "null"
  | JBool true => "true"
  | JBool false => "false"
  | JNum n => Number_toString n
  | JStr s => s
  | JArr l =>
      Str.join ","
        ((fix elements (l : list jsval) : list string :=
            match l with
            | [] => []
            | JUndefined :: r => "" :: elements r
            | JNull :: r => "" :: elements r
            | e :: r => String_of e :: elements r
            end) l)
  | JObj _ => "[object Object]"
  end.

End Objects.


(** ** The workbook contract (excelImportTemplate.js) *)

Module SHEETS.
Definition README : string := "README".
Definition CONFIG : string := "Import_Config".
Definition GROUPS : string := "Attribute_Groups".
Definition ATTRIBUTES : string := "Attributes".
Definition TYPES : string := "Types".
Definition TYPE_GROUP_BINDINGS : string := "Type_Group_Bindings".
Definition ITEM_PARENTS : string := "Item_Parents".
End SHEETS.

Definition PRODUCT_SHEETS : list string :=
  ["TCT_Router_Bit"; "Insert_Tool"; "Countersink"].

Definition CONFIG_HEADERS : list string := ["key"; "value"].

Definition GROUP_HEADERS : list string :=
  ["identifier"; "name_en"; "order"; "visible"; "options_json"].

Definition ATTRIBUTE_HEADERS : list string :=
  ["identifier"; "name_en"; "type_code"; "groups_csv"; "order";
   "language_dependent"; "rich_text"; "multi_line"; "pattern";
   "lov_identifier"; "options_json"; "valid_types_csv"; "visible_types_csv"].

Definition TYPE_HEADERS : list string :=
  ["identifier"; "name_en"; "parent_identifier"; "icon"; "icon_color"; "file"].

Definition TYPE_GROUP_BINDING_HEADERS : list string :=
  ["group_identifier"; "type_identifier"; "valid"; "visible"].

Definition ITEM_BASE_HEADERS : list string :=
  ["identifier"; "name_en"; "type_identifier"; "parent_identifier";
   "values_json"; "channels_json"].

(** The [requiredSheets] array of [ensureRequiredSheets]. *)
Definition requiredSheets : list string :=
  ([SHEETS.CONFIG; SHEETS.GROUPS; SHEETS.ATTRIBUTES; SHEETS.TYPES;
    SHEETS.TYPE_GROUP_BINDINGS; SHEETS.ITEM_PARENTS] ++ PRODUCT_SHEETS)%list.

Definition VALID_IMPORT_MODES : list string :=
  ["CREATE_ONLY"; "UPDATE_ONLY"; "CREATE_UPDATE"].

Definition VALID_ERROR_PROCESSING : list string :=
  ["PROCESS_WARN"; "WARN_REJECTED"].

(** ** Issues *)

Inductive Severity := error | warning.

#[global] Instance Severity_eq_dec : EqDecision Severity.
Proof. solve_decision. Defined.

Record Issue := {
  severity : Severity;
  sheet : string;
  row : option nat;
  field : string;
  message : string;
}.

(** [addIssue(target, severity, sheet, row, field, message)]: the array
    after the push. *)
Definition addIssue (target : list Issue) (sev : Severity) (sh : string)
    (r : option nat) (fld msg : string) : list Issue :=
  (target ++ [ {| severity := sev; sheet := sh; row := r; field := fld;
                  message := msg |} ])%list.

(** The [{ ok: true, value }] / [{ ok: false, error }] results of the scalar
    coercers. *)
Inductive Parsed (A : Type) :=
  | Ok (value : A)
  | Fail (error_text : string).
Arguments Ok {A} value.
Arguments Fail {A} error_text.

(** The three things a sheet parser mutates while it walks the rows: the
    shared issue array, its [byIdentifier] map and its [payload] array. *)
Record Acc (M R : Type) := mkAcc {
  acc_issues : list Issue;
  acc_byIdentifier : gmap string M;
  acc_payload : list R;
}.
Arguments mkAcc {M R}.
Arguments acc_issues {M R}.
Arguments acc_byIdentifier {M R}.
Arguments acc_payload {M R}.

(** [!s] on a string. *)
Definition falsy (s : string) : bool := bool_decide (s = "").

(** ** Scalar coercers and the sheet reader *)

Section Reader.
Context `{Host}.

Definition toText (value : jsval) : string :=
  match value with
  | JNull | JUndefined => ""
  | _ => Str.trim (String_of value)
  end.

Definition normalizeIdentifier (value : jsval) : string :=
  Str.toLowerCase (toText value).

Definition isBlank (value : jsval) : bool :=
  match value with
  | JNull | JUndefined => true
  | JStr s => bool_decide (Str.trim s = "")
  | _ => false
  end.

Definition parseBoolean (value : jsval) : Parsed bool :=
  match value with
  | JBool b => Ok b
  | JNum n =>
      if number_eqb n (number_of_nat 1) then Ok true
      else if number_eqb n (number_of_nat 0) then Ok false
      else Fail "Expected boolean-like value"
  | _ =>
      let text := Str.toLowerCase (toText value) in
      if bool_decide (text = "") then Fail "Expected boolean-like value"
      else if bool_decide (text ∈ ["true"; "1"; "yes"; "y"]) then Ok true
      else if bool_decide (text ∈ ["false"; "0"; "no"; "n"]) then Ok false
      else Fail "Expected one of: true/false/1/0/yes/no"
  end.

Definition parseInteger (value : jsval) : Parsed number :=
  let from_text :=
    let text := toText value in
    if negb (Str.is_integer_text text) then Fail "Expected integer"
    else Ok (Number_parseInt text) in
  match value with
  | JNum n => if Number_isInteger n then Ok n else from_text
  | _ => from_text
  end.

Definition parseFloatNumber (value : jsval) : Parsed number :=
  let from_text :=
    let text := toText value in
    if bool_decide (text = "") then Fail "Expected number"
    else
      let parsed := Number_parseFloat text in
      if negb (Number_isFinite parsed) then Fail "Expected number"
      else Ok parsed in
  match value with
  | JNum n => if Number_isFinite n then Ok n else from_text
  | _ => from_text
  end.

Definition parseCsvList (value : jsval) : list string :=
  match value with
  | JArr entries =>
      filter (λ entry, entry ≠ "") (normalizeIdentifier <$> entries)
  | _ =>
      let text := toText value in
      if falsy text then []
      else
        filter (λ entry, entry ≠ "")
          ((λ entry, normalizeIdentifier (JStr entry))
             <$> Str.split_on Str.is_csv_separator text)
  end.

Definition parseJsonObject (value : jsval) (allowBlank : bool) : Parsed obj :=
  match value with
  | JObj o => Ok o
  | _ =>
      let text := toText value in
      if bool_decide (text = "") then
        if allowBlank then Ok [] else Fail "JSON object is required"
      else
        match JSON_parse text with
        | None => Fail "Invalid JSON object"
        | Some (JObj parsed) => Ok parsed
        | Some _ => Fail "Expected JSON object"
        end
  end.

Definition rowHasAnyValue (rowData : obj) (headers : list string) : bool :=
  existsb (λ header, negb (isBlank (prop rowData header))) headers.

(** A workbook as the parser sees it: [SheetNames], and for every sheet of
    [Sheets] the cell matrix that [XLSX.utils.sheet_to_json] returns for it
    under the options [{header: 1, raw: false, defval: "", blankrows: false}]
    (an array of row arrays, the header row first). *)
Record Workbook := {
  SheetNames : list string;
  Sheets : gmap string (list (list jsval));
}.

Record Row := { rowNumber : nat; data : obj }.

Record ParsedSheet := {
  sheet_exists : bool;
  headers : list string;
  rows : list Row;
  missingHeaders : list string;
}.

(** [headers.forEach((header, index) => { rowObject[header] = rowArray[index] })]. *)
Definition rowObject_of (hdrs : list string) (rowArray : list jsval) : obj :=
  foldl (λ rowObject '(index, header),
           obj_set header (nth index rowArray JUndefined) rowObject)
        [] (imap pair hdrs).

Definition parseSheetWithHeaders (workbook : Workbook) (sheetName : string)
    (requiredHeaders : list string) : ParsedSheet :=
  match Sheets workbook !! sheetName with
  | None =>
      {| sheet_exists := false; headers := []; rows := [];
         missingHeaders := requiredHeaders |}
  | Some matrix =>
      let rawHeaders := match matrix with [] => [] | h :: _ => h end in
      let hdrs := toText <$> rawHeaders in
      let headerMap : gmap string nat :=
        foldl (λ m '(index, header),
                 if falsy header then m else <[header := index]> m)
              ∅ (imap pair hdrs) in
      {| sheet_exists := true;
         headers := hdrs;
         rows := imap (λ i rowArray,
                         {| rowNumber := i + 2;
                            data := rowObject_of hdrs rowArray |})
                      (tail matrix);
         missingHeaders :=
           filter (λ header, headerMap !! header = None) requiredHeaders |}
  end.

(** The issues for the headers a sheet lacks. *)
Definition missingHeaderIssues (issues : list Issue) (sheetName : string)
    (missing : list string) : list Issue :=
  foldl (λ iss header,
           addIssue iss error sheetName (Some 1) header "Missing required header")
        issues missing.

Definition ensureRequiredSheets (workbook : Workbook) (issues : list Issue)
    : list Issue :=
  let available : gset string := list_to_set (SheetNames workbook) in
  foldl (λ iss sh,
           if bool_decide (sh ∈ available) then iss
           else addIssue iss error sh None "sheet" "Sheet is required but missing")
        issues requiredSheets.

(** *** Import_Config *)

Record Config := {
  cfg_mode : string;
  cfg_errors : string;
  cfg_defaultLanguage : string;
}.

Definition config_row (st : list Issue * gmap string string) (r : Row)
    : list Issue * gmap string string :=
  let '(issues, kv) := st in
  if rowHasAnyValue (data r) CONFIG_HEADERS then
    let key := Str.toLowerCase (toText (prop (data r) "key")) in
    let value := toText (prop (data r) "value") in
    if falsy key then
      (addIssue issues error SHEETS.CONFIG (Some (rowNumber r)) "key"
         "Key is required", kv)
    else (issues, <[key := value]> kv)
  else st.

(** [kv.get(key) || fallback]. *)
Definition get_or (kv : gmap string string) (key fallback : string) : string :=
  match kv !! key with
  | Some v => if falsy v then fallback else v
  | None => fallback
  end.

Definition parseConfig (workbook : Workbook) (issues : list Issue)
    : Config * list Issue :=
  let parsed := parseSheetWithHeaders workbook SHEETS.CONFIG CONFIG_HEADERS in
  if negb (sheet_exists parsed) then
    ({| cfg_mode := "CREATE_UPDATE"; cfg_errors := "PROCESS_WARN";
        cfg_defaultLanguage := "en" |}, issues)
  else
    let issues := missingHeaderIssues issues SHEETS.CONFIG (missingHeaders parsed) in
    let '(issues, kv) := foldl config_row (issues, ∅) (rows parsed) in
    let mode := Str.toUpperCase (get_or kv "mode" "CREATE_UPDATE") in
    let errors := Str.toUpperCase (get_or kv "errors" "PROCESS_WARN") in
    let defaultLanguage := Str.toLowerCase (get_or kv "default_language" "en") in
    let issues :=
      if bool_decide (mode ∈ VALID_IMPORT_MODES) then issues
      else addIssue issues error SHEETS.CONFIG None "mode"
             "mode must be CREATE_ONLY, UPDATE_ONLY, or CREATE_UPDATE" in
    let issues :=
      if bool_decide (errors ∈ VALID_ERROR_PROCESSING) then issues
      else addIssue issues error SHEETS.CONFIG None "errors"
             "errors must be PROCESS_WARN or WARN_REJECTED" in
    let issues :=
      if Str.is_language_tag defaultLanguage then issues
      else addIssue issues warning SHEETS.CONFIG None "default_language"
             "default_language should look like en or en-us" in
    ({| cfg_mode := mode; cfg_errors := errors;
        cfg_defaultLanguage := defaultLanguage |}, issues).

(** *** Entity requests *)

Record GroupRequest := {
  g_identifier : string;
  g_name : obj;
  g_order : option number;
  g_visible : option bool;
  g_options : option obj;
}.

Record TypeRequest := {
  t_identifier : string;
  t_name : obj;
  t_parentIdentifier : option string;
  t_icon : option string;
  t_iconColor : option string;
  t_file : option bool;
}.

Record Binding := {
  b_typeIdentifier : string;
  b_valid : bool;
  b_visible : bool;
}.

Record AttributeRequest := {
  a_identifier : string;
  a_name : obj;
  a_groups : list string;
  a_type : number;
  a_languageDependent : bool;
  a_richText : bool;
  a_multiLine : bool;
  a_order : option number;
  a_pattern : option string;
  a_lov : option string;
  a_valid : option (list string);
  a_visible : option (list string);
  a_options : option obj;
}.

(** The projection of an attribute kept for item parsing. *)
Record AttributeModel := {
  m_identifier : string;
  m_type : number;
  m_languageDependent : bool;
}.

Record ItemRequest := {
  i_identifier : string;
  i_typeIdentifier : string;
  i_name : obj;
  i_parentIdentifier : option string;
  i_values : option obj;
  i_channels : option obj;
}.

(** [addIssue(issues, ...); return;] and [addIssue(issues, ...)] inside a row
    callback. *)
Definition report {M R} (st : Acc M R) (sev : Severity) (sh : string)
    (r : option nat) (fld msg : string) : Acc M R :=
  mkAcc (addIssue (acc_issues st) sev sh r fld msg)
        (acc_byIdentifier st) (acc_payload st).

(** [byIdentifier.set(identifier, model); payload.push(request);]. *)
Definition emit {M R} (st : Acc M R) (identifier : string) (model : M)
    (request : R) : Acc M R :=
  mkAcc (acc_issues st) (<[identifier := model]> (acc_byIdentifier st))
        (acc_payload st ++ [request])%list.

(** [{ [key]: text }] and an optional property set only when [text] is
    truthy. *)
Definition localized (language text : string) : obj := [(language, JStr text)].
Definition truthy_text (text : string) : option string :=
  if falsy text then None else Some text.
Definition nonempty_obj (o : obj) : option obj :=
  match o with [] => None | _ => Some o end.

(** A cell that may stay blank: [blank] when [skip] holds, else the parse. *)
Definition optional {A} (skip : bool) (p : Parsed A) : Parsed (option A) :=
  if skip then Ok None
  else match p with Ok v => Ok (Some v) | Fail e => Fail e end.

(** [isBlank(cell) ? { ok: true, value: fallback } : parseBoolean(cell)]. *)
Definition booleanOr (fallback : bool) (cell : jsval) : Parsed bool :=
  if isBlank cell then Ok fallback else parseBoolean cell.

(** *** Attribute_Groups *)

Definition group_row (config : Config)
    (st : Acc GroupRequest GroupRequest) (r : Row)
    : Acc GroupRequest GroupRequest :=
  let data := data r in
  let rowNumber := Some (rowNumber r) in
  if negb (rowHasAnyValue data GROUP_HEADERS) then st else
  let identifier := normalizeIdentifier (prop data "identifier") in
  let name := toText (prop data "name_en") in
  let orderText := toText (prop data "order") in
  let visibleText := toText (prop data "visible") in
  if falsy identifier then
    report st error SHEETS.GROUPS rowNumber "identifier" "identifier is required"
  else if falsy name then
    report st error SHEETS.GROUPS rowNumber "name_en" "name_en is required"
  else if bool_decide (is_Some (acc_byIdentifier st !! identifier)) then
    report st error SHEETS.GROUPS rowNumber "identifier" "Duplicate group identifier"
  else
  match optional (falsy orderText) (parseInteger (JStr orderText)) with
  | Fail e => report st error SHEETS.GROUPS rowNumber "order" e
  | Ok order =>
  match optional (falsy visibleText) (parseBoolean (JStr visibleText)) with
  | Fail e => report st error SHEETS.GROUPS rowNumber "visible" e
  | Ok visible =>
  match parseJsonObject (prop data "options_json") true with
  | Fail e => report st error SHEETS.GROUPS rowNumber "options_json" e
  | Ok options =>
      let request :=
        {| g_identifier := identifier;
           g_name := localized (cfg_defaultLanguage config) name;
           g_order := order;
           g_visible := visible;
           g_options := nonempty_obj options |} in
      emit st identifier request request
  end end end.

Definition parseAttributeGroups (workbook : Workbook) (config : Config)
    (issues : list Issue) : Acc GroupRequest GroupRequest :=
  let parsed := parseSheetWithHeaders workbook SHEETS.GROUPS GROUP_HEADERS in
  if negb (sheet_exists parsed) then mkAcc issues ∅ []
  else
    let issues := missingHeaderIssues issues SHEETS.GROUPS (missingHeaders parsed) in
    foldl (group_row config) (mkAcc issues ∅ []) (rows parsed).

(** *** Types *)

Definition type_row (config : Config)
    (st : Acc TypeRequest TypeRequest) (r : Row)
    : Acc TypeRequest TypeRequest :=
  let data := data r in
  let rowNumber := Some (rowNumber r) in
  if negb (rowHasAnyValue data TYPE_HEADERS) then st else
  let identifier := normalizeIdentifier (prop data "identifier") in
  let name := toText (prop data "name_en") in
  let parentIdentifier := normalizeIdentifier (prop data "parent_identifier") in
  if falsy identifier then
    report st error SHEETS.TYPES rowNumber "identifier" "identifier is required"
  else if falsy name then
    report st error SHEETS.TYPES rowNumber "name_en" "name_en is required"
  else if bool_decide (is_Some (acc_byIdentifier st !! identifier)) then
    report st error SHEETS.TYPES rowNumber "identifier" "Duplicate type identifier"
  else
  match optional (isBlank (prop data "file")) (parseBoolean (prop data "file")) with
  | Fail e => report st error SHEETS.TYPES rowNumber "file" e
  | Ok fileValue =>
      let request :=
        {| t_identifier := identifier;
           t_name := localized (cfg_defaultLanguage config) name;
           t_parentIdentifier := truthy_text parentIdentifier;
           t_icon := truthy_text (toText (prop data "icon"));
           t_iconColor := truthy_text (toText (prop data "icon_color"));
           t_file := fileValue |} in
      emit st identifier request request
  end.

(** The callback of the second pass, [payload.forEach((typeRequest) => ...)]. *)
Definition type_check (byIdentifier : gmap string TypeRequest)
    (issues : list Issue) (typeRequest : TypeRequest) : list Issue :=
  let issues :=
    match t_parentIdentifier typeRequest with
    | Some parent =>
        if negb (falsy parent)
           && negb (bool_decide (is_Some (byIdentifier !! parent)))
        then addIssue issues warning SHEETS.TYPES None "parent_identifier"
               ("Parent type '" ++ parent
                ++ "' is not defined in this workbook. It must already exist in PIM.")
        else issues
    | None => issues
    end in
  if bool_decide (t_parentIdentifier typeRequest = Some (t_identifier typeRequest))
  then addIssue issues error SHEETS.TYPES None "parent_identifier"
         ("Type '" ++ t_identifier typeRequest
          ++ "' cannot reference itself as parent.")
  else issues.

Definition parseTypes (workbook : Workbook) (config : Config)
    (issues : list Issue) : Acc TypeRequest TypeRequest :=
  let parsed := parseSheetWithHeaders workbook SHEETS.TYPES TYPE_HEADERS in
  if negb (sheet_exists parsed) then mkAcc issues ∅ []
  else
    let issues := missingHeaderIssues issues SHEETS.TYPES (missingHeaders parsed) in
    let st := foldl (type_row config) (mkAcc issues ∅ []) (rows parsed) in
    mkAcc (foldl (type_check (acc_byIdentifier st)) (acc_issues st) (acc_payload st))
          (acc_byIdentifier st) (acc_payload st).

(** *** Type_Group_Bindings *)

Definition binding_row (groupIdentifiers typeIdentifiers : gset string)
    (st : list Issue * gmap string (list Binding)) (r : Row)
    : list Issue * gmap string (list Binding) :=
  let '(issues, bindingMap) := st in
  let data := data r in
  let rowNumber := Some (rowNumber r) in
  if negb (rowHasAnyValue data TYPE_GROUP_BINDING_HEADERS) then st else
  let groupIdentifier := normalizeIdentifier (prop data "group_identifier") in
  let typeIdentifier := normalizeIdentifier (prop data "type_identifier") in
  if falsy groupIdentifier then
    (addIssue issues error SHEETS.TYPE_GROUP_BINDINGS rowNumber
       "group_identifier" "group_identifier is required", bindingMap)
  else if falsy typeIdentifier then
    (addIssue issues error SHEETS.TYPE_GROUP_BINDINGS rowNumber
       "type_identifier" "type_identifier is required", bindingMap)
  else
  let issues :=
    if bool_decide (groupIdentifier ∈ groupIdentifiers) then issues
    else addIssue issues warning SHEETS.TYPE_GROUP_BINDINGS rowNumber
           "group_identifier"
           ("Group '" ++ groupIdentifier
            ++ "' is not defined in Attribute_Groups sheet") in
  let issues :=
    if bool_decide (typeIdentifier ∈ typeIdentifiers) then issues
    else addIssue issues warning SHEETS.TYPE_GROUP_BINDINGS rowNumber
           "type_identifier"
           ("Type '" ++ typeIdentifier ++ "' is not defined in Types sheet") in
  match booleanOr true (prop data "valid"), booleanOr true (prop data "visible") with
  | Fail e, _ =>
      (addIssue issues error SHEETS.TYPE_GROUP_BINDINGS rowNumber "valid" e,
       bindingMap)
  | Ok _, Fail e =>
      (addIssue issues error SHEETS.TYPE_GROUP_BINDINGS rowNumber "visible" e,
       bindingMap)
  | Ok valid, Ok visible =>
      let current := default [] (bindingMap !! groupIdentifier) in
      (issues,
       <[groupIdentifier :=
           (current ++ [ {| b_typeIdentifier := typeIdentifier;
                            b_valid := valid; b_visible := visible |} ])%list]>
         bindingMap)
  end.

Definition parseTypeGroupBindings (workbook : Workbook)
    (groupIdentifiers typeIdentifiers : gset string) (issues : list Issue)
    : list Issue * gmap string (list Binding) :=
  let parsed := parseSheetWithHeaders workbook SHEETS.TYPE_GROUP_BINDINGS
                  TYPE_GROUP_BINDING_HEADERS in
  if negb (sheet_exists parsed) then (issues, ∅)
  else
    let issues := missingHeaderIssues issues SHEETS.TYPE_GROUP_BINDINGS
                    (missingHeaders parsed) in
    foldl (binding_row groupIdentifiers typeIdentifiers) (issues, ∅) (rows parsed).

(** *** Attributes *)

(** [set.add(x)] and [new Set(list)] for a [Set] that is iterated later: the
    elements in insertion order. *)
Definition Set_add (s : list string) (x : string) : list string :=
  if bool_decide (x ∈ s) then s else (s ++ [x])%list.
Definition Set_from (l : list string) : list string := foldl Set_add [] l.

Definition add_binding (sets : list string * list string) (binding : Binding)
    : list string * list string :=
  let '(validSet, visibleSet) := sets in
  (if b_valid binding then Set_add validSet (b_typeIdentifier binding)
   else validSet,
   if b_visible binding then Set_add visibleSet (b_typeIdentifier binding)
   else visibleSet).

(** The loop [for (const groupIdentifier of groups) for (const binding of
    bindingMap.get(groupIdentifier) || [])]. *)
Definition propagate (bindingMap : gmap string (list Binding))
    (groups : list string) (sets : list string * list string)
    : list string * list string :=
  foldl (λ sets groupIdentifier,
           foldl add_binding sets (default [] (bindingMap !! groupIdentifier)))
        sets groups.

Definition type_warnings (typeMap : gmap string TypeRequest)
    (rowNumber : option nat) (issues : list Issue) (typeIdentifiers : list string)
    : list Issue :=
  foldl (λ iss typeIdentifier,
           if bool_decide (is_Some (typeMap !! typeIdentifier)) then iss
           else addIssue iss warning SHEETS.ATTRIBUTES rowNumber "valid_types_csv"
                  ("Type '" ++ typeIdentifier
                   ++ "' is not in Types sheet. It must already exist in PIM."))
        issues typeIdentifiers.

(** [ATTRIBUTE_TYPE_CODES.has(n)]. *)
Definition is_type_code (n : number) : bool :=
  existsb (λ code, number_eqb n (number_of_nat code)) [1; 2; 3; 4; 5; 6; 7; 8].

(** [size > 0 ? [...set] : undefined]. *)
Definition nonempty_list (l : list string) : option (list string) :=
  match l with [] => None | _ => Some l end.

Definition attribute_row (config : Config)
    (groupMap : gmap string GroupRequest) (typeMap : gmap string TypeRequest)
    (bindingMap : gmap string (list Binding))
    (st : Acc AttributeModel AttributeRequest) (r : Row)
    : Acc AttributeModel AttributeRequest :=
  let data := data r in
  let rowNumber := Some (rowNumber r) in
  if negb (rowHasAnyValue data ATTRIBUTE_HEADERS) then st else
  let identifier := normalizeIdentifier (prop data "identifier") in
  let name := toText (prop data "name_en") in
  let typeRaw := toText (prop data "type_code") in
  if falsy identifier then
    report st error SHEETS.ATTRIBUTES rowNumber "identifier" "identifier is required"
  else if falsy name then
    report st error SHEETS.ATTRIBUTES rowNumber "name_en" "name_en is required"
  else if falsy typeRaw then
    report st error SHEETS.ATTRIBUTES rowNumber "type_code" "type_code is required"
  else if bool_decide (is_Some (acc_byIdentifier st !! identifier)) then
    report st error SHEETS.ATTRIBUTES rowNumber "identifier"
      "Duplicate attribute identifier"
  else
  match (match parseInteger (JStr typeRaw) with
         | Ok code => if is_type_code code then Some code else None
         | Fail _ => None
         end) with
  | None =>
      report st error SHEETS.ATTRIBUTES rowNumber "type_code"
        "type_code must be one of 1..8"
  | Some typeCode =>
  let groups := parseCsvList (prop data "groups_csv") in
  if bool_decide (groups = []) then
    report st error SHEETS.ATTRIBUTES rowNumber "groups_csv"
      "At least one group identifier is required"
  else
  let unknownGroups :=
    filter (λ groupIdentifier, groupMap !! groupIdentifier = None) groups in
  if negb (bool_decide (unknownGroups = [])) then
    report st error SHEETS.ATTRIBUTES rowNumber "groups_csv"
      ("Unknown group identifiers: " ++ Str.join ", " unknownGroups)
  else
  match optional (isBlank (prop data "order")) (parseInteger (prop data "order")) with
  | Fail e => report st error SHEETS.ATTRIBUTES rowNumber "order" e
  | Ok order =>
  match booleanOr false (prop data "language_dependent"),
        booleanOr false (prop data "rich_text"),
        booleanOr false (prop data "multi_line") with
  | Fail e, _, _ =>
      report st error SHEETS.ATTRIBUTES rowNumber "language_dependent" e
  | Ok _, Fail e, _ =>
      report st error SHEETS.ATTRIBUTES rowNumber "rich_text" e
  | Ok _, Ok _, Fail e =>
      report st error SHEETS.ATTRIBUTES rowNumber "multi_line" e
  | Ok languageDependent, Ok richText, Ok multiLine =>
  match parseJsonObject (prop data "options_json") true with
  | Fail e => report st error SHEETS.ATTRIBUTES rowNumber "options_json" e
  | Ok options =>
      let '(validSet, visibleSet) :=
        propagate bindingMap groups
          (Set_from (parseCsvList (prop data "valid_types_csv")),
           Set_from (parseCsvList (prop data "visible_types_csv"))) in
      let issues :=
        type_warnings typeMap rowNumber (acc_issues st)
          (validSet ++ visibleSet)%list in
      let request :=
        {| a_identifier := identifier;
           a_name := localized (cfg_defaultLanguage config) name;
           a_groups := groups;
           a_type := typeCode;
           a_languageDependent := languageDependent;
           a_richText := richText;
           a_multiLine := multiLine;
           a_order := order;
           a_pattern := truthy_text (toText (prop data "pattern"));
           a_lov := truthy_text (normalizeIdentifier (prop data "lov_identifier"));
           a_valid := nonempty_list validSet;
           a_visible := nonempty_list visibleSet;
           a_options := nonempty_obj options |} in
      let model :=
        {| m_identifier := identifier;
           m_type := typeCode;
           m_languageDependent := languageDependent |} in
      emit (mkAcc issues (acc_byIdentifier st) (acc_payload st))
        identifier model request
  end end end end.

Definition parseAttributes (workbook : Workbook) (config : Config)
    (groupMap : gmap string GroupRequest) (typeMap : gmap string TypeRequest)
    (bindingMap : gmap string (list Binding)) (issues : list Issue)
    : Acc AttributeModel AttributeRequest :=
  let parsed := parseSheetWithHeaders workbook SHEETS.ATTRIBUTES ATTRIBUTE_HEADERS in
  if negb (sheet_exists parsed) then mkAcc issues ∅ []
  else
    let issues := missingHeaderIssues issues SHEETS.ATTRIBUTES
                    (missingHeaders parsed) in
    foldl (attribute_row config groupMap typeMap bindingMap)
          (mkAcc issues ∅ []) (rows parsed).

(** *** Item sheets *)

(** The result of [coerceAttributeValue]: [{ ok: true, skip: true }],
    [{ ok: true, value }] or [{ ok: false, error }]. *)
Inductive Coerced :=
  | CSkip
  | CValue (value : jsval)
  | CFail (error_text : string).

Definition coerced_of {A} (wrap : A → jsval) (p : Parsed A) : Coerced :=
  match p with
  | Ok v => CValue (wrap v)
  | Fail e => CFail e
  end.

Definition coerceAttributeValue (rawValue : jsval) (attribute : AttributeModel)
    (defaultLanguage : string) : Coerced :=
  if bool_decide (toText rawValue = "") then CSkip
  else if m_languageDependent attribute then
    match rawValue with
    | JObj _ => CValue rawValue
    | _ => CValue (JObj [(defaultLanguage, JStr (toText rawValue))])
    end
  else if number_eqb (m_type attribute) (number_of_nat 2) then
    coerced_of JBool (parseBoolean rawValue)
  else if number_eqb (m_type attribute) (number_of_nat 3) then
    coerced_of JNum (parseInteger rawValue)
  else if number_eqb (m_type attribute) (number_of_nat 4) then
    coerced_of JNum (parseFloatNumber rawValue)
  else CValue (JStr (toText rawValue)).

Definition itemSheetNames : list string := SHEETS.ITEM_PARENTS :: PRODUCT_SHEETS.

Definition collectDeclaredItemIdentifiers (workbook : Workbook) : gset string :=
  foldl (λ declared sheetName,
           let parsed := parseSheetWithHeaders workbook sheetName ITEM_BASE_HEADERS in
           if negb (sheet_exists parsed) then declared
           else
             foldl (λ (declared : gset string) r,
                      let identifier := normalizeIdentifier (prop (data r) "identifier") in
                      if falsy identifier then declared
                      else {[ identifier ]} ∪ declared)
                   declared (rows parsed))
        (∅ : gset string) itemSheetNames.

(** What the item parser mutates: the shared issue array, the shared
    [seenItemIdentifiers] set and the [payload] of the current sheet. *)
Record ItemAcc := mkItemAcc {
  it_issues : list Issue;
  it_seen : gset string;
  it_payload : list ItemRequest;
}.

Definition item_report (st : ItemAcc) (sev : Severity) (sh : string)
    (r : option nat) (fld msg : string) : ItemAcc :=
  mkItemAcc (addIssue (it_issues st) sev sh r fld msg) (it_seen st) (it_payload st).

(** [seenItemIdentifiers.add(identifier)]. *)
Definition item_reserve (st : ItemAcc) (identifier : string) : ItemAcc :=
  mkItemAcc (it_issues st) ({[ identifier ]} ∪ it_seen st) (it_payload st).

(** One turn of [for (const [valueKey, valueRaw] of Object.entries(...))]. *)
Definition json_value_step (sheetName : string) (rowNumber : option nat)
    (config : Config) (attributeMap : gmap string AttributeModel)
    (st : list Issue * obj) (entry : string * jsval) : list Issue * obj :=
  let '(issues, values) := st in
  let '(valueKey, valueRaw) := entry in
  let attributeIdentifier := normalizeIdentifier (JStr valueKey) in
  match attributeMap !! attributeIdentifier with
  | None =>
      (addIssue issues error sheetName rowNumber "values_json"
         ("values_json contains unknown attribute '" ++ valueKey ++ "'"),
       values)
  | Some attribute =>
      match coerceAttributeValue valueRaw attribute (cfg_defaultLanguage config) with
      | CFail e =>
          (addIssue issues error sheetName rowNumber ("values_json." ++ valueKey)
             ("Invalid value: " ++ e),
           values)
      | CSkip => (issues, values)
      | CValue v => (issues, obj_set attributeIdentifier v values)
      end
  end.

(** One turn of [for (const header of attrHeaders)]. *)
Definition attr_column_step (sheetName : string) (rowNumber : option nat)
    (config : Config) (attributeMap : gmap string AttributeModel) (data : obj)
    (st : list Issue * obj) (header : string) : list Issue * obj :=
  let '(issues, values) := st in
  let attributeIdentifier := normalizeIdentifier (JStr (Str.slice 5 header)) in
  if falsy attributeIdentifier then st
  else if isBlank (prop data header) then st
  else
    match attributeMap !! attributeIdentifier with
    | None =>
        (addIssue issues error sheetName rowNumber header
           ("Unknown attribute '" ++ attributeIdentifier ++ "'"),
         values)
    | Some attribute =>
        match coerceAttributeValue (prop data header) attribute
                (cfg_defaultLanguage config) with
        | CFail e =>
            (addIssue issues error sheetName rowNumber header
               ("Invalid value: " ++ e),
             values)
        | CSkip => (issues, values)
        | CValue v => (issues, obj_set attributeIdentifier v values)
        end
    end.

(** The [values] object of a row: the copy of the parsed [values_json]
    object, then the two loops. *)
Definition item_values (sheetName : string) (rowNumber : option nat)
    (config : Config) (attributeMap : gmap string AttributeModel)
    (attrHeaders : list string) (data : obj) (parsedValues : obj)
    (issues : list Issue) : list Issue * obj :=
  let values := parsedValues in
  let st := foldl (json_value_step sheetName rowNumber config attributeMap)
              (issues, values) parsedValues in
  foldl (attr_column_step sheetName rowNumber config attributeMap data)
        st attrHeaders.

(** The warning for a type the Types sheet does not declare. *)
Definition warn_unknown_type (typeMap : gmap string TypeRequest)
    (sheetName : string) (rowNumber : option nat) (typeIdentifier : string)
    (st : ItemAcc) : ItemAcc :=
  if bool_decide (is_Some (typeMap !! typeIdentifier)) then st
  else item_report st warning sheetName rowNumber "type_identifier"
         ("Type '" ++ typeIdentifier
          ++ "' is not in Types sheet. It must already exist in PIM.").

(** [typeMeta?.parentIdentifier] when it is truthy. *)
Definition type_parent (typeMap : gmap string TypeRequest)
    (typeIdentifier : string) : option string :=
  match typeMap !! typeIdentifier with
  | Some typeMeta =>
      match t_parentIdentifier typeMeta with
      | Some p => if falsy p then None else Some p
      | None => None
      end
  | None => None
  end.

(** The warning for a parent item that no sheet declares. *)
Definition warn_unknown_parent (declaredItemIdentifiers : gset string)
    (sheetName : string) (rowNumber : option nat) (parentIdentifier : string)
    (st : ItemAcc) : ItemAcc :=
  if negb (falsy parentIdentifier)
     && negb (bool_decide (parentIdentifier ∈ it_seen st))
     && negb (bool_decide (parentIdentifier ∈ declaredItemIdentifiers))
  then item_report st warning sheetName rowNumber "parent_identifier"
         ("Parent item '" ++ parentIdentifier
          ++ "' is not declared in workbook. It must already exist in PIM.")
  else st.

(** The end of the row callback: the values, the request and the push. *)
Definition item_emit (sheetName : string) (rowNumber : option nat)
    (config : Config) (attributeMap : gmap string AttributeModel)
    (attrHeaders : list string) (data : obj)
    (identifier name typeIdentifier parentIdentifier : string)
    (parsedValues channels : obj) (st : ItemAcc) : ItemAcc :=
  let '(issues, values) :=
    item_values sheetName rowNumber config attributeMap attrHeaders data
      parsedValues (it_issues st) in
  let request :=
    {| i_identifier := identifier;
       i_typeIdentifier := typeIdentifier;
       i_name := localized (cfg_defaultLanguage config) name;
       i_parentIdentifier := truthy_text parentIdentifier;
       i_values := nonempty_obj values;
       i_channels := nonempty_obj channels |} in
  mkItemAcc issues (it_seen st) (it_payload st ++ [request])%list.

(** The row callback from the line after
    [seenItemIdentifiers.add(identifier)] on. *)
Definition item_checked (sheetName : string) (rowNumber : option nat)
    (config : Config) (attributeMap : gmap string AttributeModel)
    (typeMap : gmap string TypeRequest) (declaredItemIdentifiers : gset string)
    (attrHeaders : list string) (data : obj)
    (identifier name typeIdentifier parentIdentifier : string)
    (st : ItemAcc) : ItemAcc :=
  let st := warn_unknown_type typeMap sheetName rowNumber typeIdentifier st in
  match type_parent typeMap typeIdentifier, falsy parentIdentifier with
  | Some p, true =>
      item_report st error sheetName rowNumber "parent_identifier"
        ("type '" ++ typeIdentifier ++ "' is child of '" ++ p
         ++ "', so parent_identifier is required")
  | _, _ =>
  if bool_decide (parentIdentifier = identifier) then
    item_report st error sheetName rowNumber "parent_identifier"
      "parent_identifier cannot reference the same item identifier"
  else
  let st := warn_unknown_parent declaredItemIdentifiers sheetName rowNumber
              parentIdentifier st in
  match parseJsonObject (prop data "values_json") true with
  | Fail e => item_report st error sheetName rowNumber "values_json" e
  | Ok parsedValues =>
  match parseJsonObject (prop data "channels_json") true with
  | Fail e => item_report st error sheetName rowNumber "channels_json" e
  | Ok channels =>
      item_emit sheetName rowNumber config attributeMap attrHeaders data
        identifier name typeIdentifier parentIdentifier parsedValues channels st
  end end end.

Definition item_row (sheetName : string) (config : Config)
    (attributeMap : gmap string AttributeModel)
    (typeMap : gmap string TypeRequest) (declaredItemIdentifiers : gset string)
    (hdrs attrHeaders : list string) (st : ItemAcc) (r : Row) : ItemAcc :=
  let data := data r in
  let rowNumber := Some (rowNumber r) in
  if negb (rowHasAnyValue data hdrs) then st else
  let identifier := normalizeIdentifier (prop data "identifier") in
  let name := toText (prop data "name_en") in
  let typeIdentifier := normalizeIdentifier (prop data "type_identifier") in
  let parentIdentifier := normalizeIdentifier (prop data "parent_identifier") in
  if falsy identifier then
    item_report st error sheetName rowNumber "identifier" "identifier is required"
  else if falsy name then
    item_report st error sheetName rowNumber "name_en" "name_en is required"
  else if falsy typeIdentifier then
    item_report st error sheetName rowNumber "type_identifier"
      "type_identifier is required"
  else if bool_decide (identifier ∈ it_seen st) then
    item_report st error sheetName rowNumber "identifier"
      ("Duplicate item identifier '" ++ identifier ++ "' across item sheets")
  else
    item_checked sheetName rowNumber config attributeMap typeMap
      declaredItemIdentifiers attrHeaders data identifier name typeIdentifier
      parentIdentifier (item_reserve st identifier).

(** [parseItemSheet]: the result carries the sheet's payload together with
    the issue array and the seen set as the call leaves them. *)
Definition parseItemSheet (workbook : Workbook) (sheetName : string)
    (config : Config) (attributeMap : gmap string AttributeModel)
    (typeMap : gmap string TypeRequest)
    (seenItemIdentifiers declaredItemIdentifiers : gset string)
    (issues : list Issue) : ItemAcc :=
  let parsed := parseSheetWithHeaders workbook sheetName ITEM_BASE_HEADERS in
  if negb (sheet_exists parsed) then mkItemAcc issues seenItemIdentifiers []
  else
    let issues := missingHeaderIssues issues sheetName (missingHeaders parsed) in
    let attrHeaders := filter (λ header, Str.startsWith "attr:" header = true)
                         (headers parsed) in
    foldl (item_row sheetName config attributeMap typeMap declaredItemIdentifiers
             (headers parsed) attrHeaders)
          (mkItemAcc issues seenItemIdentifiers []) (rows parsed).

(** ** The orchestrator *)

Definition is_error (issue : Issue) : bool := bool_decide (severity issue = error).
Definition is_warning (issue : Issue) : bool := bool_decide (severity issue = warning).

Definition splitIssues (issues : list Issue) : list Issue * list Issue :=
  (List.filter is_error issues, List.filter is_warning issues).

Record Payload := {
  p_config : string * string;
  attrGroups : list GroupRequest;
  attributes : list AttributeRequest;
  types : list TypeRequest;
  items : list ItemRequest;
}.

Record Summary := {
  s_attrGroups : nat;
  s_attributes : nat;
  s_types : nat;
  s_items : nat;
  s_errors : nat;
  s_warnings : nat;
}.

Record ValidationResult := {
  payload : Payload;
  summary : Summary;
  errors : list Issue;
  warnings : list Issue;
  valid : bool;
}.

(** Everything the stages of [parseAndValidateImportWorkbook] have computed
    when the last item sheet is done. *)
Record Stages := {
  st_config : Config;
  st_groups : Acc GroupRequest GroupRequest;
  st_types : Acc TypeRequest TypeRequest;
  st_bindings : gmap string (list Binding);
  st_attributes : Acc AttributeModel AttributeRequest;
  st_declared : gset string;
  st_items : ItemAcc;
}.

(** One item sheet after the other, the payloads concatenated. *)
Definition parseItemSheets (workbook : Workbook) (config : Config)
    (attributeMap : gmap string AttributeModel)
    (typeMap : gmap string TypeRequest) (declaredItemIdentifiers : gset string)
    (st : ItemAcc) (sheetNames : list string) : ItemAcc :=
  foldl (λ st sheetName,
           let done := parseItemSheet workbook sheetName config attributeMap
                         typeMap (it_seen st) declaredItemIdentifiers
                         (it_issues st) in
           mkItemAcc (it_issues done) (it_seen done)
             (it_payload st ++ it_payload done)%list)
        st sheetNames.

Definition stages (workbook : Workbook) : Stages :=
  let issues := ensureRequiredSheets workbook [] in
  let parsedConfig := parseConfig workbook issues in
  let config := parsedConfig.1 in
  let groups := parseAttributeGroups workbook config parsedConfig.2 in
  let typs := parseTypes workbook config (acc_issues groups) in
  let bindings :=
    parseTypeGroupBindings workbook (dom (acc_byIdentifier groups))
      (dom (acc_byIdentifier typs)) (acc_issues typs) in
  let attrs :=
    parseAttributes workbook config (acc_byIdentifier groups)
      (acc_byIdentifier typs) bindings.2 bindings.1 in
  let declared := collectDeclaredItemIdentifiers workbook in
  let its :=
    parseItemSheets workbook config (acc_byIdentifier attrs)
      (acc_byIdentifier typs) declared
      (mkItemAcc (acc_issues attrs) ∅ []) itemSheetNames in
  {| st_config := config; st_groups := groups; st_types := typs;
     st_bindings := bindings.2; st_attributes := attrs;
     st_declared := declared; st_items := its |}.

(** The issue array when the last stage is done. *)
Definition all_issues (workbook : Workbook) : list Issue :=
  it_issues (st_items (stages workbook)).

(** [parseAndValidateImportWorkbook], from the workbook [XLSX.read] returned. *)
Definition parseAndValidateImportWorkbook (workbook : Workbook)
    : ValidationResult :=
  let s := stages workbook in
  let '(errs, warns) := splitIssues (it_issues (st_items s)) in
  let attrGroups := acc_payload (st_groups s) in
  let attributes := acc_payload (st_attributes s) in
  let types := acc_payload (st_types s) in
  let items := it_payload (st_items s) in
  {| payload :=
       {| p_config := (cfg_mode (st_config s), cfg_errors (st_config s));
          attrGroups := attrGroups; attributes := attributes;
          types := types; items := items |};
     summary :=
       {| s_attrGroups := List.length attrGroups;
          s_attributes := List.length attributes;
          s_types := List.length types;
          s_items := List.length items;
          s_errors := List.length errs;
          s_warnings := List.length warns |};
     errors := errs;
     warnings := warns;
     valid := bool_decide (List.length errs = 0) |}.

(** [formatIssue(issue)]: a row that is [null] or [0] and an empty field are
    left out. *)
Definition formatIssue (issue : Issue) : string :=
  let location :=
    sheet issue
    ++ match row issue with
       | Some n =>
           if bool_decide (n = 0) then ""
           else ":row " ++ Number_toString (number_of_nat n)
       | None => ""
       end in
  let fieldPart :=
    if falsy (field issue) then "" else " [" ++ field issue ++ "]" in
  location ++ fieldPart ++ " - " ++ message issue.

End Reader.

#[global] Arguments parseSheetWithHeaders : simpl never.
#[global] Arguments ensureRequiredSheets : simpl never.
#[global] Arguments parseConfig : simpl never.
#[global] Arguments parseAttributeGroups : simpl never.
#[global] Arguments parseTypes : simpl never.
#[global] Arguments parseTypeGroupBindings : simpl never.
#[global] Arguments parseAttributes : simpl never.
#[global] Arguments collectDeclaredItemIdentifiers : simpl never.
#[global] Arguments parseItemSheet : simpl never.
#[global] Arguments parseItemSheets : simpl never.
#[global] Arguments item_row : simpl never.
#[global] Arguments item_checked : simpl never.
#[global] Arguments item_emit : simpl never.
#[global] Arguments item_values : simpl never.
#[global] Arguments rowHasAnyValue : simpl never.
#[global] Arguments toText : simpl never.
#[global] Arguments normalizeIdentifier : simpl never.
#[global] Arguments parseJsonObject : simpl never.
#[global] Arguments parseBoolean : simpl never.
#[global] Arguments parseInteger : simpl never.
#[global] Arguments parseCsvList : simpl never.
#[global] Arguments coerceAttributeValue : simpl never.
#[global] Arguments addIssue : simpl never.
#[global] Arguments missingHeaderIssues : simpl never.

(** ** A concrete host for the examples

    The properties below are proved for every host.  The examples run the
    parser on concrete workbooks and need a host that computes: this one
    reads and prints decimal literals exactly (no rounding, no exponent in
    the printed form), and its [JSON.parse] reads the JSON texts made of
    objects, arrays, strings without escapes, decimal numbers, [true],
    [false] and [null]. *)

Module ExampleHost.

Fixpoint digits_of (n : nat) (fuel : nat) (acc : string) : string :=
  match fuel with
  | O => acc
  | S f =>
      let acc := String (ascii_of_nat (48 + n `mod` 10)) acc in
      if (n `div` 10 =? 0)%nat then acc else digits_of (n `div` 10) f acc
  end.

Definition nat_text (n : nat) : string := digits_of n (S n) "".

Fixpoint pad_left (width : nat) (s : string) : string :=
  if (width <=? String.length s)%nat then s
  else match width with
       | O => s
       | S w => pad_left w ("0" ++ s)
       end.

Definition toString (a : number) : string :=
  match a with
  | NaN => "NaN"
  | Infinity negative => if negative then "-Infinity" else "Infinity"
  | Fin m e =>
      let '(m, e) := normalize m e in
      let sign := if (m <? 0)%Z then "-" else "" in
      let n := Z.to_nat (Z.abs m) in
      if (e =? O)%nat then sign ++ nat_text n
      else sign ++ nat_text (n `div` 10 ^ e) ++ "."
           ++ pad_left e (nat_text (n `mod` 10 ^ e))
  end.

(** The digits at the head of [s], their value appended to [acc], and the
    rest of [s]. *)
Fixpoint read_digits (acc : nat) (count : nat) (s : string)
    : nat * nat * string :=
  match s with
  | String c r =>
      if Str.is_digit c
      then read_digits (10 * acc + N.to_nat (N_of_ascii c - 48)) (S count) r
      else (acc, count, s)
  | EmptyString => (acc, count, s)
  end.

Definition read_sign (s : string) : bool * string :=
  match s with
  | String "-"%char r => (true, r)
  | String "+"%char r => (false, r)
  | _ => (false, s)
  end.

Definition signed (negative : bool) (n : nat) : Z :=
  if negative then (- Z.of_nat n)%Z else Z.of_nat n.

Definition parseInt (text : string) : number :=
  let '(negative, r) := read_sign (Str.trimStart text) in
  let '(n, count, _) := read_digits 0 0 r in
  if (count =? O)%nat then NaN else Fin (signed negative n) 0.

(** The longest decimal literal at the head of [s] and what follows it. *)
Definition read_number (s : string) : number * string :=
  let '(negative, r) := read_sign s in
  let '(n, count, r) := read_digits 0 0 r in
  let '(n, fraction, r) :=
    match r with
    | String "."%char r' =>
        let '(n', k, r'') := read_digits n 0 r' in (n', k, r'')
    | _ => (n, O, r)
    end in
  if (count + fraction =? O)%nat then (NaN, s)
  else
    let exponent :=
      match r with
      | String c r' =>
          if Ascii.eqb c "e" || Ascii.eqb c "E" then
            let '(eneg, r'') := read_sign r' in
            let '(x, k, r''') := read_digits 0 0 r'' in
            if (k =? O)%nat then None else Some (eneg, x, r''')
          else None
      | EmptyString => None
      end in
    match exponent with
    | None => (Fin (signed negative n) fraction, r)
    | Some (true, x, r') => (Fin (signed negative n) (fraction + x), r')
    | Some (false, x, r') =>
        (Fin (signed negative n * 10 ^ Z.of_nat (x - fraction))
             (fraction - x), r')
    end.

Definition parseFloat (text : string) : number :=
  (read_number (Str.trimStart text)).1.

(** JSON white space. *)
Fixpoint skip_ws (s : string) : string :=
  match s with
  | String c r =>
      if existsb (N.eqb (N_of_ascii c)) [9; 10; 13; 32]%N then skip_ws r else s
  | EmptyString => s
  end.

(** The characters up to the closing quote; a backslash or a control
    character is not read. *)
Fixpoint read_string (s : string) : option (string * string) :=
  match s with
  | EmptyString => None
  | String c r =>
      if Ascii.eqb c "034" then Some (EmptyString, r)
      else if Ascii.eqb c "\" || (N_of_ascii c <? 32)%N then None
      else match read_string r with
           | Some (body, rest) => Some (String c body, rest)
           | None => None
           end
  end.

Fixpoint read_value (fuel : nat) (s : string) : option (jsval * string) :=
  match fuel with
  | O => None
  | S f =>
      let s := skip_ws s in
      match s with
      | String "n" (String "u" (String "l" (String "l" r))) => Some (JNull, r)
      | String "t" (String "r" (String "u" (String "e" r))) => Some (JBool true, r)
      | String "f" (String "a" (String "l" (String "s" (String "e" r)))) =>
          Some (JBool false, r)
      | String "034" r =>
          match read_string r with
          | Some (body, rest) => Some (JStr body, rest)
          | None => None
          end
      | String "[" r =>
          match skip_ws r with
          | String "]" rest => Some (JArr [], rest)
          | r => match read_elements f r with
                 | Some (l, rest) => Some (JArr l, rest)
                 | None => None
                 end
          end
      | String "{" r =>
          match skip_ws r with
          | String "}" rest => Some (JObj [], rest)
          | r => match read_members f [] r with
                 | Some (o, rest) => Some (JObj o, rest)
                 | None => None
                 end
          end
      | String c _ =>
          if Str.is_digit c || Ascii.eqb c "-" then
            match read_number s with
            | (Fin m e, rest) => Some (JNum (Fin m e), rest)
            | _ => None
            end
          else None
      | EmptyString => None
      end
  end
with read_elements (fuel : nat) (s : string) : option (list jsval * string) :=
  match fuel with
  | O => None
  | S f =>
      match read_value f s with
      | Some (v, rest) =>
          match skip_ws rest with
          | String "," rest' =>
              match read_elements f rest' with
              | Some (l, rest'') => Some (v :: l, rest'')
              | None => None
              end
          | String "]" rest' => Some ([v], rest')
          | _ => None
          end
      | None => None
      end
  end
with read_members (fuel : nat) (acc : obj) (s : string) : option (obj * string) :=
  match fuel with
  | O => None
  | S f =>
      match skip_ws s with
      | String "034" r =>
          match read_string r with
          | Some (key, rest) =>
              match skip_ws rest with
              | String ":" rest' =>
                  match read_value f rest' with
                  | Some (v, rest'') =>
                      let acc := obj_set key v acc in
                      match skip_ws rest'' with
                      | String "," rest3 => read_members f acc rest3
                      | String "}" rest3 => Some (acc, rest3)
                      | _ => None
                      end
                  | None => None
                  end
              | _ => None
              end
          | None => None
          end
      | _ => None
      end
  end.

Definition parse (text : string) : option jsval :=
  match read_value (2 * String.length text + 2) text with
  | Some (v, rest) =>
      match skip_ws rest with
      | EmptyString => Some v
      | _ => None
      end
  | None => None
  end.

#[export] Instance host : Host := {|
  Number_toString := toString;
  Number_parseInt := parseInt;
  Number_parseFloat := parseFloat;
  JSON_parse := parse;
|}.

(** A JSON text written with apostrophes where JSON has double quotes. *)
Definition json_text (s : string) : string :=
  Str.map_chars (λ c, if Ascii.eqb c "'" then "034"%char else c) s.

End ExampleHost.

(** ** Example workbooks *)

Module Examples.
Import ExampleHost.

Definition cells (texts : list string) : list jsval := JStr <$> texts.

Definition workbook_of (sheets : list (string * list (list jsval))) : Workbook :=
  {| SheetNames := sheets.*1; Sheets := list_to_map sheets |}.

Definition config_sheet : list (list jsval) :=
  [cells CONFIG_HEADERS; cells ["mode"; "CREATE_UPDATE"];
   cells ["errors"; "PROCESS_WARN"]; cells ["default_language"; "en"]].

Definition group_sheet : list (list jsval) :=
  [cells GROUP_HEADERS;
   cells ["commercial"; "Commercial Data"; "20"; "TRUE"; "{}"]].

Definition attribute_sheet : list (list jsval) :=
  [cells ATTRIBUTE_HEADERS;
   cells ["material"; "Material"; "1"; "commercial"; "20"; "FALSE"; "FALSE";
          "FALSE"; ""; ""; "{}"; ""; ""];
   cells ["is_coated"; "Is Coated"; "2"; "commercial"; "30"; "FALSE"; "FALSE";
          "FALSE"; ""; ""; "{}"; ""; ""]].

Definition type_sheet : list (list jsval) :=
  [cells TYPE_HEADERS;
   cells ["product_type"; "Product Type"; ""; "shape-outline"; "blue"; "FALSE"];
   cells ["tct_router_bit"; "TCT Router Bit"; "product_type"; "saw-blade";
          "indigo"; "FALSE"]].

Definition binding_sheet : list (list jsval) :=
  [cells TYPE_GROUP_BINDING_HEADERS;
   cells ["commercial"; "tct_router_bit"; "TRUE"; "FALSE"]].

Definition parent_sheet : list (list jsval) :=
  [cells ITEM_BASE_HEADERS;
   cells ["catalog_root_001"; "Catalog Root 001"; "product_type"; ""; "{}"; "{}"]].

Definition product_headers : list jsval :=
  cells (ITEM_BASE_HEADERS ++ ["attr:material"])%list.

(** The sheets every example shares, then the three product sheets: the
    rows of TCT_Router_Bit are the example's own. *)
Definition catalog (config : list (string * list (list jsval)))
    (type_rows : list (list jsval)) (router_bits : list (list string))
    : Workbook :=
  workbook_of
    (config ++
     [ (SHEETS.GROUPS, group_sheet);
       (SHEETS.ATTRIBUTES, attribute_sheet);
       (SHEETS.TYPES, type_rows);
       (SHEETS.TYPE_GROUP_BINDINGS, binding_sheet);
       (SHEETS.ITEM_PARENTS, parent_sheet);
       ("TCT_Router_Bit", product_headers :: (cells <$> router_bits));
       ("Insert_Tool", [product_headers]);
       ("Countersink", [product_headers]) ])%list.

Definition with_config : list (string * list (list jsval)) :=
  [(SHEETS.CONFIG, config_sheet)].

(** A complete workbook with one product. *)
Definition plain : Workbook :=
  catalog with_config type_sheet
    [["router_bit_001"; "Router Bit 001"; "tct_router_bit"; "catalog_root_001";
      json_text "{'material':'Carbide','is_coated':true}"; "{}"; ""]].

(** The same workbook without the Import_Config sheet. *)
Definition no_config : Workbook :=
  catalog [] type_sheet
    [["router_bit_001"; "Router Bit 001"; "tct_router_bit"; "catalog_root_001";
      json_text "{'material':'Carbide','is_coated':true}"; "{}"; ""]].

(** [plain] with a README sheet and the sheet names in another order. *)
Definition plain_with_readme : Workbook :=
  {| SheetNames := "README" :: reverse (SheetNames plain);
     Sheets := <["README" := [cells ["PIM Excel Import Template"]]]>
                 (Sheets plain) |}.

(** A Types sheet whose second row names itself as its parent. *)
Definition self_parent_types : Workbook :=
  catalog with_config
    (type_sheet ++ [cells ["loop"; "Loop"; " LOOP "; ""; ""; ""]])%list
    [].

(** A product row that repeats, in another spelling, the identifier of the
    parent item of Item_Parents. *)
Definition duplicate_across_sheets : Workbook :=
  catalog with_config type_sheet
    [[" CATALOG_ROOT_001"; "Copy"; "product_type"; ""; "{}"; "{}"; ""]].

(** Two product rows with one identifier.  The first has a child type and
    no parent item; the second is complete. *)
Definition reserved_then_duplicate : Workbook :=
  catalog with_config type_sheet
    [["x001"; "Router Bit"; "tct_router_bit"; ""; "{}"; "{}"; ""];
     [" X001"; "Router Bit again"; "tct_router_bit"; "catalog_root_001";
      "{}"; "{}"; ""]].

(** The same first row, followed by a row with that identifier and no
    name. *)
Definition reserved_then_nameless : Workbook :=
  catalog with_config type_sheet
    [["x001"; "Router Bit"; "tct_router_bit"; ""; "{}"; "{}"; ""];
     ["x001"; ""; "tct_router_bit"; "catalog_root_001"; "{}"; "{}"; ""]].

(** A values_json key in another spelling than the attribute identifier:
    once with a value in the attr: column of that attribute, once with a
    blank value. *)
Definition spelled_keys : Workbook :=
  catalog with_config type_sheet
    [["router_bit_001"; "Router Bit 001"; "tct_router_bit"; "catalog_root_001";
      json_text "{'Material':'Steel'}"; "{}"; "Wood"];
     ["router_bit_002"; "Router Bit 002"; "tct_router_bit"; "catalog_root_001";
      json_text "{'Material':'  '}"; "{}"; ""]].

(** A blank attr:material cell beside a values_json entry for material, and
    a blank values_json value for material. *)
Definition blank_candidates : Workbook :=
  catalog with_config type_sheet
    [["router_bit_001"; "Router Bit 001"; "tct_router_bit"; "catalog_root_001";
      json_text "{'material':'Steel'}"; "{}"; ""];
     ["router_bit_002"; "Router Bit 002"; "tct_router_bit"; "catalog_root_001";
      json_text "{'material':''}"; "{}"; ""]].

(** One product row, run on its own: the values_json key is spelled
    Material and the attr:material cell is blank. *)
Definition material : AttributeModel :=
  {| m_identifier := "material"; m_type := Fin 1 0;
     m_languageDependent := false |}.
Definition spelled_row : Row :=
  {| rowNumber := 2;
     data := rowObject_of (ITEM_BASE_HEADERS ++ ["attr:material"])%list
               (cells ["router_bit_001"; "Router Bit 001"; "tct_router_bit";
                       "catalog_root_001";
                       json_text "{'Material':'Carbide'}"; "{}"; ""]) |}.
Definition is_coated : AttributeModel :=
  {| m_identifier := "is_coated"; m_type := Fin 2 0;
     m_languageDependent := false |}.
Definition models : gmap string AttributeModel :=
  {["material" := material; "is_coated" := is_coated]}.
Definition english : Config :=
  {| cfg_mode := "CREATE_UPDATE"; cfg_errors := "PROCESS_WARN";
     cfg_defaultLanguage := "en" |}.
Definition spelled_row_result : ItemAcc :=
  item_row "TCT_Router_Bit" english {["material" := material]} ∅ ∅
    (ITEM_BASE_HEADERS ++ ["attr:material"])%list ["attr:material"]
    (mkItemAcc [] ∅ []) spelled_row.

(** One product row with a values_json value that is no boolean for the
    BOOLEAN attribute is_coated. *)
Definition uncoercible_value : Workbook :=
  catalog with_config type_sheet
    [["router_bit_001"; "Router Bit 001"; "tct_router_bit"; "catalog_root_001";
      json_text "{'is_coated':'maybe'}"; "{}"; ""]].

(** The same row, run on its own. *)
Definition uncoercible_row : Row :=
  {| rowNumber := 2;
     data := rowObject_of (ITEM_BASE_HEADERS ++ ["attr:material"])%list
               (cells ["router_bit_001"; "Router Bit 001"; "tct_router_bit";
                       "catalog_root_001";
                       json_text "{'is_coated':'maybe'}"; "{}"; ""]) |}.

(** A workbook that lists the nine sheets and holds none. *)
Definition no_sheets : Workbook :=
  {| SheetNames := requiredSheets; Sheets := ∅ |}.

(** The issue of the second x001 row of [reserved_then_duplicate]. *)
Definition duplicate_x001 : Issue :=
  {| severity := error; sheet := "TCT_Router_Bit"; row := Some 3;
     field := "identifier";
     message := "Duplicate item identifier 'x001' across item sheets" |}.

End Examples.

(** ** Vocabulary of the statements *)

(** The issue of the upfront check for a sheet that is not there. *)
Definition missing_sheet_issue (sheetName : string) : Issue :=
  {| severity := error; sheet := sheetName; row := None; field := "sheet";
     message := "Sheet is required but missing" |}.

(** The configuration of a workbook without an Import_Config sheet. *)
Definition default_config : Config :=
  {| cfg_mode := "CREATE_UPDATE"; cfg_errors := "PROCESS_WARN";
     cfg_defaultLanguage := "en" |}.

(** Two workbooks have the same contents for the parser when they agree on
    what it reads: which required sheets [SheetNames] lists and the cell
    matrices of those sheets. *)
Definition same_contents (wb1 wb2 : Workbook) : Prop :=
  ∀ sh, sh ∈ requiredSheets →
    (sh ∈ SheetNames wb1 ↔ sh ∈ SheetNames wb2)
    ∧ Sheets wb1 !! sh = Sheets wb2 !! sh.

(** The error of the second pass of [parseTypes] for a type that names
    itself as its parent. *)
Definition self_reference_issue (t : TypeRequest) : Issue :=
  {| severity := error; sheet := SHEETS.TYPES; row := None;
     field := "parent_identifier";
     message := "Type '" ++ t_identifier t
                ++ "' cannot reference itself as parent." |}.

(** The record that [parseTypes] pushes for a row it accepts. *)
Definition type_request `{Host} (config : Config) (r : Row)
    (fileValue : option bool) : TypeRequest :=
  {| t_identifier := normalizeIdentifier (prop (data r) "identifier");
     t_name := localized (cfg_defaultLanguage config)
                 (toText (prop (data r) "name_en"));
     t_parentIdentifier :=
       truthy_text (normalizeIdentifier (prop (data r) "parent_identifier"));
     t_icon := truthy_text (toText (prop (data r) "icon"));
     t_iconColor := truthy_text (toText (prop (data r) "icon_color"));
     t_file := fileValue |}.

(** A row of Type_Group_Bindings that [parseTypeGroupBindings] accepts for
    the group [g], and the binding [b] it records. *)
Definition parsed_binding `{Host} (r : Row) (g : string) (b : Binding) : Prop :=
  rowHasAnyValue (data r) TYPE_GROUP_BINDING_HEADERS = true
  ∧ normalizeIdentifier (prop (data r) "group_identifier") = g
  ∧ g ≠ ""
  ∧ normalizeIdentifier (prop (data r) "type_identifier") = b_typeIdentifier b
  ∧ b_typeIdentifier b ≠ ""
  ∧ booleanOr true (prop (data r) "valid") = Ok (b_valid b)
  ∧ booleanOr true (prop (data r) "visible") = Ok (b_visible b).

(** The emitted [valid] and [visible] arrays of an attribute, empty when the
    property is not set. *)
Definition valid_of (a : AttributeRequest) : list string := default [] (a_valid a).
Definition visible_of (a : AttributeRequest) : list string := default [] (a_visible a).

(** *** The item rows in processing order

    [parseAndValidateImportWorkbook] walks Item_Parents and then the product
    sheets; each sheet that exists first reports its missing headers and
    then runs the row callback on its rows.  [item_work] lists these steps in
    the order of the run, so that "an earlier row" and "a subsequent row" of
    any item sheets are positions of one list. *)

Inductive ItemWork :=
  | SheetStart (sheetName : string) (missing : list string)
  | SheetRow (sheetName : string) (hdrs attrHeaders : list string) (r : Row).

Section ItemOrder.
Context `{Host}.

Definition sheet_work (wb : Workbook) (sheetName : string) : list ItemWork :=
  let parsed := parseSheetWithHeaders wb sheetName ITEM_BASE_HEADERS in
  if negb (sheet_exists parsed) then []
  else
    SheetStart sheetName (missingHeaders parsed)
    :: (SheetRow sheetName (headers parsed)
          (filter (λ header, Str.startsWith "attr:" header = true)
             (headers parsed))
        <$> rows parsed).

Definition item_work (wb : Workbook) : list ItemWork :=
  List.concat (sheet_work wb <$> itemSheetNames).

(** One step of the run, on the accumulated state (the payloads of the
    sheets in one list). *)
Definition work_step (config : Config) (am : gmap string AttributeModel)
    (tm : gmap string TypeRequest) (declared : gset string)
    (st : ItemAcc) (w : ItemWork) : ItemAcc :=
  match w with
  | SheetStart sh missing =>
      mkItemAcc (missingHeaderIssues (it_issues st) sh missing)
        (it_seen st) (it_payload st)
  | SheetRow sh hdrs attrHeaders r =>
      item_row sh config am tm declared hdrs attrHeaders st r
  end.

(** The state of the run of [wb] after the steps [work], started as
    [parseAndValidateImportWorkbook] starts the item sheets. *)
Definition item_run (wb : Workbook) (work : list ItemWork) : ItemAcc :=
  let s := stages wb in
  foldl (work_step (st_config s) (acc_byIdentifier (st_attributes s))
           (acc_byIdentifier (st_types s)) (st_declared s))
        (mkItemAcc (acc_issues (st_attributes s)) ∅ []) work.

(** One more step of that run. *)
Definition item_step (wb : Workbook) (st : ItemAcc) (w : ItemWork) : ItemAcc :=
  let s := stages wb in
  work_step (st_config s) (acc_byIdentifier (st_attributes s))
    (acc_byIdentifier (st_types s)) (st_declared s) st w.

Definition item_identifier (r : Row) : string :=
  normalizeIdentifier (prop (data r) "identifier").

(** The row is not skipped and has an identifier, a name and a type
    identifier: it reaches the duplicate check. *)
Definition has_required_fields (hdrs : list string) (r : Row) : bool :=
  rowHasAnyValue (data r) hdrs
  && negb (falsy (item_identifier r))
  && negb (falsy (toText (prop (data r) "name_en")))
  && negb (falsy (normalizeIdentifier (prop (data r) "type_identifier"))).

Definition duplicate_issue (sheetName : string) (r : Row) : Issue :=
  {| severity := error; sheet := sheetName; row := Some (rowNumber r);
     field := "identifier";
     message := "Duplicate item identifier '" ++ item_identifier r
                ++ "' across item sheets" |}.

(** The [values] object of an emitted item, empty when the property is not
    set. *)
Definition values_of (req : ItemRequest) : obj := default [] (i_values req).

(** The attribute identifier a values_json entry and an attr: column stand
    for. *)
Definition json_identifier (entry : string * jsval) : string :=
  normalizeIdentifier (JStr entry.1).
Definition column_identifier (header : string) : string :=
  normalizeIdentifier (JStr (Str.slice 5 header)).

End ItemOrder.

(** *** What a row callback does with a row it does not skip

    A row has a row-level failure when one of the checks of its callback
    that end in [addIssue(...); return;] fires: a required cell is empty,
    the identifier is taken, or a cell of the row's own columns does not
    parse. *)

Definition is_fail {A} (p : Parsed A) : bool :=
  match p with Fail _ => true | Ok _ => false end.

(** [after] is [before] with warnings and then exactly one error of the
    row [r] of the sheet. *)
Definition one_error (sheetName : string) (r : Row)
    (before after : list Issue) : Prop :=
  ∃ ws e, after = (before ++ ws ++ [e])%list
          ∧ Forall (λ w, severity w = warning) ws
          ∧ severity e = error ∧ sheet e = sheetName
          ∧ row e = Some (rowNumber r).

Definition only_warnings (before after : list Issue) : Prop :=
  ∃ ws, after = (before ++ ws)%list ∧ Forall (λ w, severity w = warning) ws.

Definition row_dropped {M R} (sheetName : string) (r : Row)
    (st st' : Acc M R) : Prop :=
  one_error sheetName r (acc_issues st) (acc_issues st')
  ∧ acc_payload st' = acc_payload st
  ∧ acc_byIdentifier st' = acc_byIdentifier st.

Definition row_emitted {M R} (st st' : Acc M R) : Prop :=
  only_warnings (acc_issues st) (acc_issues st')
  ∧ ∃ request, acc_payload st' = (acc_payload st ++ [request])%list.

Section Defects.
Context `{Host}.

Definition group_defect (byIdentifier : gmap string GroupRequest)
    (data : obj) : bool :=
  let identifier := normalizeIdentifier (prop data "identifier") in
  let orderText := toText (prop data "order") in
  let visibleText := toText (prop data "visible") in
  falsy identifier
  || falsy (toText (prop data "name_en"))
  || bool_decide (is_Some (byIdentifier !! identifier))
  || is_fail (optional (falsy orderText) (parseInteger (JStr orderText)))
  || is_fail (optional (falsy visibleText) (parseBoolean (JStr visibleText)))
  || is_fail (parseJsonObject (prop data "options_json") true).

Definition type_defect (byIdentifier : gmap string TypeRequest)
    (data : obj) : bool :=
  let identifier := normalizeIdentifier (prop data "identifier") in
  falsy identifier
  || falsy (toText (prop data "name_en"))
  || bool_decide (is_Some (byIdentifier !! identifier))
  || is_fail (optional (isBlank (prop data "file"))
                (parseBoolean (prop data "file"))).

Definition binding_defect (data : obj) : bool :=
  falsy (normalizeIdentifier (prop data "group_identifier"))
  || falsy (normalizeIdentifier (prop data "type_identifier"))
  || is_fail (booleanOr true (prop data "valid"))
  || is_fail (booleanOr true (prop data "visible")).

Definition attribute_defect (groupMap : gmap string GroupRequest)
    (byIdentifier : gmap string AttributeModel) (data : obj) : bool :=
  let identifier := normalizeIdentifier (prop data "identifier") in
  let typeRaw := toText (prop data "type_code") in
  let groups := parseCsvList (prop data "groups_csv") in
  falsy identifier
  || falsy (toText (prop data "name_en"))
  || falsy typeRaw
  || bool_decide (is_Some (byIdentifier !! identifier))
  || negb match parseInteger (JStr typeRaw) with
          | Ok code => is_type_code code
          | Fail _ => false
          end
  || bool_decide (groups = [])
  || negb (bool_decide
             (filter (λ groupIdentifier, groupMap !! groupIdentifier = None)
                groups = []))
  || is_fail (optional (isBlank (prop data "order"))
                (parseInteger (prop data "order")))
  || is_fail (booleanOr false (prop data "language_dependent"))
  || is_fail (booleanOr false (prop data "rich_text"))
  || is_fail (booleanOr false (prop data "multi_line"))
  || is_fail (parseJsonObject (prop data "options_json") true).

Definition item_defect (typeMap : gmap string TypeRequest)
    (seen : gset string) (data : obj) : bool :=
  let identifier := normalizeIdentifier (prop data "identifier") in
  let typeIdentifier := normalizeIdentifier (prop data "type_identifier") in
  let parentIdentifier := normalizeIdentifier (prop data "parent_identifier") in
  falsy identifier
  || falsy (toText (prop data "name_en"))
  || falsy typeIdentifier
  || bool_decide (identifier ∈ seen)
  || match type_parent typeMap typeIdentifier with
     | Some _ => falsy parentIdentifier
     | None => false
     end
  || bool_decide (parentIdentifier = identifier)
  || is_fail (parseJsonObject (prop data "values_json") true)
  || is_fail (parseJsonObject (prop data "channels_json") true).

(** The error of an attribute value that does not coerce. *)
Definition invalid_value_issue (sheetName : string) (rowNumber : option nat)
    (fld e : string) : Issue :=
  {| severity := error; sheet := sheetName; row := rowNumber; field := fld;
     message := "Invalid value: " ++ e |}.

End Defects.

(** *** Vocabulary of the further properties *)

(** The error for a required header that a sheet lacks. *)
Definition header_issue (sheetName header : string) : Issue :=
  {| severity := error; sheet := sheetName; row := Some 1; field := header;
     message := "Missing required header" |}.

(** The required sheets that have headers of their own, each with the
    headers its parser asks [parseSheetWithHeaders] for. *)
Definition sheet_contract : list (string * list string) :=
  ([(SHEETS.CONFIG, CONFIG_HEADERS); (SHEETS.GROUPS, GROUP_HEADERS);
    (SHEETS.TYPES, TYPE_HEADERS);
    (SHEETS.TYPE_GROUP_BINDINGS, TYPE_GROUP_BINDING_HEADERS);
    (SHEETS.ATTRIBUTES, ATTRIBUTE_HEADERS)]
   ++ ((λ sheetName, (sheetName, ITEM_BASE_HEADERS)) <$> itemSheetNames))%list.

(** The projection of an attribute request that [parseAttributes] keeps in
    its [byIdentifier] map. *)
Definition model_of (a : AttributeRequest) : AttributeModel :=
  {| m_identifier := a_identifier a; m_type := a_type a;
     m_languageDependent := a_languageDependent a |}.

Section TableModel.
Context {M R : Type} (key : R → string) (model : R → M).

(** The payload has one record per identifier and the lookup table maps
    exactly the identifiers of the payload, each to the model of its
    record. *)
Definition table_ok (st : Acc M R) : Prop :=
  NoDup (key <$> acc_payload st)
  ∧ ∀ id m, acc_byIdentifier st !! id = Some m
            ↔ ∃ r, r ∈ acc_payload st ∧ key r = id ∧ model r = m.

(** A row callback leaves payload and table alone or adds one record under
    a new identifier to both. *)
Definition table_step (st st' : Acc M R) : Prop :=
  (acc_payload st' = acc_payload st
   ∧ acc_byIdentifier st' = acc_byIdentifier st)
  ∨ ∃ r, acc_byIdentifier st !! key r = None
         ∧ acc_payload st' = (acc_payload st ++ [r])%list
         ∧ acc_byIdentifier st' = <[key r := model r]> (acc_byIdentifier st).

End TableModel.

(** [after] is [before] with issues that all satisfy [P]. *)
Definition adds (P : Issue → Prop) (before after : list Issue) : Prop :=
  ∃ new, after = (before ++ new)%list ∧ Forall P new.

(** An issue names a required sheet and a field, and its row, if it has
    one, is not 0. *)
Definition issue_ok (i : Issue) : Prop :=
  sheet i ∈ requiredSheets ∧ field i ≠ "" ∧ row i ≠ Some 0.

(** The text that [formatIssue] puts after the sheet for the row of an
    issue. *)
Definition row_text `{Host} (r : option nat) : string :=
  match r with
  | Some n => ":row " ++ Number_toString (number_of_nat n)
  | None => ""
  end.

(** The warning of the second pass of [parseTypes] for a parent that the
    type table does not hold. *)
Definition unknown_parent_type_issue (parent : string) : Issue :=
  {| severity := warning; sheet := SHEETS.TYPES; row := None;
     field := "parent_identifier";
     message := "Parent type '" ++ parent
                ++ "' is not defined in this workbook. It must already exist in PIM." |}.

(** The issues that the second pass adds for one type. *)
Definition second_pass (byId : gmap string TypeRequest) (t : TypeRequest)
    : list Issue :=
  (match t_parentIdentifier t with
   | Some parent =>
       if negb (falsy parent) && negb (bool_decide (is_Some (byId !! parent)))
       then [unknown_parent_type_issue parent]
       else []
   | None => []
   end
   ++ if bool_decide (t_parentIdentifier t = Some (t_identifier t))
      then [self_reference_issue t]
      else [])%list.

Section ConfigKey.
Context `{Host}.

(** The key of a row of Import_Config as [parseConfig] reads it. *)
Definition config_key (r : Row) : string :=
  Str.toLowerCase (toText (prop (data r) "key")).

End ConfigKey.

Section BindingRows.
Context `{Host}.

(** The group and the binding that [parseTypeGroupBindings] records for a
    row, if it accepts the row. *)
Definition binding_of_row (r : Row) : option (string * Binding) :=
  if negb (rowHasAnyValue (data r) TYPE_GROUP_BINDING_HEADERS) then None
  else
    let groupIdentifier := normalizeIdentifier (prop (data r) "group_identifier") in
    let typeIdentifier := normalizeIdentifier (prop (data r) "type_identifier") in
    if falsy groupIdentifier then None
    else if falsy typeIdentifier then None
    else
      match booleanOr true (prop (data r) "valid"),
            booleanOr true (prop (data r) "visible") with
      | Ok valid, Ok visible =>
          Some (groupIdentifier,
                {| b_typeIdentifier := typeIdentifier;
                   b_valid := valid; b_visible := visible |})
      | _, _ => None
      end.

(** The binding of the row when it is one of the group [g]. *)
Definition binding_for (g : string) (r : Row) : option Binding :=
  match binding_of_row r with
  | Some (g', b) => if decide (g' = g) then Some b else None
  | None => None
  end.

End BindingRows.

(** * Properties *)

(** ** The issue array only grows *)

Lemma foldl_prefix {A} (f : list Issue → A → list Issue) (l : list A) :
  (∀ iss x, iss `prefix_of` f iss x) →
  ∀ iss, iss `prefix_of` foldl f iss l.
Proof.
  intros Hf. induction l as [|x l IH]; intros iss; simpl.
  - reflexivity.
  - etrans; [apply Hf | apply IH].
Qed.

Lemma foldl_rel {S A} (R : S → S → Prop) `{!PreOrder R}
    (f : S → A → S) (l : list A) :
  (∀ st x, R st (f st x)) → ∀ st, R st (foldl f st l).
Proof.
  intros Hf. induction l as [|x l IH]; intros st; simpl.
  - reflexivity.
  - etrans; [apply Hf | apply IH].
Qed.

Lemma addIssue_prefix iss sev sh r fld msg :
  iss `prefix_of` addIssue iss sev sh r fld msg.
Proof. unfold addIssue. by apply prefix_app_r. Qed.

Lemma addIssue_prefix_r iss iss' sev sh r fld msg :
  iss `prefix_of` iss' → iss `prefix_of` addIssue iss' sev sh r fld msg.
Proof. intros. etrans; [done | apply addIssue_prefix]. Qed.

(** Closes [iss `prefix_of` addIssue (... (addIssue iss ...) ...) ...]. *)
Ltac solve_prefix :=
  repeat apply addIssue_prefix_r; first [reflexivity | assumption].

Lemma missingHeaderIssues_prefix iss sh missing :
  iss `prefix_of` missingHeaderIssues iss sh missing.
Proof.
  unfold missingHeaderIssues. apply foldl_prefix.
  intros. apply addIssue_prefix.
Qed.

Lemma not_snoc {A} (l : list A) (x : A) : l ≠ (l ++ [x])%list.
Proof.
  intros Heq. apply (f_equal List.length) in Heq.
  rewrite length_app in Heq. simpl in Heq. lia.
Qed.

(** Splits every [if] and [match] of a row callback. *)
Ltac row_cases := repeat case_match.

Section Growth.
Context `{Host}.







Lemma ensureRequiredSheets_prefix wb iss :
  iss `prefix_of` ensureRequiredSheets wb iss.
Proof.
  unfold ensureRequiredSheets. apply foldl_prefix.
  intros. case_bool_decide; [reflexivity | apply addIssue_prefix].
Qed.


Definition fst_grows {B} (a b : list Issue * B) : Prop := a.1 `prefix_of` b.1.

#[global] Instance fst_grows_preorder {B} : PreOrder (@fst_grows B).
Proof.
  split; [intros a; unfold fst_grows; reflexivity|].
  intros a b c; unfold fst_grows; intros; by etrans.
Qed.

Lemma config_row_prefix st r : fst_grows st (config_row st r).
Proof.
  destruct st as [iss kv]. unfold fst_grows, config_row. row_cases;
    simpl; solve_prefix.
Qed.

Lemma parseConfig_prefix wb iss : iss `prefix_of` (parseConfig wb iss).2.
Proof.
  unfold parseConfig. case_match; simpl; [reflexivity|].
  pose proof (foldl_rel fst_grows config_row
                (rows (parseSheetWithHeaders wb SHEETS.CONFIG CONFIG_HEADERS))
                config_row_prefix
                (missingHeaderIssues iss SHEETS.CONFIG
                   (missingHeaders (parseSheetWithHeaders wb SHEETS.CONFIG CONFIG_HEADERS)), ∅))
    as Hrows.
  destruct (foldl config_row _ _) as [iss' kv]. unfold fst_grows in Hrows.
  simpl in *.
  etrans; [apply missingHeaderIssues_prefix|].
  etrans; [apply Hrows|].
  repeat case_match; simpl; solve_prefix.
Qed.

Definition acc_grows {M R} (a b : Acc M R) : Prop :=
  acc_issues a `prefix_of` acc_issues b.

#[global] Instance acc_grows_preorder {M R} : PreOrder (@acc_grows M R).
Proof.
  split; [intros a; unfold acc_grows; reflexivity|].
  intros a b c; unfold acc_grows; intros; by etrans.
Qed.

Lemma foldl_grows_from {M R A} (f : Acc M R → A → Acc M R) (l : list A) :
  (∀ st x, acc_grows st (f st x)) →
  ∀ iss st, iss `prefix_of` acc_issues st →
            iss `prefix_of` acc_issues (foldl f st l).
Proof.
  intros Hf iss st Hst. etrans; [exact Hst|].
  apply (foldl_rel acc_grows f l Hf).
Qed.

Lemma report_grows {M R} (st : Acc M R) sev sh r fld msg :
  acc_grows st (report st sev sh r fld msg).
Proof. apply addIssue_prefix. Qed.

Lemma emit_grows {M R} (st : Acc M R) identifier model request :
  acc_grows st (emit st identifier model request).
Proof. unfold acc_grows. simpl. reflexivity. Qed.

Ltac solve_grows :=
  first [apply report_grows | apply emit_grows | reflexivity].

Lemma group_row_grows config st r : acc_grows st (group_row config st r).
Proof. unfold group_row. row_cases; solve_grows. Qed.

Lemma parseAttributeGroups_prefix wb config iss :
  iss `prefix_of` acc_issues (parseAttributeGroups wb config iss).
Proof.
  unfold parseAttributeGroups. case_match; simpl; [reflexivity|].
  apply foldl_grows_from; [apply group_row_grows|].
  apply missingHeaderIssues_prefix.
Qed.

Lemma type_row_grows config st r : acc_grows st (type_row config st r).
Proof. unfold type_row. row_cases; solve_grows. Qed.

Lemma type_check_prefix byId iss t : iss `prefix_of` type_check byId iss t.
Proof.
  unfold type_check. row_cases; solve_prefix.
Qed.

Lemma parseTypes_prefix wb config iss :
  iss `prefix_of` acc_issues (parseTypes wb config iss).
Proof.
  unfold parseTypes. case_match; simpl; [reflexivity|].
  etrans; [|apply foldl_prefix, type_check_prefix].
  apply foldl_grows_from; [apply type_row_grows|].
  apply missingHeaderIssues_prefix.
Qed.

Lemma binding_row_prefix gs ts st r :
  fst_grows st (binding_row gs ts st r).
Proof.
  destruct st as [iss bm]. unfold fst_grows, binding_row. row_cases;
    solve_prefix.
Qed.

Lemma parseTypeGroupBindings_prefix wb gs ts iss :
  iss `prefix_of` (parseTypeGroupBindings wb gs ts iss).1.
Proof.
  unfold parseTypeGroupBindings. case_match; simpl; [reflexivity|].
  etrans; [apply missingHeaderIssues_prefix|].
  apply (foldl_rel fst_grows (binding_row gs ts) _
           (binding_row_prefix gs ts)
           (missingHeaderIssues iss SHEETS.TYPE_GROUP_BINDINGS _, ∅)).
Qed.

Lemma type_warnings_prefix typeMap r iss l :
  iss `prefix_of` type_warnings typeMap r iss l.
Proof.
  unfold type_warnings. apply foldl_prefix. intros.
  case_match; [reflexivity | apply addIssue_prefix].
Qed.

Lemma attribute_row_grows config groupMap typeMap bindingMap st r :
  acc_grows st (attribute_row config groupMap typeMap bindingMap st r).
Proof.
  unfold attribute_row. row_cases; try solve_grows.
  all: unfold acc_grows; simpl; apply type_warnings_prefix.
Qed.

Lemma parseAttributes_prefix wb config groupMap typeMap bindingMap iss :
  iss `prefix_of`
    acc_issues (parseAttributes wb config groupMap typeMap bindingMap iss).
Proof.
  unfold parseAttributes. case_match; simpl; [reflexivity|].
  apply foldl_grows_from; [apply attribute_row_grows|].
  apply missingHeaderIssues_prefix.
Qed.

Lemma json_value_step_prefix sh rn config am st entry :
  fst_grows st (json_value_step sh rn config am st entry).
Proof.
  destruct st as [iss values], entry as [k raw].
  unfold fst_grows, json_value_step. row_cases; simpl; solve_prefix.
Qed.

Lemma attr_column_step_prefix sh rn config am data st header :
  fst_grows st (attr_column_step sh rn config am data st header).
Proof.
  destruct st as [iss values].
  unfold fst_grows, attr_column_step. row_cases; simpl; solve_prefix.
Qed.

Lemma item_values_prefix sh rn config am attrHeaders data parsedValues iss :
  iss `prefix_of`
    (item_values sh rn config am attrHeaders data parsedValues iss).1.
Proof.
  unfold item_values.
  etrans; [|apply (foldl_rel fst_grows _ _
                     (attr_column_step_prefix sh rn config am data))].
  apply (foldl_rel fst_grows _ _ (json_value_step_prefix sh rn config am)
           (iss, parsedValues)).
Qed.

(** The issue array and the seen set only grow. *)
Definition item_grows (a b : ItemAcc) : Prop :=
  it_issues a `prefix_of` it_issues b ∧ it_seen a ⊆ it_seen b.

#[global] Instance item_grows_preorder : PreOrder item_grows.
Proof.
  split; [intros a; split; reflexivity|].
  intros a b c [??] [??]; split; by etrans.
Qed.

Lemma item_report_grows st sev sh r fld msg :
  item_grows st (item_report st sev sh r fld msg).
Proof. split; [apply addIssue_prefix | reflexivity]. Qed.

Lemma item_reserve_grows st identifier :
  item_grows st (item_reserve st identifier).
Proof. split; simpl; [reflexivity | set_solver]. Qed.

Lemma warn_unknown_type_grows tm sh rn t st :
  item_grows st (warn_unknown_type tm sh rn t st).
Proof.
  unfold warn_unknown_type. case_match; [reflexivity|apply item_report_grows].
Qed.

Lemma warn_unknown_parent_grows declared sh rn p st :
  item_grows st (warn_unknown_parent declared sh rn p st).
Proof.
  unfold warn_unknown_parent. case_match; [apply item_report_grows|reflexivity].
Qed.

Lemma item_emit_grows sh rn config am ah data id name t p vs ch st :
  item_grows st (item_emit sh rn config am ah data id name t p vs ch st).
Proof.
  unfold item_emit.
  pose proof (item_values_prefix sh rn config am ah data vs (it_issues st)).
  destruct (item_values _ _ _ _ _ _ _ _) as [iss values]. by split.
Qed.

Ltac solve_item_grows :=
  repeat first
    [ reflexivity
    | (etrans; [|apply item_report_grows])
    | (etrans; [|apply item_emit_grows])
    | (etrans; [|apply warn_unknown_parent_grows])
    | (etrans; [|apply warn_unknown_type_grows])
    | (etrans; [|apply item_reserve_grows]) ].

Lemma item_checked_grows sh rn config am tm declared ah data id name t p st :
  item_grows st (item_checked sh rn config am tm declared ah data id name t p st).
Proof. unfold item_checked. row_cases; solve_item_grows. Qed.

Lemma item_row_grows sh config am tm declared hdrs attrHeaders st r :
  item_grows st (item_row sh config am tm declared hdrs attrHeaders st r).
Proof.
  unfold item_row. row_cases; try solve_item_grows.
  etrans; [apply item_reserve_grows | apply item_checked_grows].
Qed.


Lemma parseItemSheet_grows wb sh config am tm seen declared iss :
  item_grows (mkItemAcc iss seen [])
    (parseItemSheet wb sh config am tm seen declared iss).
Proof.
  unfold parseItemSheet. case_match; [reflexivity|].
  etrans; [|apply (foldl_rel item_grows _ _
                     (item_row_grows sh config am tm declared _ _))].
  split; simpl; [apply missingHeaderIssues_prefix | reflexivity].
Qed.

Lemma parseItemSheets_grows wb config am tm declared st sheetNames :
  item_grows st (parseItemSheets wb config am tm declared st sheetNames).
Proof.
  unfold parseItemSheets. apply (foldl_rel item_grows). clear st.
  intros st sh.
  destruct (parseItemSheet_grows wb sh config am tm (it_seen st) declared
              (it_issues st)) as [Hi Hs].
  split; simpl; assumption.
Qed.

(** Every stage hands the issue array on to the next one, longer or equal. *)
Lemma stages_issue_chain wb :
  let s := stages wb in
  ensureRequiredSheets wb [] `prefix_of` acc_issues (st_groups s)
  ∧ acc_issues (st_groups s) `prefix_of` acc_issues (st_types s)
  ∧ acc_issues (st_types s) `prefix_of` acc_issues (st_attributes s)
  ∧ acc_issues (st_attributes s) `prefix_of` all_issues wb.
Proof.
  unfold all_issues, stages.
  cbn [st_groups st_types st_attributes st_items].
  split; [|split; [|split]].
  - etrans; [apply parseConfig_prefix | apply parseAttributeGroups_prefix].
  - apply parseTypes_prefix.
  - etrans; [apply parseTypeGroupBindings_prefix | apply parseAttributes_prefix].
  - apply (proj1 (parseItemSheets_grows wb _ _ _ _ (mkItemAcc _ ∅ []) _)).
Qed.

End Growth.

(** ** The verdict *)

Section Verdict.
Context `{Host}.

Lemma no_error_iff (issues : list Issue) :
  List.length (List.filter is_error issues) = 0
  ↔ ∀ issue, issue ∈ issues → severity issue = warning.
Proof.
  induction issues as [|i l IH]; simpl.
  - split; [intros _ ? Hin; by apply elem_of_nil in Hin | done].
  - unfold is_error at 1. case_bool_decide as Hi; simpl.
    + split; [done|]. intros Hall.
      specialize (Hall i (list_elem_of_here _ _)). congruence.
    + rewrite IH. split.
      * intros Hall j [->|Hj]%elem_of_cons; [|by apply Hall].
        by destruct (severity i).
      * intros Hall j Hj. apply Hall. by apply elem_of_cons; right.
Qed.

Lemma error_is_reported (wb : Workbook) (issue : Issue) :
  issue ∈ all_issues wb → severity issue = error →
  issue ∈ errors (parseAndValidateImportWorkbook wb)
  ∧ valid (parseAndValidateImportWorkbook wb) = false.
Proof.
  intros Hin Hsev.
  assert (issue ∈ List.filter is_error (all_issues wb)) as Herr.
  { apply list_elem_of_In, filter_In. split; [by apply list_elem_of_In|].
    unfold is_error. by apply bool_decide_eq_true. }
  assert (errors (parseAndValidateImportWorkbook wb)
          = List.filter is_error (all_issues wb)) as He by reflexivity.
  assert (valid (parseAndValidateImportWorkbook wb)
          = bool_decide (List.length (errors (parseAndValidateImportWorkbook wb))
                         = 0)) as Hv by reflexivity.
  rewrite Hv, He. split; [exact Herr|].
  apply bool_decide_eq_false. intros Hlen.
  apply length_zero_iff_nil in Hlen. rewrite Hlen in Herr.
  by apply elem_of_nil in Herr.
Qed.

(** C1.  The result's [errors] are exactly the accumulated issues of severity
    error, its [warnings] those of severity warning, and [valid] is
    [errors.length === 0]: the run is valid exactly when every accumulated
    issue is a warning, so warnings never make it invalid. *)
Theorem valid_iff_no_error (wb : Workbook) :
  let result := parseAndValidateImportWorkbook wb in
  errors result = List.filter is_error (all_issues wb)
  ∧ warnings result = List.filter is_warning (all_issues wb)
  ∧ valid result = bool_decide (List.length (errors result) = 0)
  ∧ (valid result = true
     ↔ ∀ issue, issue ∈ all_issues wb → severity issue = warning).
Proof.
  unfold parseAndValidateImportWorkbook, all_issues, splitIssues. simpl.
  split; [done|]. split; [done|]. split; [done|].
  rewrite bool_decide_eq_true. apply no_error_iff.
Qed.

Lemma payload_of_stages (wb : Workbook) :
  let p := payload (parseAndValidateImportWorkbook wb) in
  attrGroups p = acc_payload (st_groups (stages wb))
  ∧ attributes p = acc_payload (st_attributes (stages wb))
  ∧ types p = acc_payload (st_types (stages wb))
  ∧ items p = it_payload (st_items (stages wb)).
Proof. done. Qed.

(** ** The upfront sheet check and the configuration *)

Lemma ensureRequiredSheets_eq (wb : Workbook) (iss : list Issue) :
  ensureRequiredSheets wb iss
  = (iss ++ (missing_sheet_issue
               <$> filter (λ sh, sh ∉ SheetNames wb) requiredSheets))%list.
Proof.
  unfold ensureRequiredSheets. generalize requiredSheets as l.
  intros l. revert iss. induction l as [|sh l IH]; intros iss; simpl.
  - by rewrite app_nil_r.
  - rewrite IH, filter_cons. case_bool_decide as Hin.
    + apply elem_of_list_to_set in Hin.
      destruct (decide (sh ∉ SheetNames wb)); [contradiction | done].
    + rewrite elem_of_list_to_set in Hin.
      destruct (decide (sh ∉ SheetNames wb)); [|contradiction].
      unfold addIssue. by rewrite fmap_cons, <- app_assoc.
Qed.

(** C2, as the code has it.  When the Import_Config sheet is absent,
    [parseConfig] returns the default configuration (CREATE_UPDATE,
    PROCESS_WARN, en) and adds no issue of its own, but the upfront check
    treats Import_Config like every other required sheet: it raises one
    missing-sheet error for each of the nine required sheets that
    [SheetNames] lacks, Import_Config included, and these errors stay in the
    final issue list. *)
Theorem config_sheet_absent (wb : Workbook) (iss : list Issue) :
  Sheets wb !! SHEETS.CONFIG = None →
  SHEETS.CONFIG ∉ SheetNames wb →
  parseConfig wb iss = (default_config, iss)
  ∧ st_config (stages wb) = default_config
  ∧ ensureRequiredSheets wb []
    = missing_sheet_issue <$> filter (λ sh, sh ∉ SheetNames wb) requiredSheets
  ∧ missing_sheet_issue SHEETS.CONFIG ∈ ensureRequiredSheets wb []
  ∧ ensureRequiredSheets wb [] `prefix_of` all_issues wb.
Proof.
  intros Hsheet Hname.
  assert (∀ i, parseConfig wb i = (default_config, i)) as Hcfg.
  { intros i. unfold parseConfig, parseSheetWithHeaders. by rewrite Hsheet. }
  split; [apply Hcfg|]. split.
  { unfold stages. cbn [st_config]. by rewrite Hcfg. }
  rewrite ensureRequiredSheets_eq, app_nil_l. split; [done|]. split.
  - apply list_elem_of_fmap. exists SHEETS.CONFIG. split; [done|].
    apply list_elem_of_filter. split; [done|]. apply list_elem_of_here.
  - rewrite <- (app_nil_l (_ <$> _)), <- ensureRequiredSheets_eq.
    destruct (stages_issue_chain wb) as (H1 & H2 & H3 & H4).
    etrans; [exact H1|]. etrans; [exact H2|]. etrans; [exact H3|]. exact H4.
Qed.

End Verdict.

(** ** Determinism *)

Section Determinism.
Context `{Host}.
Variables wb1 wb2 : Workbook.
Hypothesis Hsame : same_contents wb1 wb2.

Lemma parseSheetWithHeaders_ext sh hdrs :
  sh ∈ requiredSheets →
  parseSheetWithHeaders wb1 sh hdrs = parseSheetWithHeaders wb2 sh hdrs.
Proof.
  intros Hsh. unfold parseSheetWithHeaders.
  by rewrite (proj2 (Hsame sh Hsh)).
Qed.

Lemma ensureRequiredSheets_ext iss :
  ensureRequiredSheets wb1 iss = ensureRequiredSheets wb2 iss.
Proof.
  rewrite !ensureRequiredSheets_eq. do 2 f_equal.
  assert (∀ l : list string, (∀ sh, sh ∈ l → sh ∈ requiredSheets) →
               filter (λ sh, sh ∉ SheetNames wb1) l
               = filter (λ sh, sh ∉ SheetNames wb2) l) as Hfilter.
  { induction l as [|sh l IH]; intros Hl; [done|].
    rewrite !filter_cons, IH by (intros; apply Hl; by right).
    destruct (Hsame sh (Hl sh (list_elem_of_here _ _))) as [Hiff _].
    repeat case_decide; tauto. }
  by apply Hfilter.
Qed.

Ltac required :=
  unfold requiredSheets; cbn;
  repeat first [apply list_elem_of_here | apply list_elem_of_further].

Lemma parseItemSheet_ext sh config am tm seen declared iss :
  sh ∈ requiredSheets →
  parseItemSheet wb1 sh config am tm seen declared iss
  = parseItemSheet wb2 sh config am tm seen declared iss.
Proof.
  intros Hsh. unfold parseItemSheet.
  by rewrite (parseSheetWithHeaders_ext sh _ Hsh).
Qed.

Lemma parseItemSheets_ext config am tm declared st sheetNames :
  (∀ sh, sh ∈ sheetNames → sh ∈ requiredSheets) →
  parseItemSheets wb1 config am tm declared st sheetNames
  = parseItemSheets wb2 config am tm declared st sheetNames.
Proof.
  unfold parseItemSheets. revert st.
  induction sheetNames as [|sh l IH]; intros st Hl; [done|]. simpl.
  rewrite parseItemSheet_ext by (apply Hl; by left).
  apply IH. intros; apply Hl; by right.
Qed.

Lemma itemSheetNames_required sh : sh ∈ itemSheetNames → sh ∈ requiredSheets.
Proof.
  revert sh. apply Forall_forall.
  apply (bool_decide_unpack _). vm_compute. exact I.
Qed.

Lemma collectDeclaredItemIdentifiers_ext :
  collectDeclaredItemIdentifiers wb1 = collectDeclaredItemIdentifiers wb2.
Proof.
  unfold collectDeclaredItemIdentifiers.
  generalize (∅ : gset string) as declared.
  pose proof itemSheetNames_required as Hl. revert Hl.
  generalize itemSheetNames as l.
  induction l as [|sh l IH]; intros Hl declared; [done|]. simpl.
  rewrite parseSheetWithHeaders_ext by (apply Hl; by left).
  apply IH. intros; apply Hl; by right.
Qed.

Lemma stages_ext : stages wb1 = stages wb2.
Proof.
  unfold stages.
  rewrite ensureRequiredSheets_ext, collectDeclaredItemIdentifiers_ext.
  assert (∀ iss, parseConfig wb1 iss = parseConfig wb2 iss) as ->.
  { intros. unfold parseConfig.
    by rewrite parseSheetWithHeaders_ext by required. }
  assert (∀ c iss, parseAttributeGroups wb1 c iss
                   = parseAttributeGroups wb2 c iss) as ->.
  { intros. unfold parseAttributeGroups.
    by rewrite parseSheetWithHeaders_ext by required. }
  assert (∀ c iss, parseTypes wb1 c iss = parseTypes wb2 c iss) as ->.
  { intros. unfold parseTypes.
    by rewrite parseSheetWithHeaders_ext by required. }
  assert (∀ gs ts iss, parseTypeGroupBindings wb1 gs ts iss
                       = parseTypeGroupBindings wb2 gs ts iss) as ->.
  { intros. unfold parseTypeGroupBindings.
    by rewrite parseSheetWithHeaders_ext by required. }
  assert (∀ c gm tm bm iss, parseAttributes wb1 c gm tm bm iss
                            = parseAttributes wb2 c gm tm bm iss) as ->.
  { intros. unfold parseAttributes.
    by rewrite parseSheetWithHeaders_ext by required. }
  by rewrite parseItemSheets_ext by apply itemSheetNames_required.
Qed.


End Determinism.

(** ** Types *)

Section Types.
Context `{Host}.

(** Every record of the payload is the one its identifier looks up. *)
Definition indexed (st : Acc TypeRequest TypeRequest) : Prop :=
  ∀ t, t ∈ acc_payload st → acc_byIdentifier st !! t_identifier t = Some t.

Lemma type_row_emits config st r t :
  acc_payload (type_row config st r) = (acc_payload st ++ [t])%list →
  acc_byIdentifier st !! t_identifier t = None
  ∧ acc_byIdentifier (type_row config st r)
    = <[t_identifier t := t]> (acc_byIdentifier st)
  ∧ t_identifier t = normalizeIdentifier (prop (data r) "identifier")
  ∧ falsy (t_identifier t) = false
  ∧ t_parentIdentifier t
    = truthy_text (normalizeIdentifier (prop (data r) "parent_identifier")).
Proof.
  unfold type_row. row_cases; simpl;
    try (intros Heq; by apply not_snoc in Heq).
  intros Heq. apply app_inv_head in Heq. injection Heq as <-. simpl.
  split; [|done].
  match goal with
  | Hd : bool_decide (is_Some _) = false |- _ =>
      apply bool_decide_eq_false in Hd; by apply eq_None_not_Some
  end.
Qed.

Lemma type_row_payload config st r :
  acc_payload (type_row config st r) = acc_payload st
  ∧ acc_byIdentifier (type_row config st r) = acc_byIdentifier st
  ∨ ∃ t, acc_payload (type_row config st r) = (acc_payload st ++ [t])%list.
Proof.
  unfold type_row. row_cases; simpl; eauto.
Qed.

Lemma type_row_indexed config st r :
  indexed st → indexed (type_row config st r).
Proof.
  intros Hst.
  destruct (type_row_payload config st r) as [[Hp Hm]|[t Hp]].
  - unfold indexed. by rewrite Hp, Hm.
  - destruct (type_row_emits config st r t Hp) as (Hnew & Hm & _).
    unfold indexed. rewrite Hp, Hm. intros t' [Hold| ->%list_elem_of_singleton]%elem_of_app.
    + rewrite lookup_insert_ne; [by apply Hst|].
      intros Heq. specialize (Hst t' Hold). rewrite <- Heq in Hst. congruence.
    + apply lookup_insert_eq.
Qed.

Lemma type_rows_indexed config rows st :
  indexed st → indexed (foldl (type_row config) st rows).
Proof.
  revert st. induction rows as [|r l IH]; intros st Hst; [done|].
  simpl. apply IH. by apply type_row_indexed.
Qed.

Lemma type_check_self byId (l : list TypeRequest) iss t :
  t ∈ l → t_parentIdentifier t = Some (t_identifier t) →
  self_reference_issue t ∈ foldl (type_check byId) iss l.
Proof.
  revert iss. induction l as [|t' l IH]; intros iss Hin Hself.
  - by apply elem_of_nil in Hin.
  - simpl. apply elem_of_cons in Hin as [<-|Hin]; [|by apply IH].
    eapply elem_of_prefix; [|apply foldl_prefix, type_check_prefix].
    unfold type_check at 1. rewrite (bool_decide_eq_true_2 _ Hself).
    unfold addIssue. apply elem_of_app. right. apply list_elem_of_singleton.
    reflexivity.
Qed.

Lemma parseTypes_indexed wb config iss :
  indexed (parseTypes wb config iss).
Proof.
  unfold parseTypes. case_match; [intros t Hin; by apply elem_of_nil in Hin|].
  unfold indexed. simpl. apply type_rows_indexed.
  intros t Hin. by apply elem_of_nil in Hin.
Qed.

Lemma parseTypes_self wb config iss t :
  t ∈ acc_payload (parseTypes wb config iss) →
  t_parentIdentifier t = Some (t_identifier t) →
  self_reference_issue t ∈ acc_issues (parseTypes wb config iss).
Proof.
  unfold parseTypes. case_match; simpl.
  - intros Hin. by apply elem_of_nil in Hin.
  - apply type_check_self.
Qed.

Lemma isBlank_normalizeIdentifier v :
  isBlank v = true → normalizeIdentifier v = "".
Proof.
  unfold normalizeIdentifier, toText.
  destruct v; simpl; try done.
  intros Hb%bool_decide_eq_true. by rewrite Hb.
Qed.

Lemma identified_row_has_value data hdrs :
  "identifier" ∈ hdrs →
  falsy (normalizeIdentifier (prop data "identifier")) = false →
  rowHasAnyValue data hdrs = true.
Proof.
  intros Hin Hid. unfold rowHasAnyValue. apply existsb_exists.
  exists "identifier". split; [by apply list_elem_of_In|].
  destruct (isBlank (prop data "identifier")) eqn:Hb; [|done].
  apply isBlank_normalizeIdentifier in Hb. by rewrite Hb in Hid.
Qed.

Lemma type_row_kept config st r fileValue :
  falsy (normalizeIdentifier (prop (data r) "identifier")) = false →
  falsy (toText (prop (data r) "name_en")) = false →
  acc_byIdentifier st !! normalizeIdentifier (prop (data r) "identifier") = None →
  optional (isBlank (prop (data r) "file")) (parseBoolean (prop (data r) "file"))
  = Ok fileValue →
  type_row config st r
  = emit st (normalizeIdentifier (prop (data r) "identifier"))
      (type_request config r fileValue) (type_request config r fileValue).
Proof.
  intros Hid Hname Hnew Hfile. unfold type_row.
  rewrite identified_row_has_value; [|set_solver|done].
  cbn [negb]. rewrite Hid, Hname, Hfile.
  rewrite bool_decide_eq_false_2; [done|].
  rewrite Hnew. by intros [? ?].
Qed.

Lemma type_rows_keys config rows st x :
  is_Some (acc_byIdentifier (foldl (type_row config) st rows) !! x) →
  is_Some (acc_byIdentifier st !! x)
  ∨ ∃ r, r ∈ rows ∧ normalizeIdentifier (prop (data r) "identifier") = x.
Proof.
  revert st. induction rows as [|r l IH]; intros st Hx; cbn [foldl] in Hx;
    [by left|].
  apply IH in Hx as [Hx|(r' & Hr' & Hid)].
  - destruct (type_row_payload config st r) as [[_ Hm]|[t Hp]].
    + left. by rewrite <- Hm.
    + destruct (type_row_emits config st r t Hp) as (_ & Hm & Hid & _).
      rewrite Hm in Hx. destruct (decide (x = t_identifier t)) as [->|Hne].
      * right. exists r. split; [apply list_elem_of_here | done].
      * left. by rewrite lookup_insert_ne in Hx.
  - right. exists r'. split; [by apply list_elem_of_further | done].
Qed.

Lemma type_rows_keep config rows st t :
  t ∈ acc_payload st → t ∈ acc_payload (foldl (type_row config) st rows).
Proof.
  revert st. induction rows as [|r l IH]; intros st Hin; cbn [foldl]; [done|].
  apply IH. destruct (type_row_payload config st r) as [[Hp _]|[t' Hp]];
    rewrite Hp; [done|]. apply elem_of_app. by left.
Qed.

Lemma parseTypes_keeps wb config iss before r after fileValue :
  let parsed := parseSheetWithHeaders wb SHEETS.TYPES TYPE_HEADERS in
  sheet_exists parsed = true →
  rows parsed = (before ++ r :: after)%list →
  falsy (normalizeIdentifier (prop (data r) "identifier")) = false →
  falsy (toText (prop (data r) "name_en")) = false →
  (∀ r', r' ∈ before →
         normalizeIdentifier (prop (data r') "identifier")
         ≠ normalizeIdentifier (prop (data r) "identifier")) →
  optional (isBlank (prop (data r) "file")) (parseBoolean (prop (data r) "file"))
  = Ok fileValue →
  type_request config r fileValue ∈ acc_payload (parseTypes wb config iss).
Proof.
  intros parsed Hexists Hrows Hid Hname Hfresh Hfile.
  unfold parseTypes. fold parsed. rewrite Hexists. cbn [negb acc_payload].
  rewrite Hrows, foldl_app. cbn [foldl]. apply type_rows_keep.
  rewrite (type_row_kept _ _ _ fileValue); [| done | done | | done].
  - cbn [emit acc_payload]. apply elem_of_app. right. apply list_elem_of_here.
  - apply eq_None_not_Some. intros [Hsome|(r' & Hr' & Hsame)]%type_rows_keys.
    + cbn [acc_byIdentifier] in Hsome. rewrite lookup_empty in Hsome.
      by destruct Hsome.
    + by apply (Hfresh r').
Qed.


End Types.

(** ** Bindings and attributes *)

Section Bindings.
Context `{Host}.

Lemma falsy_false s : falsy s = false ↔ s ≠ "".
Proof. unfold falsy. by rewrite bool_decide_eq_false. Qed.

Lemma falsy_true s : falsy s = true ↔ s = "".
Proof. unfold falsy. by rewrite bool_decide_eq_true. Qed.

Lemma binding_row_records gs ts iss bm r g b :
  b ∈ default [] ((binding_row gs ts (iss, bm) r).2 !! g)
  ↔ b ∈ default [] (bm !! g) ∨ parsed_binding r g b.
Proof.
  unfold binding_row, parsed_binding.
  destruct (rowHasAnyValue (data r) TYPE_GROUP_BINDING_HEADERS) eqn:Hany;
    simpl; [|split; [by left | by intros [?|[? _]]]].
  destruct (falsy (normalizeIdentifier (prop (data r) "group_identifier")))
    eqn:Hg; simpl.
  { apply falsy_true in Hg. split; [by left|].
    intros [?|(_ & Heq & Hne & _)]; [done | congruence]. }
  destruct (falsy (normalizeIdentifier (prop (data r) "type_identifier")))
    eqn:Ht; simpl.
  { apply falsy_true in Ht. split; [by left|].
    intros [?|(_ & _ & _ & Heq & Hne & _)]; [done | congruence]. }
  apply falsy_false in Hg. apply falsy_false in Ht.
  destruct (booleanOr true (prop (data r) "valid")) as [v|e] eqn:Hv; simpl.
  2: { split; [by left|].
       intros [?|(_ & _ & _ & _ & _ & ? & _)]; [done | discriminate]. }
  destruct (booleanOr true (prop (data r) "visible")) as [w|e] eqn:Hw; simpl.
  2: { split; [by left|].
       intros [?|(_ & _ & _ & _ & _ & _ & ?)]; [done | discriminate]. }
  destruct (decide (normalizeIdentifier (prop (data r) "group_identifier") = g))
    as [<-|Hne].
  - rewrite lookup_insert_eq. simpl. rewrite elem_of_app, list_elem_of_singleton.
    split; intros [Hold|Hnew]; [by left| |by left|].
    + right. subst b. simpl. done.
    + right. destruct b as [t v' w']. simpl in *.
      destruct Hnew as (_ & _ & _ & <- & _ & [= <-] & [= <-]). done.
  - rewrite lookup_insert_ne by done.
    split; [by left|]. intros [?|(_ & ? & _)]; [done | congruence].
Qed.

Lemma binding_rows_record gs ts rows iss bm g b :
  b ∈ default [] ((foldl (binding_row gs ts) (iss, bm) rows).2 !! g)
  ↔ b ∈ default [] (bm !! g) ∨ ∃ r, r ∈ rows ∧ parsed_binding r g b.
Proof.
  revert iss bm. induction rows as [|r l IH]; intros iss bm; cbn [foldl].
  - split; [by left|]. intros [?|(r & Hr & _)]; [done|].
    by apply elem_of_nil in Hr.
  - destruct (binding_row gs ts (iss, bm) r) as [iss' bm'] eqn:Hrow.
    rewrite IH.
    pose proof (binding_row_records gs ts iss bm r g b) as Hstep.
    rewrite Hrow in Hstep. simpl in Hstep. rewrite Hstep.
    setoid_rewrite elem_of_cons. naive_solver.
Qed.

(** The binding map is exactly the accepted rows. *)
Lemma parseTypeGroupBindings_records wb gs ts iss g b :
  b ∈ default [] ((parseTypeGroupBindings wb gs ts iss).2 !! g)
  ↔ ∃ r, r ∈ rows (parseSheetWithHeaders wb SHEETS.TYPE_GROUP_BINDINGS
                     TYPE_GROUP_BINDING_HEADERS)
         ∧ parsed_binding r g b.
Proof.
  unfold parseTypeGroupBindings.
  destruct (sheet_exists _) eqn:Hex; simpl.
  - rewrite binding_rows_record, lookup_empty. simpl.
    split; [intros [Hnil|?]; [by apply elem_of_nil in Hnil|done] | by right].
  - rewrite lookup_empty. simpl. split; [intros Hnil; by apply elem_of_nil in Hnil|].
    intros (r & Hr & _). revert Hr Hex. unfold parseSheetWithHeaders.
    case_match; simpl; [discriminate|]. intros Hr. by apply elem_of_nil in Hr.
Qed.

Lemma elem_of_Set_add s x y : y ∈ Set_add s x ↔ y ∈ s ∨ y = x.
Proof.
  unfold Set_add. case_bool_decide.
  - split; [by left|]. by intros [?| ->].
  - by rewrite elem_of_app, list_elem_of_singleton.
Qed.

Lemma elem_of_Set_from l y : y ∈ Set_from l ↔ y ∈ l.
Proof.
  unfold Set_from.
  assert (∀ s, y ∈ foldl Set_add s l ↔ y ∈ s ∨ y ∈ l) as Hgen.
  { induction l as [|x l IH]; intros s; simpl.
    - split; [by left|]. intros [?|Hnil]; [done|by apply elem_of_nil in Hnil].
    - rewrite IH, elem_of_Set_add, elem_of_cons. naive_solver. }
  rewrite Hgen. split; [|by right].
  intros [Hnil|?]; [by apply elem_of_nil in Hnil|done].
Qed.

Lemma add_binding_valid sets b t :
  t ∈ (add_binding sets b).1
  ↔ t ∈ sets.1 ∨ (b_valid b = true ∧ b_typeIdentifier b = t).
Proof.
  destruct sets as [vs ws]. unfold add_binding. simpl.
  destruct (b_valid b); [rewrite elem_of_Set_add|]; naive_solver.
Qed.

Lemma add_binding_visible sets b t :
  t ∈ (add_binding sets b).2
  ↔ t ∈ sets.2 ∨ (b_visible b = true ∧ b_typeIdentifier b = t).
Proof.
  destruct sets as [vs ws]. unfold add_binding. simpl.
  destruct (b_visible b); [rewrite elem_of_Set_add|]; naive_solver.
Qed.

Lemma add_bindings_valid bs sets t :
  t ∈ (foldl add_binding sets bs).1
  ↔ t ∈ sets.1 ∨ ∃ b, b ∈ bs ∧ b_valid b = true ∧ b_typeIdentifier b = t.
Proof.
  revert sets. induction bs as [|b l IH]; intros sets; simpl.
  - split; [by left|]. intros [?|(b & Hb & _)]; [done|].
    by apply elem_of_nil in Hb.
  - rewrite IH, add_binding_valid. setoid_rewrite elem_of_cons. naive_solver.
Qed.

Lemma add_bindings_visible bs sets t :
  t ∈ (foldl add_binding sets bs).2
  ↔ t ∈ sets.2 ∨ ∃ b, b ∈ bs ∧ b_visible b = true ∧ b_typeIdentifier b = t.
Proof.
  revert sets. induction bs as [|b l IH]; intros sets; simpl.
  - split; [by left|]. intros [?|(b & Hb & _)]; [done|].
    by apply elem_of_nil in Hb.
  - rewrite IH, add_binding_visible. setoid_rewrite elem_of_cons. naive_solver.
Qed.

Lemma propagate_valid bm groups sets t :
  t ∈ (propagate bm groups sets).1
  ↔ t ∈ sets.1
    ∨ ∃ g b, g ∈ groups ∧ b ∈ default [] (bm !! g)
             ∧ b_valid b = true ∧ b_typeIdentifier b = t.
Proof.
  unfold propagate. revert sets.
  induction groups as [|g l IH]; intros sets; simpl.
  - split; [by left|]. intros [?|(g & b & Hg & _)]; [done|].
    by apply elem_of_nil in Hg.
  - rewrite IH, add_bindings_valid. setoid_rewrite elem_of_cons. naive_solver.
Qed.

Lemma propagate_visible bm groups sets t :
  t ∈ (propagate bm groups sets).2
  ↔ t ∈ sets.2
    ∨ ∃ g b, g ∈ groups ∧ b ∈ default [] (bm !! g)
             ∧ b_visible b = true ∧ b_typeIdentifier b = t.
Proof.
  unfold propagate. revert sets.
  induction groups as [|g l IH]; intros sets; simpl.
  - split; [by left|]. intros [?|(g & b & Hg & _)]; [done|].
    by apply elem_of_nil in Hg.
  - rewrite IH, add_bindings_visible. setoid_rewrite elem_of_cons. naive_solver.
Qed.

Lemma foldl_payload_origin {St A R} (pl : St → list R) (f : St → A → St) :
  (∀ st x, pl (f st x) = pl st ∨ ∃ a, pl (f st x) = (pl st ++ [a])%list) →
  ∀ l st a, a ∈ pl (foldl f st l) →
    a ∈ pl st ∨ ∃ x st', x ∈ l ∧ pl (f st' x) = (pl st' ++ [a])%list.
Proof.
  intros Hf. induction l as [|x l IH]; intros st a Ha; cbn [foldl] in Ha.
  - by left.
  - apply IH in Ha as [Ha|(y & st' & Hy & Hst')].
    + destruct (Hf st x) as [Heq|[b Heq]]; rewrite Heq in Ha.
      * by left.
      * apply elem_of_app in Ha as [Ha| ->%list_elem_of_singleton]; [by left|].
        right. exists x, st. split; [apply list_elem_of_here | done].
    + right. exists y, st'. split; [by apply list_elem_of_further | done].
Qed.

Lemma default_nonempty_list l : default [] (nonempty_list l) = l.
Proof. by destruct l. Qed.

Lemma attribute_row_payload config gm tm bm st r :
  acc_payload (attribute_row config gm tm bm st r) = acc_payload st
  ∨ ∃ a, acc_payload (attribute_row config gm tm bm st r)
         = (acc_payload st ++ [a])%list.
Proof. unfold attribute_row. row_cases; simpl; eauto. Qed.

Lemma attribute_row_emits config gm tm bm st r a :
  acc_payload (attribute_row config gm tm bm st r) = (acc_payload st ++ [a])%list →
  let sets :=
    propagate bm (a_groups a)
      (Set_from (parseCsvList (prop (data r) "valid_types_csv")),
       Set_from (parseCsvList (prop (data r) "visible_types_csv"))) in
  a_identifier a = normalizeIdentifier (prop (data r) "identifier")
  ∧ a_groups a = parseCsvList (prop (data r) "groups_csv")
  ∧ valid_of a = sets.1
  ∧ visible_of a = sets.2.
Proof.
  unfold attribute_row. row_cases; simpl;
    try (intros Heq; by apply not_snoc in Heq).
  all: intros Heq; apply app_inv_head in Heq; injection Heq as <-.
  all: unfold valid_of, visible_of; simpl; rewrite !default_nonempty_list.
  all: match goal with Hp : propagate _ _ _ = _ |- _ => by rewrite Hp end.
Qed.


End Bindings.

(** ** Normalized identifiers *)

Lemma lower_char_idem c : Str.lower_char (Str.lower_char c) = Str.lower_char c.
Proof. destruct c as [[] [] [] [] [] [] [] []]; reflexivity. Qed.

Lemma is_space_lower_char c : Str.is_space (Str.lower_char c) = Str.is_space c.
Proof. destruct c as [[] [] [] [] [] [] [] []]; reflexivity. Qed.

Lemma toLowerCase_idem s : Str.toLowerCase (Str.toLowerCase s) = Str.toLowerCase s.
Proof.
  unfold Str.toLowerCase. induction s as [|c r IH]; simpl; [done|].
  by rewrite lower_char_idem, IH.
Qed.

Lemma trimStart_toLowerCase s :
  Str.trimStart (Str.toLowerCase s) = Str.toLowerCase (Str.trimStart s).
Proof.
  unfold Str.toLowerCase. induction s as [|c r IH]; simpl; [done|].
  rewrite is_space_lower_char. by destruct (Str.is_space c).
Qed.

Lemma trimEnd_toLowerCase s :
  Str.trimEnd (Str.toLowerCase s) = Str.toLowerCase (Str.trimEnd s).
Proof.
  unfold Str.toLowerCase. induction s as [|c r IH]; simpl; [done|].
  rewrite IH, is_space_lower_char.
  destruct (Str.trimEnd r); simpl; [|done]. by destruct (Str.is_space c).
Qed.

(** A string with no white space in front. *)
Definition no_leading_space (s : string) : Prop :=
  match s with
  | EmptyString => True
  | String c _ => Str.is_space c = false
  end.

Lemma trimStart_no_leading_space s : no_leading_space (Str.trimStart s).
Proof.
  induction s as [|c r IH]; simpl; [done|].
  destruct (Str.is_space c) eqn:Hc; [done|]. simpl. done.
Qed.

Lemma trimStart_fixed s : no_leading_space s → Str.trimStart s = s.
Proof. destruct s as [|c r]; simpl; [done|]. by intros ->. Qed.

Lemma trimEnd_no_leading_space s :
  no_leading_space s → no_leading_space (Str.trimEnd s).
Proof.
  destruct s as [|c r]; simpl; [done|]. intros Hc.
  destruct (Str.trimEnd r); simpl; [by rewrite Hc | done].
Qed.

Lemma trimEnd_idem s : Str.trimEnd (Str.trimEnd s) = Str.trimEnd s.
Proof.
  induction s as [|c r IH]; simpl; [done|].
  destruct (Str.trimEnd r) as [|c' r'] eqn:Hr.
  - destruct (Str.is_space c) eqn:Hc; simpl; [done|]. by rewrite Hc.
  - simpl in *. by rewrite IH.
Qed.

Lemma trim_idem s : Str.trim (Str.trim s) = Str.trim s.
Proof.
  unfold Str.trim.
  rewrite (trimStart_fixed (Str.trimEnd (Str.trimStart s)))
    by apply trimEnd_no_leading_space, trimStart_no_leading_space.
  apply trimEnd_idem.
Qed.

Section Normalized.
Context `{Host}.

Lemma normalizeIdentifier_text s :
  normalizeIdentifier (JStr s) = Str.toLowerCase (Str.trim s).
Proof. reflexivity. Qed.

(** Normalizing a normalized identifier changes nothing. *)
Lemma normalizeIdentifier_idem s :
  normalizeIdentifier (JStr (normalizeIdentifier (JStr s)))
  = normalizeIdentifier (JStr s).
Proof.
  rewrite !normalizeIdentifier_text. unfold Str.trim at 1.
  rewrite trimStart_toLowerCase, trimEnd_toLowerCase, toLowerCase_idem.
  fold (Str.trim (Str.trim s)). by rewrite trim_idem.
Qed.

(** A key that is not in normalized form is no normalized identifier. *)
Lemma not_normalized k x :
  normalizeIdentifier (JStr k) ≠ k → normalizeIdentifier (JStr x) ≠ k.
Proof. intros Hk Hx. apply Hk. by rewrite <- Hx, normalizeIdentifier_idem. Qed.

Lemma obj_lookup_set k v o : obj_lookup k (obj_set k v o) = Some v.
Proof.
  induction o as [|[k' v'] o IH]; simpl.
  - by rewrite decide_True.
  - destruct (decide (k = k')) as [->|Hne]; simpl.
    + by rewrite decide_True.
    + by rewrite decide_False.
Qed.

Lemma obj_lookup_set_ne k k' v o :
  k' ≠ k → obj_lookup k' (obj_set k v o) = obj_lookup k' o.
Proof.
  intros Hne. induction o as [|[k'' v''] o IH]; simpl.
  - by rewrite decide_False.
  - destruct (decide (k = k'')) as [->|Hne']; simpl.
    + by rewrite !decide_False.
    + by rewrite IH.
Qed.

End Normalized.

(** ** Item sheets: the flat view *)

Section Items.
Context `{Host}.

(** The state with [older] payload entries in front. *)
Definition prepend (older : list ItemRequest) (st : ItemAcc) : ItemAcc :=
  mkItemAcc (it_issues st) (it_seen st) (older ++ it_payload st)%list.

Lemma warn_unknown_type_prepend P tm sh rn t st :
  warn_unknown_type tm sh rn t (prepend P st)
  = prepend P (warn_unknown_type tm sh rn t st).
Proof. unfold warn_unknown_type. by case_match. Qed.

Lemma warn_unknown_parent_prepend P declared sh rn p st :
  warn_unknown_parent declared sh rn p (prepend P st)
  = prepend P (warn_unknown_parent declared sh rn p st).
Proof. unfold warn_unknown_parent. simpl. by case_match. Qed.

Lemma item_emit_prepend P sh rn config am ah data id name t p vs ch st :
  item_emit sh rn config am ah data id name t p vs ch (prepend P st)
  = prepend P (item_emit sh rn config am ah data id name t p vs ch st).
Proof.
  unfold item_emit. simpl. destruct (item_values _ _ _ _ _ _ _ _) as [iss values].
  unfold prepend. simpl. by rewrite app_assoc.
Qed.

Lemma item_checked_prepend P sh rn config am tm declared ah data id name t p st :
  item_checked sh rn config am tm declared ah data id name t p (prepend P st)
  = prepend P (item_checked sh rn config am tm declared ah data id name t p st).
Proof.
  unfold item_checked.
  rewrite warn_unknown_type_prepend, warn_unknown_parent_prepend.
  row_cases; try reflexivity; apply item_emit_prepend.
Qed.

Lemma item_row_prepend P sh config am tm declared hdrs ah st r :
  item_row sh config am tm declared hdrs ah (prepend P st) r
  = prepend P (item_row sh config am tm declared hdrs ah st r).
Proof.
  unfold item_row. simpl. row_cases; try reflexivity.
  apply (item_checked_prepend P _ _ _ _ _ _ _ _ _ _ _ _ (item_reserve st _)).
Qed.

Lemma item_rows_prepend P sh config am tm declared hdrs ah rows st :
  foldl (item_row sh config am tm declared hdrs ah) (prepend P st) rows
  = prepend P (foldl (item_row sh config am tm declared hdrs ah) st rows).
Proof.
  revert st. induction rows as [|r l IH]; intros st; [done|].
  cbn [foldl]. by rewrite item_row_prepend, IH.
Qed.

Lemma sheet_work_run wb sh config am tm declared st :
  foldl (work_step config am tm declared) st (sheet_work wb sh)
  = prepend (it_payload st)
      (parseItemSheet wb sh config am tm (it_seen st) declared (it_issues st)).
Proof.
  unfold sheet_work, parseItemSheet. case_match.
  - destruct st. unfold prepend. simpl. by rewrite app_nil_r.
  - cbn [foldl work_step]. rewrite <- item_rows_prepend.
    unfold prepend at 1. simpl. rewrite app_nil_r.
    generalize (rows (parseSheetWithHeaders wb sh ITEM_BASE_HEADERS)) as l.
    generalize (mkItemAcc
                  (missingHeaderIssues (it_issues st) sh
                     (missingHeaders (parseSheetWithHeaders wb sh ITEM_BASE_HEADERS)))
                  (it_seen st) (it_payload st)) as st0.
    intros st0 l. revert st0.
    induction l as [|r l IH]; intros st0; [done|]. cbn [fmap list_fmap foldl].
    apply IH.
Qed.

Lemma parseItemSheets_flat wb config am tm declared st sheetNames :
  parseItemSheets wb config am tm declared st sheetNames
  = foldl (work_step config am tm declared) st
      (List.concat (sheet_work wb <$> sheetNames)).
Proof.
  unfold parseItemSheets. revert st.
  induction sheetNames as [|sh l IH]; intros st; [done|].
  cbn [fmap list_fmap List.concat foldl]. rewrite foldl_app, sheet_work_run.
  apply IH.
Qed.

(** The item stage of the run is the fold of [item_step] over [item_work]. *)
Lemma st_items_flat wb : st_items (stages wb) = item_run wb (item_work wb).
Proof.
  unfold item_run, item_work. rewrite <- parseItemSheets_flat. reflexivity.
Qed.

Lemma item_run_snoc wb work w :
  item_run wb (work ++ [w]) = item_step wb (item_run wb work) w.
Proof. unfold item_run, item_step. by rewrite foldl_app. Qed.

Lemma item_run_app wb work more :
  item_run wb (work ++ more)
  = foldl (item_step wb) (item_run wb work) more.
Proof. unfold item_run, item_step. by rewrite foldl_app. Qed.

(** *** What a row does to the seen set and to the payload *)

Lemma warn_unknown_type_seen tm sh rn t st :
  it_seen (warn_unknown_type tm sh rn t st) = it_seen st
  ∧ it_payload (warn_unknown_type tm sh rn t st) = it_payload st.
Proof. unfold warn_unknown_type. by case_match. Qed.

Lemma warn_unknown_parent_seen declared sh rn p st :
  it_seen (warn_unknown_parent declared sh rn p st) = it_seen st
  ∧ it_payload (warn_unknown_parent declared sh rn p st) = it_payload st.
Proof. unfold warn_unknown_parent. by case_match. Qed.

Lemma item_emit_seen sh rn config am ah data id name t p vs ch st :
  it_seen (item_emit sh rn config am ah data id name t p vs ch st) = it_seen st
  ∧ ∃ req, it_payload (item_emit sh rn config am ah data id name t p vs ch st)
           = (it_payload st ++ [req])%list
           ∧ i_identifier req = id.
Proof.
  unfold item_emit. destruct (item_values _ _ _ _ _ _ _ _) as [iss values].
  simpl. eauto.
Qed.

Lemma item_checked_seen sh rn config am tm declared ah data id name t p st :
  it_seen (item_checked sh rn config am tm declared ah data id name t p st)
  = it_seen st.
Proof.
  unfold item_checked. row_cases; simpl;
    rewrite ?(proj1 (item_emit_seen _ _ _ _ _ _ _ _ _ _ _ _ _)),
            ?(proj1 (warn_unknown_parent_seen _ _ _ _ _)),
            ?(proj1 (warn_unknown_type_seen _ _ _ _ _)); done.
Qed.

Lemma item_checked_payload sh rn config am tm declared ah data id name t p st :
  it_payload (item_checked sh rn config am tm declared ah data id name t p st)
  = it_payload st
  ∨ ∃ req,
      it_payload (item_checked sh rn config am tm declared ah data id name t p st)
      = (it_payload st ++ [req])%list
      ∧ i_identifier req = id.
Proof.
  unfold item_checked. row_cases; simpl;
    rewrite ?(proj2 (warn_unknown_parent_seen _ _ _ _ _)),
            ?(proj2 (warn_unknown_type_seen _ _ _ _ _)); try by left.
  all: right.
  all: match goal with
       | |- context [item_emit ?a ?b ?c ?d ?e ?f ?g ?h ?i ?j ?k ?l ?m] =>
           destruct (item_emit_seen a b c d e f g h i j k l m)
             as (_ & req & Hreq & Hid)
       end.
  all: exists req; rewrite Hreq.
  all: by rewrite (proj2 (warn_unknown_parent_seen _ _ _ _ _)),
                  (proj2 (warn_unknown_type_seen _ _ _ _ _)).
Qed.

Lemma has_required_fields_spec hdrs r :
  has_required_fields hdrs r = true
  ↔ rowHasAnyValue (data r) hdrs = true
    ∧ falsy (item_identifier r) = false
    ∧ falsy (toText (prop (data r) "name_en")) = false
    ∧ falsy (normalizeIdentifier (prop (data r) "type_identifier")) = false.
Proof.
  unfold has_required_fields.
  rewrite !andb_true_iff, !negb_true_iff. tauto.
Qed.

(** A row that reaches the duplicate check with a reserved identifier gets
    the duplicate error and nothing else happens. *)
Lemma item_row_duplicate sh config am tm declared hdrs ah st r :
  has_required_fields hdrs r = true →
  item_identifier r ∈ it_seen st →
  item_row sh config am tm declared hdrs ah st r
  = mkItemAcc (it_issues st ++ [duplicate_issue sh r])%list
      (it_seen st) (it_payload st).
Proof.
  intros (Hany & Hid & Hname & Htype)%has_required_fields_spec Hseen.
  unfold item_row, item_identifier in *. rewrite Hany, Hid, Hname, Htype.
  simpl. by rewrite (bool_decide_eq_true_2 _ Hseen).
Qed.

(** A row that reaches the duplicate check with a fresh identifier reserves
    it and runs the rest of the callback. *)
Lemma item_row_fresh sh config am tm declared hdrs ah st r :
  has_required_fields hdrs r = true →
  item_identifier r ∉ it_seen st →
  item_row sh config am tm declared hdrs ah st r
  = item_checked sh (Some (rowNumber r)) config am tm declared ah (data r)
      (item_identifier r) (toText (prop (data r) "name_en"))
      (normalizeIdentifier (prop (data r) "type_identifier"))
      (normalizeIdentifier (prop (data r) "parent_identifier"))
      (item_reserve st (item_identifier r)).
Proof.
  intros (Hany & Hid & Hname & Htype)%has_required_fields_spec Hseen.
  unfold item_row, item_identifier in *. rewrite Hany, Hid, Hname, Htype.
  simpl. by rewrite (bool_decide_eq_false_2 _ Hseen).
Qed.

(** A row that does not reach the duplicate check leaves the seen set and
    the payload alone. *)
Lemma item_row_unchecked sh config am tm declared hdrs ah st r :
  has_required_fields hdrs r = false →
  it_seen (item_row sh config am tm declared hdrs ah st r) = it_seen st
  ∧ it_payload (item_row sh config am tm declared hdrs ah st r) = it_payload st.
Proof.
  unfold has_required_fields, item_row, item_identifier.
  destruct (rowHasAnyValue (data r) hdrs); simpl; [|done].
  destruct (falsy (normalizeIdentifier (prop (data r) "identifier")));
    simpl; [done|].
  destruct (falsy (toText (prop (data r) "name_en"))); simpl; [done|].
  destruct (falsy (normalizeIdentifier (prop (data r) "type_identifier")));
    simpl; [done|discriminate].
Qed.

Lemma item_row_seen sh config am tm declared hdrs ah st r x :
  x ∈ it_seen (item_row sh config am tm declared hdrs ah st r)
  ↔ x ∈ it_seen st
    ∨ (has_required_fields hdrs r = true ∧ x = item_identifier r).
Proof.
  destruct (has_required_fields hdrs r) eqn:Hreq.
  - destruct (decide (item_identifier r ∈ it_seen st)) as [Hin|Hnin].
    + rewrite item_row_duplicate by done. simpl.
      split; [by left|]. by intros [?|[_ ->]].
    + rewrite item_row_fresh, item_checked_seen by done. simpl.
      rewrite elem_of_union, elem_of_singleton. naive_solver.
  - rewrite (proj1 (item_row_unchecked _ _ _ _ _ _ _ _ _ Hreq)).
    split; [by left|]. by intros [?|[? _]].
Qed.

Lemma item_row_payload sh config am tm declared hdrs ah st r :
  it_payload (item_row sh config am tm declared hdrs ah st r) = it_payload st
  ∨ ∃ req,
      it_payload (item_row sh config am tm declared hdrs ah st r)
      = (it_payload st ++ [req])%list
      ∧ i_identifier req = item_identifier r
      ∧ (item_identifier r ∉ it_seen st)
      ∧ has_required_fields hdrs r = true.
Proof.
  destruct (has_required_fields hdrs r) eqn:Hreq.
  - destruct (decide (item_identifier r ∈ it_seen st)) as [Hin|Hnin].
    + rewrite item_row_duplicate by done. by left.
    + rewrite item_row_fresh by done.
      destruct (item_checked_payload sh (Some (rowNumber r)) config am tm
                  declared ah (data r) (item_identifier r)
                  (toText (prop (data r) "name_en"))
                  (normalizeIdentifier (prop (data r) "type_identifier"))
                  (normalizeIdentifier (prop (data r) "parent_identifier"))
                  (item_reserve st (item_identifier r)))
        as [Hsame|(req & Hpush & Hid)].
      * by left.
      * right. by exists req.
  - left. apply (item_row_unchecked _ _ _ _ _ _ _ _ _ Hreq).
Qed.

(** *** Runs of steps *)

Section Run.
Variables (config : Config) (am : gmap string AttributeModel)
          (tm : gmap string TypeRequest) (declared : gset string).

#[local] Abbreviation step := (work_step config am tm declared).

Lemma work_step_grows st w : item_grows st (step st w).
Proof.
  destruct w as [sh missing|sh hdrs ah r]; simpl.
  - split; simpl; [apply missingHeaderIssues_prefix | reflexivity].
  - apply item_row_grows.
Qed.

Lemma work_steps_grow work st : item_grows st (foldl step st work).
Proof. apply (foldl_rel item_grows). apply work_step_grows. Qed.

Lemma work_step_payload st w :
  it_payload (step st w) = it_payload st
  ∨ ∃ req, it_payload (step st w) = (it_payload st ++ [req])%list
           ∧ (i_identifier req ∉ it_seen st)
           ∧ i_identifier req ∈ it_seen (step st w).
Proof.
  destruct w as [sh missing|sh hdrs ah r]; simpl; [by left|].
  destruct (item_row_payload sh config am tm declared hdrs ah st r)
    as [Hsame|(req & Hpush & Hid & Hfresh & Hreq)]; [by left|].
  right. exists req. rewrite Hid. split; [done|]. split; [done|].
  apply item_row_seen. by right.
Qed.

Lemma work_steps_payload_prefix work st :
  it_payload st `prefix_of` it_payload (foldl step st work).
Proof.
  revert st. induction work as [|w l IH]; intros st; [done|]. cbn [foldl].
  etrans; [|apply IH].
  destruct (work_step_payload st w) as [->|(req & -> & _)];
    [done | by apply prefix_app_r].
Qed.

(** Every record of the payload was pushed under an identifier that was not
    yet seen, at a state that had seen all that the start state had. *)
Lemma work_steps_payload_origin work st req :
  req ∈ it_payload (foldl step st work) →
  req ∈ it_payload st
  ∨ ∃ st', it_seen st ⊆ it_seen st' ∧ i_identifier req ∉ it_seen st'.
Proof.
  revert st. induction work as [|w l IH]; intros st Hin; [by left|].
  cbn [foldl] in Hin. apply IH in Hin as [Hin|(st' & Hsub & Hfresh)].
  - destruct (work_step_payload st w) as [Heq|(req' & Heq & Hfresh & _)];
      rewrite Heq in Hin; [by left|].
    apply elem_of_app in Hin as [Hin| ->%list_elem_of_singleton]; [by left|].
    right. by exists st.
  - right. exists st'. split; [|done].
    etrans; [apply (work_step_grows st w)|done].
Qed.

(** The identifiers of the payload are distinct and all seen. *)
Definition distinct_and_seen (st : ItemAcc) : Prop :=
  NoDup (i_identifier <$> it_payload st)
  ∧ ∀ req, req ∈ it_payload st → i_identifier req ∈ it_seen st.

Lemma work_step_distinct st w :
  distinct_and_seen st → distinct_and_seen (step st w).
Proof.
  intros [Hnodup Hseen].
  destruct (work_step_payload st w) as [Heq|(req & Heq & Hfresh & Hin)];
    unfold distinct_and_seen; rewrite Heq.
  - split; [done|]. intros req' Hreq'.
    apply (proj2 (work_step_grows st w)). by apply Hseen.
  - split.
    + rewrite fmap_app. apply NoDup_app. split; [done|]. split.
      * intros x (req' & -> & Hreq')%list_elem_of_fmap Hx.
        apply list_elem_of_singleton in Hx. apply Hfresh. rewrite <- Hx.
        by apply Hseen.
      * apply NoDup_singleton.
    + intros req' [Hold| ->%list_elem_of_singleton]%elem_of_app; [|done].
      apply (proj2 (work_step_grows st w)). by apply Hseen.
Qed.

Lemma work_steps_distinct work st :
  distinct_and_seen st → distinct_and_seen (foldl step st work).
Proof.
  revert st. induction work as [|w l IH]; intros st Hst; [done|].
  cbn [foldl]. by apply IH, work_step_distinct.
Qed.

End Run.

Lemma item_run_distinct wb work : distinct_and_seen (item_run wb work).
Proof.
  unfold item_run. apply work_steps_distinct. split; simpl.
  - apply NoDup_nil_2.
  - intros req Hin. by apply elem_of_nil in Hin.
Qed.

Lemma item_run_final wb work more :
  item_work wb = (work ++ more)%list →
  st_items (stages wb) = foldl (item_step wb) (item_run wb work) more.
Proof. intros Hwork. by rewrite st_items_flat, Hwork, item_run_app. Qed.

(** *** Two rows with one identifier *)

Lemma item_step_row wb st sh hdrs ah r :
  item_step wb st (SheetRow sh hdrs ah r)
  = item_row sh (st_config (stages wb))
      (acc_byIdentifier (st_attributes (stages wb)))
      (acc_byIdentifier (st_types (stages wb))) (st_declared (stages wb))
      hdrs ah st r.
Proof. reflexivity. Qed.

Lemma item_steps_grow wb work st :
  item_grows st (foldl (item_step wb) st work).
Proof. apply work_steps_grow. Qed.

(** Once a row with the required fields has run, its identifier is seen for
    the rest of the run. *)
Lemma identifier_stays_reserved wb w1 sh hdrs ah r w2 :
  has_required_fields hdrs r = true →
  item_identifier r ∈ it_seen (item_run wb (w1 ++ SheetRow sh hdrs ah r :: w2)).
Proof.
  intros Hreq.
  rewrite (cons_middle _ w1 w2), app_assoc, item_run_app, item_run_snoc.
  apply (proj2 (item_steps_grow wb w2 _)).
  rewrite item_step_row. apply item_row_seen. by right.
Qed.

Lemma final_issues wb work w more :
  item_work wb = (work ++ w :: more)%list →
  it_issues (item_step wb (item_run wb work) w) `prefix_of` all_issues wb.
Proof.
  intros Hwork. unfold all_issues.
  rewrite (item_run_final wb (work ++ [w]) more), item_run_snoc
    by (by rewrite <- app_assoc).
  apply (proj1 (item_steps_grow wb more _)).
Qed.

Lemma final_payload wb work more :
  item_work wb = (work ++ more)%list →
  it_payload (item_run wb work)
  `prefix_of` items (payload (parseAndValidateImportWorkbook wb)).
Proof.
  intros Hwork.
  rewrite (proj2 (proj2 (proj2 (payload_of_stages wb)))),
    (item_run_final wb work more Hwork).
  apply work_steps_payload_prefix.
Qed.

(** The second of two rows with the required fields and one identifier gets
    the duplicate error, which is one of the final errors. *)
Lemma item_identifiers_unique_core (wb : Workbook)
    (w1 : list ItemWork) (sh1 : string) (h1 a1 : list string) (r1 : Row)
    (w2 : list ItemWork) (sh2 : string) (h2 a2 : list string) (r2 : Row)
    (w3 : list ItemWork) :
  item_work wb
  = (w1 ++ SheetRow sh1 h1 a1 r1 :: w2 ++ SheetRow sh2 h2 a2 r2 :: w3)%list →
  has_required_fields h1 r1 = true →
  has_required_fields h2 r2 = true →
  item_identifier r2 = item_identifier r1 →
  let before := item_run wb (w1 ++ SheetRow sh1 h1 a1 r1 :: w2) in
  item_step wb before (SheetRow sh2 h2 a2 r2)
  = mkItemAcc (it_issues before ++ [duplicate_issue sh2 r2])%list
      (it_seen before) (it_payload before)
  ∧ duplicate_issue sh2 r2 ∈ errors (parseAndValidateImportWorkbook wb).
Proof.
  intros Hwork Hreq1 Hreq2 Hsame before.
  assert (item_step wb before (SheetRow sh2 h2 a2 r2)
          = mkItemAcc (it_issues before ++ [duplicate_issue sh2 r2])%list
              (it_seen before) (it_payload before)) as Hdup.
  { rewrite item_step_row. apply item_row_duplicate; [done|].
    rewrite Hsame. by apply identifier_stays_reserved. }
  split; [done|].
  apply error_is_reported; [|done].
  eapply elem_of_prefix;
    [|apply (final_issues wb (w1 ++ SheetRow sh1 h1 a1 r1 :: w2)
               (SheetRow sh2 h2 a2 r2) w3)].
  - fold before. rewrite Hdup. simpl. apply elem_of_app. right.
    apply list_elem_of_here.
  - by rewrite Hwork, <- app_assoc.
Qed.



(** *** The values of a row *)

Section Values.
Variables (sh : string) (rn : option nat) (config : Config)
          (am : gmap string AttributeModel).

Lemma json_value_step_other iss values entry x :
  x ≠ json_identifier entry →
  obj_lookup x (json_value_step sh rn config am (iss, values) entry).2
  = obj_lookup x values.
Proof.
  destruct entry as [k raw]. unfold json_value_step, json_identifier. simpl.
  intros Hx. row_cases; simpl; try done. by rewrite obj_lookup_set_ne.
Qed.

Lemma json_value_step_value iss values k raw attribute v :
  am !! normalizeIdentifier (JStr k) = Some attribute →
  coerceAttributeValue raw attribute (cfg_defaultLanguage config) = CValue v →
  json_value_step sh rn config am (iss, values) (k, raw)
  = (iss, obj_set (normalizeIdentifier (JStr k)) v values).
Proof. intros Ha Hv. unfold json_value_step. by rewrite Ha, Hv. Qed.

Lemma coerce_blank raw attribute language :
  toText raw = "" → coerceAttributeValue raw attribute language = CSkip.
Proof.
  intros Hblank. unfold coerceAttributeValue.
  by rewrite (bool_decide_eq_true_2 _ Hblank).
Qed.

Lemma json_value_step_blank iss values k raw attribute :
  am !! normalizeIdentifier (JStr k) = Some attribute →
  toText raw = "" →
  json_value_step sh rn config am (iss, values) (k, raw) = (iss, values).
Proof.
  intros Ha Hblank. unfold json_value_step.
  by rewrite Ha, (coerce_blank _ _ _ Hblank).
Qed.

Lemma json_values_other entries iss values x :
  (∀ e, e ∈ entries → json_identifier e ≠ x) →
  obj_lookup x (foldl (json_value_step sh rn config am) (iss, values) entries).2
  = obj_lookup x values.
Proof.
  revert iss values. induction entries as [|e l IH]; intros iss values Hx; [done|].
  cbn [foldl].
  destruct (json_value_step sh rn config am (iss, values) e) as [iss' values']
    eqn:Hstep.
  rewrite IH by (intros e' He'; apply Hx; by right).
  pose proof (json_value_step_other iss values e x) as Hother.
  rewrite Hstep in Hother. apply Hother. intros Heq.
  by apply (Hx e (list_elem_of_here _ _)).
Qed.

Lemma json_values_last before k raw after iss values attribute v :
  (∀ e, e ∈ after → json_identifier e ≠ normalizeIdentifier (JStr k)) →
  am !! normalizeIdentifier (JStr k) = Some attribute →
  coerceAttributeValue raw attribute (cfg_defaultLanguage config) = CValue v →
  obj_lookup (normalizeIdentifier (JStr k))
    (foldl (json_value_step sh rn config am) (iss, values)
       (before ++ (k, raw) :: after)).2
  = Some v.
Proof.
  intros Hafter Ha Hv. rewrite foldl_app. cbn [foldl].
  destruct (foldl (json_value_step sh rn config am) (iss, values) before)
    as [iss' values'].
  rewrite (json_value_step_value _ _ _ _ _ _ Ha Hv).
  rewrite json_values_other by done. apply obj_lookup_set.
Qed.

Variable data : obj.

Lemma attr_column_step_blank st header :
  isBlank (prop data header) = true →
  attr_column_step sh rn config am data st header = st.
Proof.
  intros Hblank. destruct st as [iss values]. unfold attr_column_step.
  rewrite Hblank. by case_match.
Qed.

Lemma attr_column_step_other iss values header x :
  x ≠ column_identifier header →
  obj_lookup x (attr_column_step sh rn config am data (iss, values) header).2
  = obj_lookup x values.
Proof.
  unfold attr_column_step, column_identifier. intros Hx.
  row_cases; simpl; try done. by rewrite obj_lookup_set_ne.
Qed.

Lemma attr_columns_other attrHeaders iss values x :
  (∀ header, header ∈ attrHeaders → column_identifier header = x →
             isBlank (prop data header) = true) →
  obj_lookup x
    (foldl (attr_column_step sh rn config am data) (iss, values) attrHeaders).2
  = obj_lookup x values.
Proof.
  revert iss values.
  induction attrHeaders as [|header l IH]; intros iss values Hx; [done|].
  cbn [foldl].
  destruct (decide (column_identifier header = x)) as [Heq|Hne].
  - rewrite attr_column_step_blank
      by (apply Hx; [apply list_elem_of_here | done]).
    apply IH. intros h Hh. apply Hx. by right.
  - destruct (attr_column_step sh rn config am data (iss, values) header)
      as [iss' values'] eqn:Hstep.
    rewrite IH by (intros h Hh; apply Hx; by right).
    pose proof (attr_column_step_other iss values header x) as Hother.
    rewrite Hstep in Hother. by apply Hother.
Qed.

(** A key that is not in normalized form keeps its raw value. *)
Lemma item_values_raw attrHeaders parsedValues iss k :
  normalizeIdentifier (JStr k) ≠ k →
  obj_lookup k
    (item_values sh rn config am attrHeaders data parsedValues iss).2
  = obj_lookup k parsedValues.
Proof.
  intros Hk. unfold item_values.
  destruct (foldl (json_value_step sh rn config am) (iss, parsedValues)
              parsedValues) as [iss' values'] eqn:Hjson.
  rewrite attr_columns_other.
  - pose proof (json_values_other parsedValues iss parsedValues k) as Hother.
    rewrite Hjson in Hother. apply Hother.
    intros e _. by apply not_normalized.
  - intros header _ Heq. exfalso. revert Heq. by apply not_normalized.
Qed.

(** The last values_json entry of an identifier decides its value, unless
    an attr: column of that identifier has a cell that is not blank. *)
Lemma item_values_coerced attrHeaders before k raw after iss attribute v :
  (∀ e, e ∈ after → json_identifier e ≠ normalizeIdentifier (JStr k)) →
  (∀ header, header ∈ attrHeaders →
             column_identifier header = normalizeIdentifier (JStr k) →
             isBlank (prop data header) = true) →
  am !! normalizeIdentifier (JStr k) = Some attribute →
  coerceAttributeValue raw attribute (cfg_defaultLanguage config) = CValue v →
  obj_lookup (normalizeIdentifier (JStr k))
    (item_values sh rn config am attrHeaders data
       (before ++ (k, raw) :: after) iss).2
  = Some v.
Proof.
  intros Hafter Hcolumns Ha Hv. unfold item_values.
  pose proof (json_values_last before k raw after iss
                (before ++ (k, raw) :: after)%list attribute v Hafter Ha Hv)
    as Hjson.
  destruct (foldl (json_value_step sh rn config am) _ _) as [iss' values'].
  by rewrite attr_columns_other.
Qed.

(** An identifier that no candidate with a value stands for and that is no
    key of the values_json object is no key of the values. *)
Lemma item_values_absent attrHeaders parsedValues iss x :
  obj_lookup x parsedValues = None →
  (∀ e, e ∈ parsedValues → json_identifier e ≠ x) →
  (∀ header, header ∈ attrHeaders → column_identifier header = x →
             isBlank (prop data header) = true) →
  obj_lookup x
    (item_values sh rn config am attrHeaders data parsedValues iss).2
  = None.
Proof.
  intros Hraw Hjson Hcolumns. unfold item_values.
  pose proof (json_values_other parsedValues iss parsedValues x Hjson) as Hother.
  destruct (foldl (json_value_step sh rn config am) _ _) as [iss' values'].
  rewrite attr_columns_other by done. simpl in Hother. congruence.
Qed.

End Values.

Lemma default_nonempty_obj (o : obj) : default [] (nonempty_obj o) = o.
Proof. by destruct o. Qed.

(** The request a row pushes carries the values of [item_values] on the
    parsed values_json object. *)
Lemma item_checked_emitted sh rn config am tm declared ah data id name t p st req :
  it_payload (item_checked sh rn config am tm declared ah data id name t p st)
  = (it_payload st ++ [req])%list →
  ∃ parsedValues iss,
    parseJsonObject (prop data "values_json") true = Ok parsedValues
    ∧ values_of req
      = (item_values sh rn config am ah data parsedValues iss).2.
Proof.
  unfold item_checked. row_cases; simpl;
    rewrite ?(proj2 (warn_unknown_parent_seen _ _ _ _ _)),
            ?(proj2 (warn_unknown_type_seen _ _ _ _ _));
    try (intros Heq; by apply not_snoc in Heq).
  all: unfold item_emit.
  all: match goal with
       | |- context [item_values ?a ?b ?c ?d ?e ?f ?g ?h] =>
           destruct (item_values a b c d e f g h) as [iss' values'] eqn:Hvalues;
           simpl;
           rewrite ?(proj2 (warn_unknown_parent_seen _ _ _ _ _)),
                   ?(proj2 (warn_unknown_type_seen _ _ _ _ _));
           intros Heq; apply app_inv_head in Heq; injection Heq as <-;
           eexists g, h; split; [done|];
           unfold values_of; simpl; rewrite default_nonempty_obj;
           by rewrite Hvalues
       end.
Qed.

Lemma item_row_emitted sh config am tm declared hdrs ah st r req :
  it_payload (item_row sh config am tm declared hdrs ah st r)
  = (it_payload st ++ [req])%list →
  ∃ parsedValues iss,
    parseJsonObject (prop (data r) "values_json") true = Ok parsedValues
    ∧ values_of req
      = (item_values sh (Some (rowNumber r)) config am ah (data r)
           parsedValues iss).2.
Proof.
  destruct (has_required_fields hdrs r) eqn:Hreq.
  - destruct (decide (item_identifier r ∈ it_seen st)) as [Hin|Hnin].
    + rewrite item_row_duplicate by done. simpl.
      intros Heq. by apply not_snoc in Heq.
    + rewrite item_row_fresh by done.
      apply (item_checked_emitted _ _ _ _ _ _ _ _ _ _ _ _
               (item_reserve st (item_identifier r))).
  - rewrite (proj2 (item_row_unchecked _ _ _ _ _ _ _ _ _ Hreq)).
    intros Heq. by apply not_snoc in Heq.
Qed.



End Items.

(** ** Row-level failures and value-level failures *)

Section Outcomes.
Context `{Host}.

Lemma one_error_0 sh r iss fld msg :
  one_error sh r iss (addIssue iss error sh (Some (rowNumber r)) fld msg).
Proof. exists [], (Build_Issue error sh (Some (rowNumber r)) fld msg). done. Qed.

Lemma one_error_1 sh r iss sh1 r1 f1 m1 fld msg :
  one_error sh r iss
    (addIssue (addIssue iss warning sh1 r1 f1 m1) error sh
       (Some (rowNumber r)) fld msg).
Proof.
  exists [Build_Issue warning sh1 r1 f1 m1],
         (Build_Issue error sh (Some (rowNumber r)) fld msg).
  unfold addIssue. rewrite <- app_assoc. split; [done|].
  split; [|done]. by repeat constructor.
Qed.

Lemma one_error_2 sh r iss sh1 r1 f1 m1 sh2 r2 f2 m2 fld msg :
  one_error sh r iss
    (addIssue (addIssue (addIssue iss warning sh1 r1 f1 m1) warning sh2 r2 f2 m2)
       error sh (Some (rowNumber r)) fld msg).
Proof.
  exists [Build_Issue warning sh1 r1 f1 m1; Build_Issue warning sh2 r2 f2 m2],
         (Build_Issue error sh (Some (rowNumber r)) fld msg).
  unfold addIssue. rewrite <- !app_assoc. split; [done|].
  split; [|done]. by repeat constructor.
Qed.

Lemma only_warnings_refl iss : only_warnings iss iss.
Proof. exists []. by rewrite app_nil_r. Qed.

Lemma only_warnings_add iss iss' sh r fld msg :
  only_warnings iss iss' →
  only_warnings iss (addIssue iss' warning sh r fld msg).
Proof.
  intros (ws & -> & Hws).
  exists (ws ++ [Build_Issue warning sh r fld msg])%list.
  unfold addIssue. rewrite <- app_assoc. split; [done|].
  apply Forall_app. split; [done|]. by repeat constructor.
Qed.

Lemma type_warnings_only tm rn l iss iss' :
  only_warnings iss iss' → only_warnings iss (type_warnings tm rn iss' l).
Proof.
  unfold type_warnings. revert iss'.
  induction l as [|t l IH]; intros iss' Hiss; cbn [foldl]; [done|].
  apply IH. case_match; [done|]. by apply only_warnings_add.
Qed.

Lemma report_drops {M R} (st : Acc M R) sh r fld msg :
  row_dropped sh r st (report st error sh (Some (rowNumber r)) fld msg).
Proof. split; [apply one_error_0 | done]. Qed.

Ltac drops := first [ apply report_drops
                    | split; [first [apply one_error_0 | apply one_error_1
                                    | apply one_error_2] | done] ].

Lemma group_row_outcome config st r :
  rowHasAnyValue (data r) GROUP_HEADERS = true →
  if group_defect (acc_byIdentifier st) (data r)
  then row_dropped SHEETS.GROUPS r st (group_row config st r)
  else row_emitted st (group_row config st r).
Proof.
  intros Hany. unfold group_defect, group_row. rewrite Hany. cbn [negb].
  destruct (falsy (normalizeIdentifier (prop (data r) "identifier")));
    cbn [orb]; [drops|].
  destruct (falsy (toText (prop (data r) "name_en"))); cbn [orb]; [drops|].
  destruct (bool_decide (is_Some _)); cbn [orb]; [drops|].
  destruct (optional _ (parseInteger _)); cbn [orb is_fail]; [|drops].
  destruct (optional _ (parseBoolean _)); cbn [orb is_fail]; [|drops].
  destruct (parseJsonObject _ _); cbn [orb is_fail]; [|drops].
  split; [apply only_warnings_refl | by eexists].
Qed.

Lemma type_row_outcome config st r :
  rowHasAnyValue (data r) TYPE_HEADERS = true →
  if type_defect (acc_byIdentifier st) (data r)
  then row_dropped SHEETS.TYPES r st (type_row config st r)
  else row_emitted st (type_row config st r).
Proof.
  intros Hany. unfold type_defect, type_row. rewrite Hany. cbn [negb].
  destruct (falsy (normalizeIdentifier (prop (data r) "identifier")));
    cbn [orb]; [drops|].
  destruct (falsy (toText (prop (data r) "name_en"))); cbn [orb]; [drops|].
  destruct (bool_decide (is_Some _)); cbn [orb]; [drops|].
  destruct (optional _ (parseBoolean _)); cbn [orb is_fail]; [|drops].
  split; [apply only_warnings_refl | by eexists].
Qed.

Lemma binding_row_outcome groupIdentifiers typeIdentifiers st r :
  rowHasAnyValue (data r) TYPE_GROUP_BINDING_HEADERS = true →
  let st' := binding_row groupIdentifiers typeIdentifiers st r in
  if binding_defect (data r)
  then one_error SHEETS.TYPE_GROUP_BINDINGS r st.1 st'.1 ∧ st'.2 = st.2
  else only_warnings st.1 st'.1
       ∧ ∃ g b, st'.2 = <[g := (default [] (st.2 !! g) ++ [b])%list]> st.2.
Proof.
  intros Hany. destruct st as [issues bindingMap].
  unfold binding_defect, binding_row. rewrite Hany. cbn [negb fst snd].
  destruct (falsy (normalizeIdentifier (prop (data r) "group_identifier")));
    cbn [orb fst snd]; [drops|].
  destruct (falsy (normalizeIdentifier (prop (data r) "type_identifier")));
    cbn [orb fst snd]; [drops|].
  cbv zeta.
  destruct (booleanOr true (prop (data r) "valid")); cbn [orb is_fail];
    [|repeat case_bool_decide; cbn [fst snd]; drops].
  destruct (booleanOr true (prop (data r) "visible")); cbn [orb is_fail];
    [|repeat case_bool_decide; cbn [fst snd]; drops].
  cbn [fst snd]. split; [|by eexists _, _].
  repeat case_bool_decide;
    repeat apply only_warnings_add; apply only_warnings_refl.
Qed.

Lemma attribute_row_outcome config groupMap typeMap bindingMap st r :
  rowHasAnyValue (data r) ATTRIBUTE_HEADERS = true →
  let st' := attribute_row config groupMap typeMap bindingMap st r in
  if attribute_defect groupMap (acc_byIdentifier st) (data r)
  then row_dropped SHEETS.ATTRIBUTES r st st'
  else row_emitted st st'.
Proof.
  intros Hany. unfold attribute_defect, attribute_row. rewrite Hany.
  cbn [negb].
  destruct (falsy (normalizeIdentifier (prop (data r) "identifier")));
    cbn [orb]; [drops|].
  destruct (falsy (toText (prop (data r) "name_en"))); cbn [orb]; [drops|].
  destruct (falsy (toText (prop (data r) "type_code"))); cbn [orb]; [drops|].
  destruct (bool_decide (is_Some _)); cbn [orb]; [drops|].
  destruct (parseInteger (JStr _)) as [code|]; cbn [orb negb]; [|drops].
  destruct (is_type_code code); cbn [orb negb]; [|drops].
  destruct (bool_decide (parseCsvList _ = [])); cbn [orb]; [drops|].
  destruct (bool_decide (filter _ _ = [])); cbn [orb negb]; [|drops].
  destruct (optional _ (parseInteger _)); cbn [orb is_fail]; [|drops].
  destruct (booleanOr false (prop (data r) "language_dependent"));
    cbn [orb is_fail]; [|drops].
  destruct (booleanOr false (prop (data r) "rich_text"));
    cbn [orb is_fail]; [|drops].
  destruct (booleanOr false (prop (data r) "multi_line"));
    cbn [orb is_fail]; [|drops].
  destruct (parseJsonObject _ _); cbn [orb is_fail]; [|drops].
  destruct (propagate _ _ _) as [validSet visibleSet].
  split; [|by eexists].
  cbn [emit acc_issues]. apply type_warnings_only, only_warnings_refl.
Qed.

Lemma item_row_outcome sh config am tm declared hdrs ah st r :
  rowHasAnyValue (data r) hdrs = true →
  let st' := item_row sh config am tm declared hdrs ah st r in
  if item_defect tm (it_seen st) (data r)
  then one_error sh r (it_issues st) (it_issues st')
       ∧ it_payload st' = it_payload st
  else ∃ request, it_payload st' = (it_payload st ++ [request])%list.
Proof.
  intros Hany. unfold item_defect, item_row. rewrite Hany. cbn [negb].
  destruct (falsy (normalizeIdentifier (prop (data r) "identifier")));
    cbn [orb]; [drops|].
  destruct (falsy (toText (prop (data r) "name_en"))); cbn [orb]; [drops|].
  destruct (falsy (normalizeIdentifier (prop (data r) "type_identifier")));
    cbn [orb]; [drops|].
  destruct (bool_decide (_ ∈ it_seen st)); cbn [orb]; [drops|].
  unfold item_checked, warn_unknown_type, warn_unknown_parent, item_emit.
  destruct (type_parent tm _) as [p|];
    [destruct (falsy (normalizeIdentifier (prop (data r) "parent_identifier")))|];
    cbn [orb].
  1: by case_bool_decide; cbn [item_report item_reserve it_issues it_payload];
       drops.
  all: destruct (bool_decide (_ = _)); cbn [orb];
    [by case_bool_decide;
        cbn [item_report item_reserve it_issues it_payload]; drops|].
  all: destruct (parseJsonObject (prop (data r) "values_json") true);
    cbn [orb is_fail];
    [|by repeat case_match;
         cbn [item_report item_reserve it_issues it_payload]; drops].
  all: destruct (parseJsonObject (prop (data r) "channels_json") true);
    cbn [orb is_fail];
    [|by repeat case_match;
         cbn [item_report item_reserve it_issues it_payload]; drops].
  all: destruct (item_values _ _ _ _ _ _ _ _) as [issues values].
  all: repeat case_match;
    cbn [item_report item_reserve it_issues it_payload]; by eexists.
Qed.

Lemma isBlank_toText v : isBlank v = true → toText v = "".
Proof.
  unfold toText. destruct v; simpl; try done.
  by intros Hb%bool_decide_eq_true.
Qed.

Lemma json_value_step_invalid sh rn config am iss values k raw attribute e :
  am !! normalizeIdentifier (JStr k) = Some attribute →
  coerceAttributeValue raw attribute (cfg_defaultLanguage config) = CFail e →
  json_value_step sh rn config am (iss, values) (k, raw)
  = ((iss ++ [invalid_value_issue sh rn ("values_json." ++ k) e])%list, values).
Proof. intros Ha He. unfold json_value_step. by rewrite Ha, He. Qed.

Lemma attr_column_step_invalid sh rn config am data iss values header
    attribute e :
  falsy (column_identifier header) = false →
  am !! column_identifier header = Some attribute →
  coerceAttributeValue (prop data header) attribute (cfg_defaultLanguage config)
  = CFail e →
  attr_column_step sh rn config am data (iss, values) header
  = ((iss ++ [invalid_value_issue sh rn header e])%list, values).
Proof.
  unfold column_identifier. intros Hid Ha He. unfold attr_column_step.
  rewrite Hid, Ha, He.
  destruct (isBlank (prop data header)) eqn:Hb; [|done].
  apply isBlank_toText in Hb.
  rewrite (coerce_blank _ attribute (cfg_defaultLanguage config) Hb) in He.
  discriminate.
Qed.


End Outcomes.

(** * Further properties of the parser *)

(** ** The sheet reader *)

Section SheetReader.
Context `{Host}.

Lemma rowObject_of_snoc hdrs h rowArray :
  rowObject_of (hdrs ++ [h]) rowArray
  = obj_set h (nth (List.length hdrs) rowArray JUndefined)
      (rowObject_of hdrs rowArray).
Proof.
  unfold rowObject_of. rewrite imap_app, foldl_app. cbn [imap foldl].
  by rewrite Nat.add_0_r.
Qed.

Lemma rowObject_of_absent hdrs rowArray h :
  h ∉ hdrs → obj_lookup h (rowObject_of hdrs rowArray) = None.
Proof.
  induction hdrs as [|x l IH] using rev_ind; intros Hh; [done|].
  rewrite rowObject_of_snoc. apply not_elem_of_app in Hh as [Hl Hx].
  rewrite obj_lookup_set_ne; [by apply IH|].
  intros ->. apply Hx, list_elem_of_here.
Qed.

Lemma rowObject_of_last hdrs rowArray i h :
  hdrs !! i = Some h →
  (∀ j, i < j → hdrs !! j ≠ Some h) →
  obj_lookup h (rowObject_of hdrs rowArray) = Some (nth i rowArray JUndefined).
Proof.
  revert i. induction hdrs as [|x l IH] using rev_ind; intros i Hi Hlast; [done|].
  rewrite rowObject_of_snoc.
  destruct (decide (i = List.length l)) as [->|Hne].
  - rewrite lookup_app_r, Nat.sub_diag in Hi by done.
    injection Hi as ->. apply obj_lookup_set.
  - assert (i < List.length l) as Hlt.
    { apply lookup_lt_Some in Hi. rewrite length_app in Hi. simpl in Hi. lia. }
    rewrite lookup_app_l in Hi by done.
    rewrite obj_lookup_set_ne.
    + apply IH; [done|]. intros j Hj Hjh.
      apply (Hlast j Hj). rewrite lookup_app_l; [done|].
      by apply lookup_lt_Some in Hjh.
    + intros ->. apply (Hlast (List.length l) Hlt).
      by rewrite lookup_app_r, Nat.sub_diag.
Qed.

Lemma headerMap_lookup hdrs h :
  foldl (λ (m : gmap string nat) '(index, header),
           if falsy header then m else <[header := index]> m)
        ∅ (imap pair hdrs) !! h = None
  ↔ h = "" ∨ h ∉ hdrs.
Proof.
  induction hdrs as [|x l IH] using rev_ind.
  - cbn. rewrite lookup_empty. split; [intros _; right; apply not_elem_of_nil | done].
  - rewrite imap_app, foldl_app. cbn [imap foldl]. unfold falsy at 1.
    case_bool_decide as Hx.
    + rewrite IH. subst x. split; intros [->|Hh]; auto.
      * destruct (decide (h = "")) as [->|Hne]; [by left|right].
        apply not_elem_of_app. split; [done|].
        by intros ->%list_elem_of_singleton.
      * right. by apply not_elem_of_app in Hh as [? _].
    + destruct (decide (h = x)) as [->|Hne].
      * rewrite lookup_insert_eq. split; [done|]. intros [->|Hh]; [done|].
        exfalso. apply Hh, elem_of_app. right. apply list_elem_of_here.
      * rewrite lookup_insert_ne by done. rewrite IH.
        split; intros [->|Hh]; auto; right.
        -- apply not_elem_of_app. split; [done|].
           by intros ->%list_elem_of_singleton.
        -- by apply not_elem_of_app in Hh as [? _].
Qed.


(** X2.  The missing headers of [parseSheetWithHeaders] are exactly the
    required headers that are no header of the sheet (every required header
    when the sheet is absent); an empty required header always counts as
    missing. *)
Theorem missing_headers_are_the_absent_ones (wb : Workbook)
    (sheetName : string) (requiredHeaders : list string) (h : string) :
  let parsed := parseSheetWithHeaders wb sheetName requiredHeaders in
  h ∈ missingHeaders parsed
  ↔ h ∈ requiredHeaders ∧ (h = "" ∨ h ∉ headers parsed).
Proof.
  unfold parseSheetWithHeaders. destruct (Sheets wb !! sheetName) as [matrix|].
  - cbn [missingHeaders headers]. rewrite list_elem_of_filter, headerMap_lookup.
    tauto.
  - cbn [missingHeaders headers]. split; [|tauto].
    intros Hin. split; [done|]. right. apply not_elem_of_nil.
Qed.

End SheetReader.

(** ** The scalar readers *)

Lemma all_chars_trimStart P s :
  Str.all_chars P s = true → Str.all_chars P (Str.trimStart s) = true.
Proof.
  induction s as [|c s IH]; [done|]. simpl.
  intros [Hc Hs]%andb_true_iff. destruct (Str.is_space c); [by apply IH|].
  simpl. by rewrite Hc, Hs.
Qed.

Lemma all_chars_trimEnd P s :
  Str.all_chars P s = true → Str.all_chars P (Str.trimEnd s) = true.
Proof.
  induction s as [|c s IH]; [done|]. simpl.
  intros [Hc Hs]%andb_true_iff. specialize (IH Hs).
  destruct (Str.trimEnd s) eqn:Ht.
  - destruct (Str.is_space c); [done|]. simpl. by rewrite Hc.
  - change (P c && Str.all_chars P (String a s0) = true). by rewrite Hc.
Qed.

Lemma all_chars_map_chars P f s :
  (∀ c, P c = true → P (f c) = true) →
  Str.all_chars P s = true → Str.all_chars P (Str.map_chars f s) = true.
Proof.
  intros Hf. induction s as [|c s IH]; [done|]. simpl.
  intros [Hc Hs]%andb_true_iff. by rewrite (Hf c Hc), IH.
Qed.

Lemma is_csv_separator_lower_char c :
  Str.is_csv_separator (Str.lower_char c) = Str.is_csv_separator c.
Proof. by destruct c as [[] [] [] [] [] [] [] []]. Qed.

Lemma split_on_pieces sep s piece :
  piece ∈ Str.split_on sep s →
  Str.all_chars (λ c, negb (sep c)) piece = true.
Proof.
  revert piece. induction s as [|c s IH]; intros piece; simpl.
  - by intros ->%list_elem_of_singleton.
  - destruct (sep c) eqn:Hc.
    + intros [->|Hin]%elem_of_cons; [done | by apply IH].
    + destruct (Str.split_on sep s) as [|p ps] eqn:Hs.
      * intros ->%list_elem_of_singleton. simpl. by rewrite Hc.
      * intros [->|Hin]%elem_of_cons.
        -- simpl. rewrite Hc. simpl. apply IH, list_elem_of_here.
        -- apply IH. by apply list_elem_of_further.
Qed.

Section Scalars.
Context `{Host}.

Lemma normalizeIdentifier_fixed v :
  normalizeIdentifier (JStr (normalizeIdentifier v)) = normalizeIdentifier v.
Proof.
  destruct v as [| |b|n|s|l|o]; [reflexivity | reflexivity | ..].
  - exact (normalizeIdentifier_idem (String_of (JBool b))).
  - exact (normalizeIdentifier_idem (String_of (JNum n))).
  - exact (normalizeIdentifier_idem s).
  - exact (normalizeIdentifier_idem (String_of (JArr l))).
  - exact (normalizeIdentifier_idem (String_of (JObj o))).
Qed.

Lemma normalizeIdentifier_no_separator s :
  Str.all_chars (λ c, negb (Str.is_csv_separator c)) s = true →
  Str.all_chars (λ c, negb (Str.is_csv_separator c))
    (normalizeIdentifier (JStr s)) = true.
Proof.
  intros Hs. rewrite normalizeIdentifier_text.
  apply all_chars_map_chars.
  - intros c. by rewrite is_csv_separator_lower_char.
  - by apply all_chars_trimEnd, all_chars_trimStart.
Qed.

(** X3.  Every entry of [parseCsvList] is non-empty and in normalized form
    (trimmed, lower case), and for a text cell it contains no separator
    [,] or [;]; a blank cell gives the empty list; parsing the parsed list
    again returns it unchanged. *)
Theorem parseCsvList_entries (value : jsval) :
  (∀ entry, entry ∈ parseCsvList value →
            entry ≠ ""
            ∧ normalizeIdentifier (JStr entry) = entry
            ∧ ((∀ entries, value ≠ JArr entries) →
               Str.all_chars (λ c, negb (Str.is_csv_separator c)) entry = true))
  ∧ (isBlank value = true → parseCsvList value = [])
  ∧ parseCsvList (JArr (JStr <$> parseCsvList value)) = parseCsvList value.
Proof.
  assert (∀ entry, entry ∈ parseCsvList value →
            entry ≠ "" ∧ normalizeIdentifier (JStr entry) = entry) as Hnorm.
  { intros entry. unfold parseCsvList.
    destruct value; try case_match; try (by intros ?%elem_of_nil);
      intros [Hne (x & -> & _)%list_elem_of_fmap]%list_elem_of_filter;
      (split; [done|]); apply normalizeIdentifier_fixed. }
  split; [|split].
  - intros entry Hin. destruct (Hnorm entry Hin) as [Hne Hfix].
    split; [done|]. split; [done|]. intros Harr. revert Hin.
    unfold parseCsvList.
    destruct value; try (by destruct (Harr _ eq_refl));
      case_match; try (by intros ?%elem_of_nil);
      intros [_ (x & -> & Hx)%list_elem_of_fmap]%list_elem_of_filter;
      by apply normalizeIdentifier_no_separator, (split_on_pieces _ _ _ Hx).
  - intros Hblank. pose proof (isBlank_toText _ Hblank) as Ht.
    unfold parseCsvList. destruct value; try discriminate; by rewrite Ht.
  - unfold parseCsvList at 1. rewrite <- list_fmap_compose.
    induction (parseCsvList value) as [|e l IH]; [done|].
    rewrite fmap_cons, filter_cons.
    destruct (Hnorm e (list_elem_of_here _ _)) as [Hne Hfix].
    rewrite decide_True by (simpl; by rewrite Hfix).
    simpl. rewrite Hfix. f_equal. apply IH.
    intros entry Hin. apply Hnorm. by apply list_elem_of_further.
Qed.

(** X4.  [parseBoolean] reads a text cell through its normalized form: the
    result does not depend on case or on surrounding white space, and the
    cell is accepted only when that form is one of the four words for true
    or the four words for false.  A blank cell is rejected; it is not read
    as false. *)
Theorem parseBoolean_reads_normalized_text (s : string) (value : jsval) :
  parseBoolean (JStr s) = parseBoolean (JStr (normalizeIdentifier (JStr s)))
  ∧ (isBlank value = true →
     parseBoolean value = Fail "Expected boolean-like value")
  ∧ (∀ b, parseBoolean (JStr s) = Ok b →
          normalizeIdentifier (JStr s)
          ∈ (if b then ["true"; "1"; "yes"; "y"]
             else ["false"; "0"; "no"; "n"])).
Proof.
  split; [|split].
  - unfold parseBoolean.
    change (Str.toLowerCase (toText (JStr ?x))) with (normalizeIdentifier (JStr x)).
    by rewrite normalizeIdentifier_fixed.
  - intros Hblank. pose proof (isBlank_toText _ Hblank) as Ht.
    unfold parseBoolean. destruct value; try discriminate; by rewrite Ht.
  - intros b. unfold parseBoolean.
    change (Str.toLowerCase (toText (JStr s))) with (normalizeIdentifier (JStr s)).
    repeat case_bool_decide; intros [= <-]; done.
Qed.

(** X5.  [coerceAttributeValue] skips exactly the blank raw values.  A value
    it returns has the shape of the attribute: an object for a
    language-dependent attribute (the raw object, or the trimmed text under
    the default language), a boolean for type 2, a number for type 3, a
    finite number for type 4, and the trimmed text otherwise. *)
Theorem coerced_value_has_the_attribute_type (rawValue : jsval)
    (attribute : AttributeModel) (defaultLanguage : string) :
  let coerced := coerceAttributeValue rawValue attribute defaultLanguage in
  (coerced = CSkip ↔ toText rawValue = "")
  ∧ ∀ v, coerced = CValue v →
      if m_languageDependent attribute then
        match rawValue with
        | JObj _ => v = rawValue
        | _ => v = JObj [(defaultLanguage, JStr (toText rawValue))]
        end
      else if number_eqb (m_type attribute) (number_of_nat 2) then
        ∃ b, v = JBool b
      else if number_eqb (m_type attribute) (number_of_nat 3) then
        ∃ n, v = JNum n
      else if number_eqb (m_type attribute) (number_of_nat 4) then
        ∃ n, v = JNum n ∧ Number_isFinite n = true
      else v = JStr (toText rawValue).
Proof.
  unfold coerceAttributeValue. case_bool_decide as Hblank.
  { split; [done|]. intros v. discriminate. }
  split.
  { split; [|done]. unfold coerced_of.
    repeat case_match; discriminate. }
  intros v. destruct (m_languageDependent attribute).
  { destruct rawValue; by intros [= <-]. }
  destruct (number_eqb (m_type attribute) (number_of_nat 2)).
  { destruct (parseBoolean rawValue); simpl; [|discriminate].
    intros [= <-]. by eexists. }
  destruct (number_eqb (m_type attribute) (number_of_nat 3)).
  { destruct (parseInteger rawValue); simpl; [|discriminate].
    intros [= <-]. by eexists. }
  destruct (number_eqb (m_type attribute) (number_of_nat 4)).
  { destruct (parseFloatNumber rawValue) as [n|] eqn:Hp; simpl; [|discriminate].
    intros [= <-]. exists n. split; [done|].
    revert Hp. unfold parseFloatNumber.
    destruct rawValue; repeat case_match; try discriminate;
      intros [= <-]; try done;
      match goal with
      | Hf : negb (Number_isFinite _) = false |- _ =>
          by apply negb_false_iff in Hf
      end. }
  by intros [= <-].
Qed.

End Scalars.

(** ** What a valid run guarantees *)

(** Closes [x ∈ l] for an element of a list that is written out, and
    [i ∈ addIssue (... (addIssue iss ...) ...) ...] for one of the added
    issues. *)
Ltac in_list :=
  repeat first [apply list_elem_of_here | apply list_elem_of_further].
Ltac in_issues :=
  unfold addIssue;
  repeat first [ apply list_elem_of_here
               | apply elem_of_app; right; apply list_elem_of_here
               | apply elem_of_app; left ].

Section ValidRun.
Context `{Host}.

Lemma missingHeaderIssues_eq iss sh missing :
  missingHeaderIssues iss sh missing = (iss ++ (header_issue sh <$> missing))%list.
Proof.
  unfold missingHeaderIssues. revert iss.
  induction missing as [|h l IH]; intros iss; simpl.
  - by rewrite app_nil_r.
  - rewrite IH. unfold addIssue. by rewrite <- app_assoc.
Qed.

Lemma header_issue_reported iss sh missing h :
  h ∈ missing → header_issue sh h ∈ missingHeaderIssues iss sh missing.
Proof.
  intros Hh. rewrite missingHeaderIssues_eq. apply elem_of_app. right.
  apply list_elem_of_fmap. by exists h.
Qed.

Lemma parseConfig_headers wb iss :
  let parsed := parseSheetWithHeaders wb SHEETS.CONFIG CONFIG_HEADERS in
  sheet_exists parsed = true →
  missingHeaderIssues iss SHEETS.CONFIG (missingHeaders parsed)
    `prefix_of` (parseConfig wb iss).2.
Proof.
  intros parsed Hexists. unfold parseConfig. fold parsed. rewrite Hexists.
  cbn [negb].
  pose proof (foldl_rel fst_grows config_row (rows parsed) config_row_prefix
                (missingHeaderIssues iss SHEETS.CONFIG (missingHeaders parsed), ∅))
    as Hrows.
  destruct (foldl config_row _ (rows parsed)) as [issues kv].
  unfold fst_grows in Hrows. cbn [fst snd] in *.
  row_cases; solve_prefix.
Qed.

Lemma parseAttributeGroups_headers wb config iss :
  let parsed := parseSheetWithHeaders wb SHEETS.GROUPS GROUP_HEADERS in
  sheet_exists parsed = true →
  missingHeaderIssues iss SHEETS.GROUPS (missingHeaders parsed)
    `prefix_of` acc_issues (parseAttributeGroups wb config iss).
Proof.
  intros parsed Hexists. unfold parseAttributeGroups. fold parsed.
  rewrite Hexists. cbn [negb].
  apply foldl_grows_from; [apply group_row_grows | reflexivity].
Qed.

Lemma parseTypes_headers wb config iss :
  let parsed := parseSheetWithHeaders wb SHEETS.TYPES TYPE_HEADERS in
  sheet_exists parsed = true →
  missingHeaderIssues iss SHEETS.TYPES (missingHeaders parsed)
    `prefix_of` acc_issues (parseTypes wb config iss).
Proof.
  intros parsed Hexists. unfold parseTypes. fold parsed.
  rewrite Hexists. cbn [negb acc_issues].
  etrans; [|apply foldl_prefix, type_check_prefix].
  apply foldl_grows_from; [apply type_row_grows | reflexivity].
Qed.

Lemma parseTypeGroupBindings_headers wb gs ts iss :
  let parsed := parseSheetWithHeaders wb SHEETS.TYPE_GROUP_BINDINGS
                  TYPE_GROUP_BINDING_HEADERS in
  sheet_exists parsed = true →
  missingHeaderIssues iss SHEETS.TYPE_GROUP_BINDINGS (missingHeaders parsed)
    `prefix_of` (parseTypeGroupBindings wb gs ts iss).1.
Proof.
  intros parsed Hexists. unfold parseTypeGroupBindings. fold parsed.
  rewrite Hexists. cbn [negb].
  apply (foldl_rel fst_grows (binding_row gs ts) _
           (binding_row_prefix gs ts)
           (missingHeaderIssues iss SHEETS.TYPE_GROUP_BINDINGS _, ∅)).
Qed.

Lemma parseAttributes_headers wb config gm tm bm iss :
  let parsed := parseSheetWithHeaders wb SHEETS.ATTRIBUTES ATTRIBUTE_HEADERS in
  sheet_exists parsed = true →
  missingHeaderIssues iss SHEETS.ATTRIBUTES (missingHeaders parsed)
    `prefix_of` acc_issues (parseAttributes wb config gm tm bm iss).
Proof.
  intros parsed Hexists. unfold parseAttributes. fold parsed.
  rewrite Hexists. cbn [negb].
  apply foldl_grows_from; [apply attribute_row_grows | reflexivity].
Qed.

(** The issues of every stage are in the final issue array. *)
Lemma stage_issues_final wb :
  let s := stages wb in
  let config := parseConfig wb (ensureRequiredSheets wb []) in
  let bindings :=
    parseTypeGroupBindings wb (dom (acc_byIdentifier (st_groups s)))
      (dom (acc_byIdentifier (st_types s))) (acc_issues (st_types s)) in
  ensureRequiredSheets wb [] `prefix_of` all_issues wb
  ∧ config.2 `prefix_of` all_issues wb
  ∧ acc_issues (st_groups s) `prefix_of` all_issues wb
  ∧ acc_issues (st_types s) `prefix_of` all_issues wb
  ∧ bindings.1 `prefix_of` all_issues wb
  ∧ acc_issues (st_attributes s) `prefix_of` all_issues wb.
Proof.
  intros s config bindings.
  destruct (stages_issue_chain wb) as (H1 & H2 & H3 & H4). fold s in H1, H2, H3, H4.
  assert (acc_issues (st_types s) `prefix_of` all_issues wb) as Ht
    by (etrans; [exact H3 | exact H4]).
  assert (acc_issues (st_groups s) `prefix_of` all_issues wb) as Hg
    by (etrans; [exact H2 | exact Ht]).
  split; [etrans; [exact H1 | exact Hg]|].
  split; [etrans; [|exact Hg]; apply parseAttributeGroups_prefix|].
  split; [exact Hg|]. split; [exact Ht|]. split; [|exact H4].
  etrans; [|exact H4]. apply parseAttributes_prefix.
Qed.

Lemma item_sheet_headers_final wb sheetName :
  let parsed := parseSheetWithHeaders wb sheetName ITEM_BASE_HEADERS in
  sheetName ∈ itemSheetNames →
  sheet_exists parsed = true →
  ∃ iss, missingHeaderIssues iss sheetName (missingHeaders parsed)
           `prefix_of` all_issues wb.
Proof.
  intros parsed Hin Hexists.
  apply list_elem_of_split in Hin as (l1 & l2 & Hl).
  assert (∃ rest, sheet_work wb sheetName
                  = SheetStart sheetName (missingHeaders parsed) :: rest)
    as [rest Hwork].
  { unfold sheet_work. fold parsed. rewrite Hexists. by eexists. }
  exists (it_issues (item_run wb (List.concat (sheet_work wb <$> l1)))).
  apply (final_issues wb (List.concat (sheet_work wb <$> l1))
           (SheetStart sheetName (missingHeaders parsed))
           (rest ++ List.concat (sheet_work wb <$> l2))).
  unfold item_work. rewrite Hl, fmap_app, concat_app, fmap_cons.
  cbn [List.concat]. by rewrite Hwork.
Qed.

Lemma valid_run_has_no_error wb issue :
  valid (parseAndValidateImportWorkbook wb) = true →
  issue ∈ all_issues wb → severity issue = error → False.
Proof.
  intros Hvalid Hin Hsev.
  destruct (error_is_reported wb issue Hin Hsev) as [_ Hinvalid]. congruence.
Qed.

(** X6.  In a valid run the import mode of the payload is one of
    CREATE_ONLY, UPDATE_ONLY, CREATE_UPDATE and the error policy is
    PROCESS_WARN or WARN_REJECTED: an unknown value is an error. *)
Theorem valid_run_has_a_recognised_config (wb : Workbook) :
  let result := parseAndValidateImportWorkbook wb in
  valid result = true →
  (p_config (payload result)).1 ∈ VALID_IMPORT_MODES
  ∧ (p_config (payload result)).2 ∈ VALID_ERROR_PROCESSING.
Proof.
  intros result Hvalid.
  destruct (stage_issues_final wb) as (_ & Hconfig & _).
  change (p_config (payload result))
    with (cfg_mode (parseConfig wb (ensureRequiredSheets wb [])).1,
          cfg_errors (parseConfig wb (ensureRequiredSheets wb [])).1).
  cbn [fst snd] in *. revert Hconfig. unfold parseConfig.
  case_match.
  { intros _. cbn. split; in_list. }
  destruct (foldl config_row _ _) as [issues kv]. cbv zeta. cbn [fst snd].
  intros Hconfig. split.
  - destruct (decide (Str.toUpperCase (get_or kv "mode" "CREATE_UPDATE")
                      ∈ VALID_IMPORT_MODES)) as [|Hmode]; [done|].
    exfalso. rewrite (bool_decide_eq_false_2 _ Hmode) in Hconfig.
    apply (valid_run_has_no_error wb
             (Build_Issue error SHEETS.CONFIG None "mode"
                "mode must be CREATE_ONLY, UPDATE_ONLY, or CREATE_UPDATE")
             Hvalid); [|done].
    eapply elem_of_prefix; [|exact Hconfig].
    row_cases; in_issues.
  - destruct (decide (Str.toUpperCase (get_or kv "errors" "PROCESS_WARN")
                      ∈ VALID_ERROR_PROCESSING)) as [|Herrors]; [done|].
    exfalso. rewrite (bool_decide_eq_false_2 _ Herrors) in Hconfig.
    apply (valid_run_has_no_error wb
             (Build_Issue error SHEETS.CONFIG None "errors"
                "errors must be PROCESS_WARN or WARN_REJECTED")
             Hvalid); [|done].
    eapply elem_of_prefix; [|exact Hconfig].
    row_cases; in_issues.
Qed.

(** X7.  In a valid run every required sheet is listed in [SheetNames],
    and no sheet that the workbook holds lacks one of its required headers:
    a missing sheet and a missing header are errors. *)
Theorem valid_run_meets_the_sheet_contract (wb : Workbook)
    (sheetName : string) (requiredHeaders : list string) :
  let parsed := parseSheetWithHeaders wb sheetName requiredHeaders in
  valid (parseAndValidateImportWorkbook wb) = true →
  (sheetName, requiredHeaders) ∈ sheet_contract →
  sheetName ∈ SheetNames wb
  ∧ (sheet_exists parsed = true → missingHeaders parsed = []).
Proof.
  intros parsed Hvalid Hcontract.
  destruct (stage_issues_final wb) as (Hsheets & Hc & Hg & Ht & Hb & Ha).
  split.
  - destruct (decide (sheetName ∈ SheetNames wb)) as [|Hmissing]; [done|].
    exfalso.
    apply (valid_run_has_no_error wb (missing_sheet_issue sheetName) Hvalid);
      [|done].
    eapply elem_of_prefix; [|exact Hsheets].
    rewrite ensureRequiredSheets_eq. cbn [app]. apply list_elem_of_fmap.
    exists sheetName. split; [done|]. apply list_elem_of_filter. split; [done|].
    unfold sheet_contract in Hcontract.
    apply elem_of_app in Hcontract as [Hcontract|Hcontract].
    + repeat (apply elem_of_cons in Hcontract as [[= -> _]|Hcontract];
              [unfold requiredSheets; cbn [app]; in_list|]).
      by apply elem_of_nil in Hcontract.
    + apply list_elem_of_fmap in Hcontract as (sh & [= -> _] & Hsh).
      unfold requiredSheets.
      change (sh ∈ SHEETS.ITEM_PARENTS :: PRODUCT_SHEETS) in Hsh.
      do 5 apply list_elem_of_further. exact Hsh.
  - intros Hexists. destruct (missingHeaders parsed) as [|h missing] eqn:Hm;
      [done|]. exfalso.
    assert (∃ iss, missingHeaderIssues iss sheetName (missingHeaders parsed)
                     `prefix_of` all_issues wb) as [iss Hiss].
    { unfold sheet_contract in Hcontract.
      apply elem_of_app in Hcontract as [Hcontract|Hcontract].
      - repeat (apply elem_of_cons in Hcontract as [[= Hs Hh]|Hcontract]);
          [..|by apply elem_of_nil in Hcontract];
          unfold parsed in *; clear parsed; subst sheetName requiredHeaders;
          eexists.
        + etrans; [by apply parseConfig_headers | exact Hc].
        + etrans; [by apply parseAttributeGroups_headers | exact Hg].
        + etrans; [by apply parseTypes_headers | exact Ht].
        + etrans; [by apply parseTypeGroupBindings_headers | exact Hb].
        + etrans; [by apply parseAttributes_headers | exact Ha].
      - apply list_elem_of_fmap in Hcontract as (sh & [= -> ->] & Hsh).
        by apply item_sheet_headers_final. }
    apply (valid_run_has_no_error wb (header_issue sheetName h) Hvalid);
      [|done].
    eapply elem_of_prefix; [|exact Hiss].
    apply header_issue_reported. rewrite Hm. apply list_elem_of_here.
Qed.

End ValidRun.

(** ** The payload and the lookup table of a sheet parser *)

Section Table.
Context {M R : Type} (key : R → string) (model : R → M).

Lemma table_ok_empty iss : table_ok key model (mkAcc iss ∅ []).
Proof.
  split; [constructor|]. intros id m. cbn. rewrite lookup_empty.
  split; [done|]. by intros (r & ?%elem_of_nil & _).
Qed.

Lemma table_step_ok st st' :
  table_ok key model st → table_step key model st st' →
  table_ok key model st'.
Proof.
  intros [Hnodup Hmap] [[Hp Hm]|(r & Hnew & Hp & Hm)].
  { unfold table_ok. by rewrite Hp, Hm. }
  assert (∀ r', r' ∈ acc_payload st → key r' ≠ key r) as Hfresh.
  { intros r' Hin Hkey.
    assert (acc_byIdentifier st !! key r = Some (model r')) as Hsome
      by (apply Hmap; by exists r').
    congruence. }
  unfold table_ok. rewrite Hp, Hm. split.
  - rewrite fmap_app. apply NoDup_app. split; [done|]. split.
    + intros id (r' & -> & Hin)%list_elem_of_fmap
        Hkey%list_elem_of_singleton.
      by apply (Hfresh r').
    + apply NoDup_singleton.
  - intros id m. destruct (decide (id = key r)) as [->|Hne].
    + rewrite lookup_insert_eq. split.
      * intros [= <-]. exists r. split; [|done].
        apply elem_of_app. right. apply list_elem_of_here.
      * intros (r' & [Hin| ->%list_elem_of_singleton]%elem_of_app & Hkey & <-);
          [by destruct (Hfresh r' Hin) | done].
    + rewrite lookup_insert_ne by done. rewrite Hmap. split.
      * intros (r' & Hin & Hkey & Hmodel). exists r'.
        split; [apply elem_of_app; by left | done].
      * intros (r' & [Hin| ->%list_elem_of_singleton]%elem_of_app & Hkey & Hmodel);
          [by exists r' | done].
Qed.

Lemma table_fold_ok {A} (f : Acc M R → A → Acc M R) (l : list A) st :
  (∀ st x, table_step key model st (f st x)) →
  table_ok key model st → table_ok key model (foldl f st l).
Proof.
  intros Hf. revert st. induction l as [|x l IH]; intros st Hst; [done|].
  cbn [foldl]. apply IH. by eapply table_step_ok.
Qed.

End Table.

Section Entities.
Context `{Host}.

(** *** Attribute_Groups *)

Lemma group_row_payload config st r :
  acc_payload (group_row config st r) = acc_payload st
  ∧ acc_byIdentifier (group_row config st r) = acc_byIdentifier st
  ∨ ∃ g, acc_payload (group_row config st r) = (acc_payload st ++ [g])%list.
Proof. unfold group_row. row_cases; simpl; eauto. Qed.

Lemma group_row_emits config st r g :
  acc_payload (group_row config st r) = (acc_payload st ++ [g])%list →
  acc_byIdentifier st !! g_identifier g = None
  ∧ acc_byIdentifier (group_row config st r)
    = <[g_identifier g := g]> (acc_byIdentifier st)
  ∧ g_identifier g = normalizeIdentifier (prop (data r) "identifier")
  ∧ g_identifier g ≠ ""
  ∧ (∃ name, name ≠ ""
             ∧ g_name g = [(cfg_defaultLanguage config, JStr name)])
  ∧ g_options g ≠ Some [].
Proof.
  unfold group_row. row_cases; simpl;
    try (intros Heq; by apply not_snoc in Heq).
  intros Heq. apply app_inv_head in Heq. injection Heq as <-. simpl.
  repeat match goal with
         | Hf : falsy _ = false |- _ => apply falsy_false in Hf
         | Hd : bool_decide (is_Some _) = false |- _ =>
             apply bool_decide_eq_false in Hd; apply eq_None_not_Some in Hd
         end.
  split; [done|]. split; [done|]. split; [done|]. split; [done|].
  split; [by eexists|]. unfold nonempty_obj. by case_match.
Qed.

Lemma group_row_table config st r :
  table_step g_identifier id st (group_row config st r).
Proof.
  destruct (group_row_payload config st r) as [?|[g Hg]]; [by left|].
  destruct (group_row_emits config st r g Hg) as (? & ? & _).
  right. by exists g.
Qed.

Lemma parseAttributeGroups_table_ok wb config iss :
  table_ok g_identifier id (parseAttributeGroups wb config iss).
Proof.
  unfold parseAttributeGroups. case_match; [apply table_ok_empty|].
  apply table_fold_ok; [apply group_row_table | apply table_ok_empty].
Qed.

Lemma parseAttributeGroups_origin wb config iss g :
  g ∈ acc_payload (parseAttributeGroups wb config iss) →
  ∃ r st, acc_payload (group_row config st r) = (acc_payload st ++ [g])%list.
Proof.
  unfold parseAttributeGroups. case_match; [by intros ?%elem_of_nil|].
  intros [?%elem_of_nil|(r & st & _ & Hpush)]%(foldl_payload_origin
                                                 acc_payload); [done|..].
  - by exists r, st.
  - intros st r. destruct (group_row_payload config st r) as [[? _]|?];
      [by left | by right].
Qed.

(** X8.  [parseAttributeGroups] returns a payload with pairwise distinct
    identifiers and a lookup table that maps exactly the identifiers of the
    payload, each to its record.  Every record has a non-empty identifier in
    normalized form, a name with the one entry of the default language and
    a non-empty text, and no empty options object. *)
Theorem parseAttributeGroups_table (wb : Workbook) (config : Config)
    (issues : list Issue) :
  let groups := parseAttributeGroups wb config issues in
  NoDup (g_identifier <$> acc_payload groups)
  ∧ (∀ identifier g,
       acc_byIdentifier groups !! identifier = Some g
       ↔ g ∈ acc_payload groups ∧ g_identifier g = identifier)
  ∧ (∀ g, g ∈ acc_payload groups →
          g_identifier g ≠ ""
          ∧ normalizeIdentifier (JStr (g_identifier g)) = g_identifier g
          ∧ (∃ name, name ≠ ""
                     ∧ g_name g = [(cfg_defaultLanguage config, JStr name)])
          ∧ g_options g ≠ Some []).
Proof.
  cbv zeta.
  destruct (parseAttributeGroups_table_ok wb config issues) as [Hnodup Hmap].
  split; [done|]. split.
  - intros identifier g. rewrite Hmap. unfold id. naive_solver.
  - intros g Hin.
    destruct (parseAttributeGroups_origin _ _ _ _ Hin) as (r & st & Hpush).
    destruct (group_row_emits config st r g Hpush)
      as (_ & _ & Hid & Hne & Hname & Hopt).
    split; [done|]. split; [|done].
    rewrite Hid. apply normalizeIdentifier_fixed.
Qed.

(** *** Types *)

Lemma type_row_table config st r :
  table_step t_identifier id st (type_row config st r).
Proof.
  destruct (type_row_payload config st r) as [?|[t Ht]]; [by left|].
  destruct (type_row_emits config st r t Ht) as (? & ? & _).
  right. by exists t.
Qed.

Lemma parseTypes_table_ok wb config iss :
  table_ok t_identifier id (parseTypes wb config iss).
Proof.
  unfold parseTypes. case_match; [apply table_ok_empty|].
  unfold table_ok. cbn [acc_payload acc_byIdentifier].
  apply (table_fold_ok t_identifier id (type_row config));
    [apply type_row_table | apply table_ok_empty].
Qed.

Lemma parseTypes_origin wb config iss t :
  t ∈ acc_payload (parseTypes wb config iss) →
  ∃ r st, acc_payload (type_row config st r) = (acc_payload st ++ [t])%list.
Proof.
  unfold parseTypes. case_match; [by intros ?%elem_of_nil|].
  cbn [acc_payload].
  intros [?%elem_of_nil|(r & st & _ & Hpush)]%(foldl_payload_origin
                                                 acc_payload); [done|..].
  - by exists r, st.
  - intros st r. destruct (type_row_payload config st r) as [[? _]|?];
      [by left | by right].
Qed.

Lemma parseTypes_parent wb config iss t :
  t ∈ acc_payload (parseTypes wb config iss) → t_parentIdentifier t ≠ Some "".
Proof.
  intros (r & st & Hpush)%parseTypes_origin.
  destruct (type_row_emits config st r t Hpush) as (_ & _ & _ & _ & Hparent).
  rewrite Hparent. unfold truthy_text. case_match eqn:Hf; [done|].
  apply falsy_false in Hf. congruence.
Qed.

(** X9.  [parseTypes] returns a payload with pairwise distinct identifiers
    and a lookup table that maps exactly the identifiers of the payload,
    each to its record.  Every record has a non-empty identifier in
    normalized form, and its parent identifier, if set, is not empty. *)
Theorem parseTypes_table (wb : Workbook) (config : Config)
    (issues : list Issue) :
  let typs := parseTypes wb config issues in
  NoDup (t_identifier <$> acc_payload typs)
  ∧ (∀ identifier t,
       acc_byIdentifier typs !! identifier = Some t
       ↔ t ∈ acc_payload typs ∧ t_identifier t = identifier)
  ∧ (∀ t, t ∈ acc_payload typs →
          t_identifier t ≠ ""
          ∧ normalizeIdentifier (JStr (t_identifier t)) = t_identifier t
          ∧ t_parentIdentifier t ≠ Some "").
Proof.
  cbv zeta.
  destruct (parseTypes_table_ok wb config issues) as [Hnodup Hmap].
  split; [done|]. split.
  - intros identifier t. rewrite Hmap. unfold id. naive_solver.
  - intros t Hin. pose proof (parseTypes_parent _ _ _ _ Hin) as Hparent.
    destruct (parseTypes_origin _ _ _ _ Hin) as (r & st & Hpush).
    destruct (type_row_emits config st r t Hpush) as (_ & _ & Hid & Hne & _).
    split; [by apply falsy_false|]. split; [|done].
    rewrite Hid. apply normalizeIdentifier_fixed.
Qed.

End Entities.

Section Attributes.
Context `{Host}.

Lemma attribute_row_record config gm tm bm st r a :
  acc_payload (attribute_row config gm tm bm st r)
  = (acc_payload st ++ [a])%list →
  acc_byIdentifier st !! a_identifier a = None
  ∧ acc_byIdentifier (attribute_row config gm tm bm st r)
    = <[a_identifier a := model_of a]> (acc_byIdentifier st)
  ∧ a_identifier a ≠ ""
  ∧ is_type_code (a_type a) = true
  ∧ a_groups a ≠ []
  ∧ (∀ g, g ∈ a_groups a → is_Some (gm !! g))
  ∧ a_valid a ≠ Some [] ∧ a_visible a ≠ Some []
  ∧ a_options a ≠ Some [].
Proof.
  unfold attribute_row. row_cases; simpl;
    try (intros Heq; by apply not_snoc in Heq).
  all: intros Heq; apply app_inv_head in Heq; injection Heq as <-; simpl.
  all: simplify_eq.
  all: repeat match goal with
         | Hf : falsy _ = false |- _ => apply falsy_false in Hf
         | Hd : bool_decide (is_Some _) = false |- _ =>
             apply bool_decide_eq_false in Hd; apply eq_None_not_Some in Hd
         | Hd : bool_decide (_ = []) = false |- _ =>
             apply bool_decide_eq_false in Hd
         | Hd : negb (bool_decide _) = false |- _ =>
             apply negb_false_iff, bool_decide_eq_true in Hd
         end.
  all: split; [done|]; split; [done|]; split; [done|]; split; [done|].
  all: split; [done|]; split;
    [|unfold nonempty_list, nonempty_obj; by repeat case_match].
  all: intros g Hg;
    match goal with
    | Hu : filter _ _ = [] |- _ =>
        destruct (gm !! g) eqn:Hgm; [done|];
        assert (g ∈ @nil string) as Hnil
          by (rewrite <- Hu; by apply list_elem_of_filter);
        by apply elem_of_nil in Hnil
    end.
Qed.

Lemma attribute_row_table config gm tm bm st r :
  table_step a_identifier model_of st (attribute_row config gm tm bm st r).
Proof.
  destruct (attribute_row_payload config gm tm bm st r) as [Hsame|[a Ha]].
  - left. split; [done|]. revert Hsame. unfold attribute_row.
    row_cases; simpl; try done.
    all: intros Heq; symmetry in Heq; by apply not_snoc in Heq.
  - destruct (attribute_row_record config gm tm bm st r a Ha) as (? & ? & _).
    right. by exists a.
Qed.

Lemma Set_add_NoDup s x : NoDup s → NoDup (Set_add s x).
Proof.
  intros Hs. unfold Set_add. case_bool_decide as Hin; [done|].
  apply NoDup_app. split; [done|]. split; [|apply NoDup_singleton].
  by intros y Hy ->%list_elem_of_singleton.
Qed.

Lemma Set_from_NoDup l : NoDup (Set_from l).
Proof.
  unfold Set_from.
  assert (∀ s, NoDup s → NoDup (foldl Set_add s l)) as Hgen.
  { induction l as [|x l IH]; intros s Hs; [done|].
    cbn [foldl]. by apply IH, Set_add_NoDup. }
  apply Hgen. constructor.
Qed.

Lemma add_binding_NoDup sets b :
  NoDup sets.1 ∧ NoDup sets.2 →
  NoDup (add_binding sets b).1 ∧ NoDup (add_binding sets b).2.
Proof.
  destruct sets as [vs ws]. unfold add_binding. cbn [fst snd].
  intros [Hv Hw]. split; case_match; auto using Set_add_NoDup.
Qed.

Lemma propagate_NoDup bm groups sets :
  NoDup sets.1 ∧ NoDup sets.2 →
  NoDup (propagate bm groups sets).1 ∧ NoDup (propagate bm groups sets).2.
Proof.
  unfold propagate. revert sets.
  induction groups as [|g l IH]; intros sets Hsets; [done|].
  cbn [foldl]. apply IH.
  generalize (default [] (bm !! g)) as bs. intros bs. revert sets Hsets.
  induction bs as [|b bs IHb]; intros sets Hsets; [done|].
  cbn [foldl]. by apply IHb, add_binding_NoDup.
Qed.

Lemma parseAttributes_table_ok wb config gm tm bm iss :
  table_ok a_identifier model_of (parseAttributes wb config gm tm bm iss).
Proof.
  unfold parseAttributes. case_match; [apply table_ok_empty|].
  apply table_fold_ok; [apply attribute_row_table | apply table_ok_empty].
Qed.

Lemma parseAttributes_origin wb config gm tm bm iss a :
  a ∈ acc_payload (parseAttributes wb config gm tm bm iss) →
  ∃ r st, acc_payload (attribute_row config gm tm bm st r)
          = (acc_payload st ++ [a])%list.
Proof.
  unfold parseAttributes. case_match; [by intros ?%elem_of_nil|].
  intros [?%elem_of_nil|(r & st & _ & Hpush)]%(foldl_payload_origin
                                                 acc_payload); [done|..].
  - by exists r, st.
  - intros st r. apply attribute_row_payload.
Qed.

(** X10.  [parseAttributes] returns a payload with pairwise distinct
    identifiers and a lookup table that maps exactly the identifiers of the
    payload, each to the model (identifier, type, language dependence) of
    its record.  Every record has a non-empty identifier in normalized
    form, a type code among 1..8, at least one group, only groups of the
    group table, duplicate-free valid and visible type lists that are left
    out rather than empty, and no empty options object. *)
Theorem parseAttributes_table (wb : Workbook) (config : Config)
    (groupMap : gmap string GroupRequest) (typeMap : gmap string TypeRequest)
    (bindingMap : gmap string (list Binding)) (issues : list Issue) :
  let attrs := parseAttributes wb config groupMap typeMap bindingMap issues in
  NoDup (a_identifier <$> acc_payload attrs)
  ∧ (∀ identifier m,
       acc_byIdentifier attrs !! identifier = Some m
       ↔ ∃ a, a ∈ acc_payload attrs ∧ a_identifier a = identifier
              ∧ m = model_of a)
  ∧ (∀ a, a ∈ acc_payload attrs →
          a_identifier a ≠ ""
          ∧ normalizeIdentifier (JStr (a_identifier a)) = a_identifier a
          ∧ is_type_code (a_type a) = true
          ∧ a_groups a ≠ []
          ∧ (∀ g, g ∈ a_groups a → is_Some (groupMap !! g))
          ∧ NoDup (valid_of a) ∧ NoDup (visible_of a)
          ∧ a_valid a ≠ Some [] ∧ a_visible a ≠ Some []
          ∧ a_options a ≠ Some []).
Proof.
  cbv zeta.
  destruct (parseAttributes_table_ok wb config groupMap typeMap bindingMap
              issues) as [Hnodup Hmap].
  split; [done|]. split.
  - intros identifier m. rewrite Hmap. naive_solver.
  - intros a Hin.
    destruct (parseAttributes_origin _ _ _ _ _ _ _ Hin) as (r & st & Hpush).
    destruct (attribute_row_record _ _ _ _ _ _ _ Hpush)
      as (_ & _ & Hne & Hcode & Hgroups & Hknown & Hvalid & Hvisible & Hopt).
    destruct (attribute_row_emits _ _ _ _ _ _ _ Hpush)
      as (Hid & _ & Hv & Hw).
    split; [done|]. split; [rewrite Hid; apply normalizeIdentifier_fixed|].
    split; [done|]. split; [done|]. split; [done|].
    rewrite Hv, Hw.
    split; [|split; [|done]];
      apply propagate_NoDup; split; apply Set_from_NoDup.
Qed.

(** X11.  Every group that an attribute of the payload names is the
    identifier of a group of the payload. *)
Theorem attribute_groups_are_emitted (wb : Workbook) (a : AttributeRequest)
    (g : string) :
  let result := parseAndValidateImportWorkbook wb in
  a ∈ attributes (payload result) →
  g ∈ a_groups a →
  ∃ group, group ∈ attrGroups (payload result) ∧ g_identifier group = g.
Proof.
  intros result Hin Hg.
  change (attributes (payload result))
    with (acc_payload (st_attributes (stages wb))) in Hin.
  change (attrGroups (payload result))
    with (acc_payload (st_groups (stages wb))).
  revert Hin. unfold stages. cbn [st_attributes st_groups].
  intros (r & st & Hpush)%parseAttributes_origin.
  destruct (attribute_row_record _ _ _ _ _ _ _ Hpush)
    as (_ & _ & _ & _ & _ & Hknown & _).
  destruct (Hknown g Hg) as [group Hgroup].
  apply (proj2 (parseAttributeGroups_table_ok _ _ _)) in Hgroup
    as (group' & Hin' & Hid & <-).
  by exists group'.
Qed.

End Attributes.

Section ItemRecords.
Context `{Host}.

Lemma item_row_record sh config am tm declared hdrs ah st r req :
  it_payload (item_row sh config am tm declared hdrs ah st r)
  = (it_payload st ++ [req])%list →
  i_identifier req = normalizeIdentifier (prop (data r) "identifier")
  ∧ i_identifier req ≠ ""
  ∧ i_typeIdentifier req
    = normalizeIdentifier (prop (data r) "type_identifier")
  ∧ i_typeIdentifier req ≠ ""
  ∧ (∃ name, name ≠ ""
             ∧ i_name req = [(cfg_defaultLanguage config, JStr name)])
  ∧ i_parentIdentifier req ≠ Some ""
  ∧ i_parentIdentifier req ≠ Some (i_identifier req)
  ∧ (is_Some (type_parent tm (i_typeIdentifier req)) →
     is_Some (i_parentIdentifier req))
  ∧ i_values req ≠ Some [] ∧ i_channels req ≠ Some [].
Proof.
  unfold item_row, item_checked, warn_unknown_type, warn_unknown_parent,
    item_emit.
  row_cases; cbn [item_report item_reserve it_payload it_issues it_seen];
    try (intros Heq; by apply not_snoc in Heq).
  all: intros Heq; apply app_inv_head in Heq; injection Heq as <-;
    cbn [i_identifier i_typeIdentifier i_name i_parentIdentifier i_values
         i_channels].
  all: repeat match goal with
         | Hf : falsy _ = false |- _ => apply falsy_false in Hf
         | Hf : falsy _ = true |- _ =>
             apply bool_decide_eq_true in Hf
         | Hd : bool_decide (_ = _) = false |- _ =>
             apply bool_decide_eq_false in Hd
         end.
  all: split; [done|]; split; [done|]; split; [done|]; split; [done|].
  all: split; [eexists; split; [|reflexivity]; assumption|].
  all: unfold truthy_text, nonempty_obj, localized.
  all: split; [case_match eqn:Hp; [done|]; apply falsy_false in Hp; congruence|].
  all: split; [case_match eqn:Hp; [done|]; congruence|].
  all: split; [|split; by case_match].
  all: intros [p Hsome]; case_match eqn:Hp; [|by eexists];
    apply bool_decide_eq_true in Hp; congruence.
Qed.

Lemma item_run_origin wb work req :
  req ∈ it_payload (item_run wb work) →
  ∃ sh hdrs ah r st,
    SheetRow sh hdrs ah r ∈ work
    ∧ it_payload (item_step wb st (SheetRow sh hdrs ah r))
      = (it_payload st ++ [req])%list.
Proof.
  unfold item_run.
  intros [?%elem_of_nil|(w & st & Hw & Hpush)]%(foldl_payload_origin
                                                  it_payload); [done|..].
  - destruct w as [sh missing|sh hdrs ah r].
    + cbn in Hpush. by apply not_snoc in Hpush.
    + by exists sh, hdrs, ah, r, st.
  - intros st w.
    destruct (work_step_payload (st_config (stages wb))
                (acc_byIdentifier (st_attributes (stages wb)))
                (acc_byIdentifier (st_types (stages wb)))
                (st_declared (stages wb)) st w)
      as [?|(a & ? & _)]; [by left | right; by exists a].
Qed.

(** X12.  Every item of the payload has a non-empty identifier and type
    identifier, both in normalized form, and a name with the one entry of
    the default language and a non-empty text.  Its parent identifier, if
    set, is not empty and is not its own identifier; when its type is a
    type of the payload that has a parent type, the item has a parent.  It
    carries no empty values or channels object. *)
Theorem emitted_items_are_well_formed (wb : Workbook) (req : ItemRequest) :
  let result := parseAndValidateImportWorkbook wb in
  req ∈ items (payload result) →
  i_identifier req ≠ ""
  ∧ normalizeIdentifier (JStr (i_identifier req)) = i_identifier req
  ∧ i_typeIdentifier req ≠ ""
  ∧ normalizeIdentifier (JStr (i_typeIdentifier req)) = i_typeIdentifier req
  ∧ (∃ name, name ≠ ""
             ∧ i_name req
               = [(cfg_defaultLanguage (st_config (stages wb)), JStr name)])
  ∧ i_parentIdentifier req ≠ Some ""
  ∧ i_parentIdentifier req ≠ Some (i_identifier req)
  ∧ (∀ t, t ∈ types (payload result) →
          t_identifier t = i_typeIdentifier req →
          is_Some (t_parentIdentifier t) →
          is_Some (i_parentIdentifier req))
  ∧ i_values req ≠ Some [] ∧ i_channels req ≠ Some [].
Proof.
  intros result Hin.
  change (items (payload result)) with (it_payload (st_items (stages wb))) in Hin.
  rewrite st_items_flat in Hin.
  apply item_run_origin in Hin as (sh & hdrs & ah & r & st & _ & Hpush).
  rewrite item_step_row in Hpush.
  destruct (item_row_record _ _ _ _ _ _ _ _ _ _ Hpush)
    as (Hid & Hne & Htype & Htne & Hname & Hparent & Hself & Hchild
        & Hvalues & Hchannels).
  split; [done|]. split; [rewrite Hid; apply normalizeIdentifier_fixed|].
  split; [done|]. split; [rewrite Htype; apply normalizeIdentifier_fixed|].
  split; [done|]. split; [done|]. split; [done|]. split; [|done].
  intros t Ht Hkey [p Hp]. apply Hchild.
  change (types (payload result)) with (acc_payload (st_types (stages wb))) in Ht.
  revert Ht. unfold stages at 1. cbn [st_types]. intros Ht.
  pose proof (parseTypes_parent _ _ _ _ Ht) as Hnonempty.
  assert (acc_byIdentifier (st_types (stages wb)) !! i_typeIdentifier req
          = Some t) as Hlookup.
  { unfold stages. cbn [st_types].
    apply (proj2 (parseTypes_table_ok _ _ _)). by exists t. }
  unfold type_parent. rewrite Hlookup, Hp.
  case_match eqn:Hf; [|by eexists].
  apply bool_decide_eq_true in Hf. congruence.
Qed.

End ItemRecords.

Section Declared.
Context `{Host}.

Lemma absent_sheet_has_no_rows wb sh hs :
  sheet_exists (parseSheetWithHeaders wb sh hs) = false →
  rows (parseSheetWithHeaders wb sh hs) = [].
Proof. unfold parseSheetWithHeaders. by case_match. Qed.

Lemma declared_rows (rs : list Row) (declared : gset string) x :
  x ∈ foldl (λ (declared : gset string) r,
               let identifier := normalizeIdentifier (prop (data r) "identifier") in
               if falsy identifier then declared
               else {[ identifier ]} ∪ declared)
            declared rs
  ↔ x ∈ declared
    ∨ (x ≠ "" ∧ ∃ r, r ∈ rs
                     ∧ normalizeIdentifier (prop (data r) "identifier") = x).
Proof.
  revert declared. induction rs as [|r l IH]; intros declared; cbn [foldl].
  - split; [by left|]. by intros [?|(_ & r & ?%elem_of_nil & _)].
  - rewrite IH. cbv zeta. destruct (falsy _) eqn:Hf.
    + apply bool_decide_eq_true in Hf. split.
      * intros [?|(Hx & r' & Hr' & Hid)]; [by left|right].
        split; [done|]. exists r'. split; [by apply list_elem_of_further|done].
      * intros [?|(Hx & r' & [->|Hr']%elem_of_cons & Hid)]; [by left|..].
        -- congruence.
        -- right. split; [done|]. by exists r'.
    + apply falsy_false in Hf. rewrite elem_of_union, elem_of_singleton. split.
      * intros [[->|?]|(Hx & r' & Hr' & Hid)].
        -- right. split; [done|]. exists r. split; [apply list_elem_of_here|done].
        -- by left.
        -- right. split; [done|]. exists r'.
           split; [by apply list_elem_of_further|done].
      * intros [?|(Hx & r' & [->|Hr']%elem_of_cons & Hid)].
        -- left. by right.
        -- left. by left.
        -- right. split; [done|]. by exists r'.
Qed.

Lemma declared_sheets wb (sheetNames : list string) (declared : gset string) x :
  x ∈ foldl (λ declared sheetName,
               let parsed := parseSheetWithHeaders wb sheetName ITEM_BASE_HEADERS in
               if negb (sheet_exists parsed) then declared
               else
                 foldl (λ (declared : gset string) r,
                          let identifier :=
                            normalizeIdentifier (prop (data r) "identifier") in
                          if falsy identifier then declared
                          else {[ identifier ]} ∪ declared)
                       declared (rows parsed))
            declared sheetNames
  ↔ x ∈ declared
    ∨ (x ≠ ""
       ∧ ∃ sh r, sh ∈ sheetNames
                 ∧ r ∈ rows (parseSheetWithHeaders wb sh ITEM_BASE_HEADERS)
                 ∧ normalizeIdentifier (prop (data r) "identifier") = x).
Proof.
  revert declared. induction sheetNames as [|sh l IH]; intros declared;
    cbn [foldl].
  - split; [by left|]. by intros [?|(_ & sh & r & ?%elem_of_nil & _)].
  - rewrite IH. cbv zeta.
    assert (x ∈ (if negb (sheet_exists (parseSheetWithHeaders wb sh ITEM_BASE_HEADERS))
                 then declared
                 else foldl (λ (declared : gset string) r,
                               let identifier :=
                                 normalizeIdentifier (prop (data r) "identifier") in
                               if falsy identifier then declared
                               else {[ identifier ]} ∪ declared)
                            declared
                            (rows (parseSheetWithHeaders wb sh ITEM_BASE_HEADERS)))
            ↔ x ∈ declared
              ∨ (x ≠ "" ∧ ∃ r, r ∈ rows (parseSheetWithHeaders wb sh ITEM_BASE_HEADERS)
                               ∧ normalizeIdentifier (prop (data r) "identifier") = x))
      as ->.
    { destruct (sheet_exists _) eqn:He; cbn [negb]; [apply declared_rows|].
      rewrite (absent_sheet_has_no_rows _ _ _ He).
      split; [by left|]. by intros [?|(_ & r & ?%elem_of_nil & _)]. }
    split.
    + intros [[?|(Hx & r & Hr & Hid)]|(Hx & sh' & r & Hsh & Hr & Hid)].
      * by left.
      * right. split; [done|]. exists sh, r. split; [apply list_elem_of_here|done].
      * right. split; [done|]. exists sh', r.
        split; [by apply list_elem_of_further|done].
    + intros [?|(Hx & sh' & r & [->|Hsh]%elem_of_cons & Hr & Hid)].
      * left. by left.
      * left. right. split; [done|]. by exists r.
      * right. split; [done|]. by exists sh', r.
Qed.

Lemma item_work_rows wb sh hdrs ah r :
  SheetRow sh hdrs ah r ∈ item_work wb →
  sh ∈ itemSheetNames
  ∧ r ∈ rows (parseSheetWithHeaders wb sh ITEM_BASE_HEADERS)
  ∧ hdrs = headers (parseSheetWithHeaders wb sh ITEM_BASE_HEADERS)
  ∧ ah = filter (λ header, Str.startsWith "attr:" header = true) hdrs.
Proof.
  unfold item_work. intros Hin. apply list_elem_of_In, in_concat in Hin
    as (ws & Hws%list_elem_of_In & Hin%list_elem_of_In).
  apply list_elem_of_fmap in Hws as (sh' & -> & Hsh).
  revert Hin. unfold sheet_work. case_match; [by intros ?%elem_of_nil|].
  intros [[=]|(r' & [= -> -> -> ->] & Hr')%list_elem_of_fmap]%elem_of_cons.
  done.
Qed.

(** X13.  [collectDeclaredItemIdentifiers] collects exactly the non-empty
    normalized identifier cells of all rows of the item sheets, also of
    rows that [parseItemSheet] skips or drops.  It holds the identifier of
    every item of the payload, and a parent among these identifiers never
    gets the not-declared warning, wherever its row stands. *)
Theorem declared_item_identifiers (wb : Workbook) :
  (∀ x, x ∈ collectDeclaredItemIdentifiers wb
        ↔ x ≠ ""
          ∧ ∃ sheetName r,
              sheetName ∈ itemSheetNames
              ∧ r ∈ rows (parseSheetWithHeaders wb sheetName ITEM_BASE_HEADERS)
              ∧ normalizeIdentifier (prop (data r) "identifier") = x)
  ∧ (∀ req, req ∈ items (payload (parseAndValidateImportWorkbook wb)) →
            i_identifier req ∈ collectDeclaredItemIdentifiers wb)
  ∧ (∀ sheetName rowNumber parentIdentifier st,
       parentIdentifier ∈ collectDeclaredItemIdentifiers wb →
       warn_unknown_parent (collectDeclaredItemIdentifiers wb) sheetName
         rowNumber parentIdentifier st = st).
Proof.
  assert (∀ x, x ∈ collectDeclaredItemIdentifiers wb
        ↔ x ≠ ""
          ∧ ∃ sheetName r,
              sheetName ∈ itemSheetNames
              ∧ r ∈ rows (parseSheetWithHeaders wb sheetName ITEM_BASE_HEADERS)
              ∧ normalizeIdentifier (prop (data r) "identifier") = x) as Hspec.
  { intros x. unfold collectDeclaredItemIdentifiers. rewrite declared_sheets.
    split; [|by right]. by intros [?%elem_of_empty|?]. }
  split; [done|]. split.
  - intros req Hin.
    change (items (payload (parseAndValidateImportWorkbook wb)))
      with (it_payload (st_items (stages wb))) in Hin.
    rewrite st_items_flat in Hin.
    apply item_run_origin in Hin as (sh & hdrs & ah & r & st & Hw & Hpush).
    rewrite item_step_row in Hpush.
    destruct (item_row_record _ _ _ _ _ _ _ _ _ _ Hpush) as (Hid & Hne & _).
    destruct (item_work_rows _ _ _ _ _ Hw) as (Hsh & Hr & _).
    apply Hspec. split; [done|]. by exists sh, r.
  - intros sheetName rowNumber parentIdentifier st Hin.
    unfold warn_unknown_parent. rewrite (bool_decide_eq_true_2 _ Hin).
    by rewrite !andb_false_r.
Qed.

End Declared.

(** ** What the issues of a run look like *)

Lemma adds_refl P iss : adds P iss iss.
Proof. exists []. by rewrite app_nil_r. Qed.

Lemma adds_trans P a b c : adds P a b → adds P b c → adds P a c.
Proof.
  intros (n1 & -> & H1) (n2 & -> & H2). exists (n1 ++ n2)%list.
  rewrite app_assoc. split; [done|]. by apply Forall_app.
Qed.

Lemma adds_add P a b sev sh r fld msg :
  adds P a b → P (Build_Issue sev sh r fld msg) →
  adds P a (addIssue b sev sh r fld msg).
Proof.
  intros Hab HP. eapply adds_trans; [exact Hab|].
  exists [Build_Issue sev sh r fld msg]. split; [done|]. by repeat constructor.
Qed.

Lemma adds_mono (P Q : Issue → Prop) a b :
  (∀ i, P i → Q i) → adds P a b → adds Q a b.
Proof.
  intros HPQ (n & -> & Hn). exists n. split; [done|].
  eapply Forall_impl; [exact Hn | exact HPQ].
Qed.

Lemma adds_elem P a b i : adds P a b → i ∈ b → i ∈ a ∨ P i.
Proof.
  intros (n & -> & Hn) [?|Hin]%elem_of_app; [by left|right].
  by apply (proj1 (Forall_forall _ _) Hn).
Qed.

Lemma adds_fold {S A} (iss : S → list Issue) (f : S → A → S) (l : list A) P :
  (∀ st x, x ∈ l → adds P (iss st) (iss (f st x))) →
  ∀ st, adds P (iss st) (iss (foldl f st l)).
Proof.
  induction l as [|x l IH]; intros Hf st; cbn [foldl]; [apply adds_refl|].
  eapply adds_trans; [apply Hf, list_elem_of_here|].
  apply IH. intros st' y Hy. by apply Hf, list_elem_of_further.
Qed.

Ltac solve_adds HP :=
  repeat (apply adds_add; [|first [apply HP; by simpl | done]]);
  apply adds_refl.

Section IssueShape.
Context `{Host}.

Lemma missingHeaderIssues_adds P iss sh missing :
  (∀ h, h ∈ missing → P (header_issue sh h)) →
  adds P iss (missingHeaderIssues iss sh missing).
Proof.
  intros HP. rewrite missingHeaderIssues_eq. eexists. split; [done|].
  apply Forall_forall. intros i (h & -> & Hh)%list_elem_of_fmap. by apply HP.
Qed.

Lemma config_row_adds P st r :
  (∀ fld msg, fld ≠ "" →
     P (Build_Issue error SHEETS.CONFIG (Some (rowNumber r)) fld msg)) →
  adds P st.1 (config_row st r).1.
Proof.
  intros HP. destruct st as [iss kv]. unfold config_row.
  row_cases; cbn [fst]; solve_adds HP.
Qed.

Lemma group_row_adds P config st r :
  (∀ fld msg, fld ≠ "" →
     P (Build_Issue error SHEETS.GROUPS (Some (rowNumber r)) fld msg)) →
  adds P (acc_issues st) (acc_issues (group_row config st r)).
Proof.
  intros HP. unfold group_row.
  row_cases; cbn [report emit acc_issues]; solve_adds HP.
Qed.

Lemma type_row_adds P config st r :
  (∀ fld msg, fld ≠ "" →
     P (Build_Issue error SHEETS.TYPES (Some (rowNumber r)) fld msg)) →
  adds P (acc_issues st) (acc_issues (type_row config st r)).
Proof.
  intros HP. unfold type_row.
  row_cases; cbn [report emit acc_issues]; solve_adds HP.
Qed.

Lemma binding_row_adds P gs ts st r :
  (∀ sev fld msg, fld ≠ "" →
     P (Build_Issue sev SHEETS.TYPE_GROUP_BINDINGS (Some (rowNumber r)) fld msg)) →
  adds P st.1 (binding_row gs ts st r).1.
Proof.
  intros HP. destruct st as [iss bm]. unfold binding_row.
  row_cases; cbn [fst]; solve_adds HP.
Qed.

Lemma type_warnings_adds P tm rn l iss :
  (∀ msg, P (Build_Issue warning SHEETS.ATTRIBUTES rn "valid_types_csv" msg)) →
  adds P iss (type_warnings tm rn iss l).
Proof.
  intros HP. unfold type_warnings.
  apply (adds_fold (λ iss, iss)). intros iss' t _.
  case_match; solve_adds HP.
Qed.

Lemma attribute_row_adds P config gm tm bm st r :
  (∀ sev fld msg, fld ≠ "" →
     P (Build_Issue sev SHEETS.ATTRIBUTES (Some (rowNumber r)) fld msg)) →
  adds P (acc_issues st) (acc_issues (attribute_row config gm tm bm st r)).
Proof.
  intros HP. unfold attribute_row.
  row_cases; cbn [report emit acc_issues]; try solve_adds HP.
  all: apply type_warnings_adds; intros; by apply HP.
Qed.

Lemma json_value_step_adds P sh rn config am st entry :
  (∀ sev fld msg, fld ≠ "" → P (Build_Issue sev sh rn fld msg)) →
  adds P st.1 (json_value_step sh rn config am st entry).1.
Proof.
  intros HP. destruct st as [iss values], entry as [k raw].
  unfold json_value_step. row_cases; cbn [fst]; solve_adds HP.
Qed.

Lemma attr_column_step_adds P sh rn config am data st header :
  header ≠ "" →
  (∀ sev fld msg, fld ≠ "" → P (Build_Issue sev sh rn fld msg)) →
  adds P st.1 (attr_column_step sh rn config am data st header).1.
Proof.
  intros Hh HP. destruct st as [iss values].
  unfold attr_column_step. row_cases; cbn [fst]; solve_adds HP.
Qed.

Lemma item_values_adds P sh rn config am ah data parsedValues iss :
  (∀ h, h ∈ ah → h ≠ "") →
  (∀ sev fld msg, fld ≠ "" → P (Build_Issue sev sh rn fld msg)) →
  adds P iss (item_values sh rn config am ah data parsedValues iss).1.
Proof.
  intros Hah HP. unfold item_values.
  eapply adds_trans;
    [|apply (adds_fold fst (attr_column_step sh rn config am data) ah P)].
  - apply (adds_fold fst (json_value_step sh rn config am) parsedValues P
             (λ st e _, json_value_step_adds P sh rn config am st e HP)
             (iss, parsedValues)).
  - intros st h Hh. apply attr_column_step_adds; [by apply Hah | done].
Qed.

Lemma item_row_adds P sh config am tm declared hdrs ah st r :
  (∀ h, h ∈ ah → h ≠ "") →
  (∀ sev fld msg, fld ≠ "" →
     P (Build_Issue sev sh (Some (rowNumber r)) fld msg)) →
  adds P (it_issues st) (it_issues (item_row sh config am tm declared hdrs ah st r)).
Proof.
  intros Hah HP.
  unfold item_row, item_checked, warn_unknown_type, warn_unknown_parent,
    item_emit.
  row_cases; cbn [item_report item_reserve it_issues]; try solve_adds HP.
  all: match goal with
       | Hv : item_values ?a ?b ?c ?d ?e ?f ?g ?iss = (?l, _) |- adds _ ?iss0 ?l =>
           pose proof (item_values_adds P a b c d e f g iss Hah HP) as Hvalues;
           rewrite Hv in Hvalues; cbn [fst] in Hvalues;
           eapply adds_trans; [|exact Hvalues]
       end.
  all: cbn [item_report item_reserve it_issues]; solve_adds HP.
Qed.

Lemma rows_numbered wb sh hs r :
  r ∈ rows (parseSheetWithHeaders wb sh hs) → (2 ≤ rowNumber r)%nat.
Proof.
  unfold parseSheetWithHeaders. case_match; cbn [rows];
    [|by intros ?%elem_of_nil].
  intros (k & Hk)%list_elem_of_lookup. rewrite list_lookup_imap in Hk.
  destruct (tail _ !! k); [|done]. injection Hk as <-. cbn. lia.
Qed.

Lemma missing_headers_required wb sh hs h :
  h ∈ missingHeaders (parseSheetWithHeaders wb sh hs) → h ∈ hs.
Proof.
  unfold parseSheetWithHeaders. case_match; cbn [missingHeaders]; [|done].
  by intros [_ ?]%list_elem_of_filter.
Qed.

Lemma issue_ok_row sh sev n fld msg :
  sh ∈ requiredSheets → fld ≠ "" → n ≠ 0 →
  issue_ok (Build_Issue sev sh (Some n) fld msg).
Proof. intros. split; [done|]. split; [done|]. cbn. congruence. Qed.

Lemma issue_ok_sheet sh sev fld msg :
  sh ∈ requiredSheets → fld ≠ "" →
  issue_ok (Build_Issue sev sh None fld msg).
Proof. intros. by split; [|split]. Qed.

Lemma item_sheet_required sh : sh ∈ itemSheetNames → sh ∈ requiredSheets.
Proof. intros Hsh. unfold requiredSheets. cbn [app]. by do 5 apply list_elem_of_further. Qed.

Lemma headers_ok wb sh hs iss :
  sh ∈ requiredSheets → Forall (λ h, h ≠ "") hs →
  adds issue_ok iss
    (missingHeaderIssues iss sh (missingHeaders (parseSheetWithHeaders wb sh hs))).
Proof.
  intros Hsh Hhs. apply missingHeaderIssues_adds. intros h Hh.
  apply issue_ok_row; [done| |done].
  apply missing_headers_required in Hh.
  by apply (proj1 (Forall_forall _ _) Hhs).
Qed.

Lemma rows_ok {St} (issf : St → list Issue) (f : St → Row → St) wb sh hs st :
  sh ∈ requiredSheets →
  (∀ st r,
     (∀ sev fld msg, fld ≠ "" →
        issue_ok (Build_Issue sev sh (Some (rowNumber r)) fld msg)) →
     adds issue_ok (issf st) (issf (f st r))) →
  adds issue_ok (issf st)
    (issf (foldl f st (rows (parseSheetWithHeaders wb sh hs)))).
Proof.
  intros Hsh Hf. apply adds_fold. intros st' r Hr. apply Hf.
  intros sev fld msg Hfld. apply issue_ok_row; [done|done|].
  apply rows_numbered in Hr. lia.
Qed.

Ltac nonempty_headers := repeat constructor; done.

Lemma ensureRequiredSheets_ok wb iss :
  adds issue_ok iss (ensureRequiredSheets wb iss).
Proof.
  rewrite ensureRequiredSheets_eq. eexists. split; [done|].
  apply Forall_forall.
  intros i (sh & -> & [_ Hsh]%list_elem_of_filter)%list_elem_of_fmap.
  by apply issue_ok_sheet.
Qed.

Lemma parseConfig_ok wb iss : adds issue_ok iss (parseConfig wb iss).2.
Proof.
  unfold parseConfig. case_match; [apply adds_refl|].
  pose proof (rows_ok fst config_row wb SHEETS.CONFIG CONFIG_HEADERS
                (missingHeaderIssues iss SHEETS.CONFIG
                   (missingHeaders (parseSheetWithHeaders wb SHEETS.CONFIG
                                      CONFIG_HEADERS)), ∅)) as Hrows.
  destruct (foldl config_row _ _) as [issues kv]. cbv zeta. cbn [fst snd] in *.
  assert (adds issue_ok iss issues) as Hissues.
  { eapply adds_trans;
    [apply (headers_ok wb SHEETS.CONFIG CONFIG_HEADERS); [in_list | nonempty_headers]|].
    apply Hrows; [in_list|]. intros st r HP. apply config_row_adds.
    intros. by apply HP. }
  row_cases;
    repeat (apply adds_add; [|apply issue_ok_sheet; [in_list | done]]);
    exact Hissues.
Qed.

Lemma parseAttributeGroups_ok wb config iss :
  adds issue_ok iss (acc_issues (parseAttributeGroups wb config iss)).
Proof.
  unfold parseAttributeGroups. case_match; [apply adds_refl|].
  eapply adds_trans;
    [apply (headers_ok wb SHEETS.GROUPS GROUP_HEADERS); [in_list | nonempty_headers]|].
  apply (rows_ok acc_issues (group_row config) wb SHEETS.GROUPS GROUP_HEADERS
           (mkAcc _ ∅ [])); [in_list|].
  intros st r HP. apply group_row_adds. intros. by apply HP.
Qed.

Lemma type_check_adds P byId iss t :
  (∀ sev msg, P (Build_Issue sev SHEETS.TYPES None "parent_identifier" msg)) →
  adds P iss (type_check byId iss t).
Proof. intros HP. unfold type_check. row_cases; solve_adds HP. Qed.

Lemma parseTypes_ok wb config iss :
  adds issue_ok iss (acc_issues (parseTypes wb config iss)).
Proof.
  unfold parseTypes. case_match; [apply adds_refl|]. cbn [acc_issues].
  eapply adds_trans;
    [apply (headers_ok wb SHEETS.TYPES TYPE_HEADERS); [in_list | nonempty_headers]|].
  eapply adds_trans.
  - apply (rows_ok acc_issues (type_row config) wb SHEETS.TYPES TYPE_HEADERS
             (mkAcc _ ∅ [])); [in_list|].
    intros st r HP. apply type_row_adds. intros. by apply HP.
  - apply (adds_fold (λ iss, iss)). intros iss' t _. apply type_check_adds.
    intros. apply issue_ok_sheet; [in_list | done].
Qed.

Lemma parseTypeGroupBindings_ok wb gs ts iss :
  adds issue_ok iss (parseTypeGroupBindings wb gs ts iss).1.
Proof.
  unfold parseTypeGroupBindings. case_match; [apply adds_refl|].
  eapply adds_trans;
    [apply (headers_ok wb SHEETS.TYPE_GROUP_BINDINGS
                  TYPE_GROUP_BINDING_HEADERS); [in_list | nonempty_headers]|].
  apply (rows_ok fst (binding_row gs ts) wb SHEETS.TYPE_GROUP_BINDINGS
           TYPE_GROUP_BINDING_HEADERS (_, ∅)); [in_list|].
  intros st r HP. by apply binding_row_adds.
Qed.

Lemma parseAttributes_ok wb config gm tm bm iss :
  adds issue_ok iss (acc_issues (parseAttributes wb config gm tm bm iss)).
Proof.
  unfold parseAttributes. case_match; [apply adds_refl|].
  eapply adds_trans;
    [apply (headers_ok wb SHEETS.ATTRIBUTES ATTRIBUTE_HEADERS); [in_list | nonempty_headers]|].
  apply (rows_ok acc_issues (attribute_row config gm tm bm) wb
           SHEETS.ATTRIBUTES ATTRIBUTE_HEADERS (mkAcc _ ∅ [])); [in_list|].
  intros st r HP. by apply attribute_row_adds.
Qed.

Lemma item_work_start wb sh missing :
  SheetStart sh missing ∈ item_work wb →
  sh ∈ itemSheetNames
  ∧ missing = missingHeaders (parseSheetWithHeaders wb sh ITEM_BASE_HEADERS).
Proof.
  unfold item_work. intros Hin. apply list_elem_of_In, in_concat in Hin
    as (ws & Hws%list_elem_of_In & Hin%list_elem_of_In).
  apply list_elem_of_fmap in Hws as (sh' & -> & Hsh).
  revert Hin. unfold sheet_work. case_match; [by intros ?%elem_of_nil|].
  by intros [[= -> ->]|(r' & [=] & _)%list_elem_of_fmap]%elem_of_cons.
Qed.

Lemma attr_headers_nonempty (hdrs : list string) h :
  h ∈ filter (λ header, Str.startsWith "attr:" header = true) hdrs → h ≠ "".
Proof. by intros [Hh _]%list_elem_of_filter ->. Qed.

Lemma item_step_ok wb st w :
  w ∈ item_work wb →
  adds issue_ok (it_issues st) (it_issues (item_step wb st w)).
Proof.
  intros Hw. destruct w as [sh missing|sh hdrs ah r].
  - destruct (item_work_start _ _ _ Hw) as [Hsh ->]. cbn.
    apply headers_ok; [by apply item_sheet_required | nonempty_headers].
  - destruct (item_work_rows _ _ _ _ _ Hw) as (Hsh & Hr & _ & ->).
    rewrite item_step_row. apply item_row_adds.
    + apply attr_headers_nonempty.
    + intros sev fld msg Hfld.
      apply issue_ok_row; [by apply item_sheet_required | done |].
      apply rows_numbered in Hr. lia.
Qed.

Lemma all_issues_ok wb issue : issue ∈ all_issues wb → issue_ok issue.
Proof.
  intros Hin.
  assert (adds issue_ok [] (all_issues wb)) as Hadds.
  { unfold all_issues. rewrite st_items_flat.
    pose proof (item_run_app wb [] (item_work wb)) as Hrun.
    cbn [app] in Hrun. rewrite Hrun. clear Hrun.
    apply (adds_trans _ _ (it_issues (item_run wb [])));
      [|apply (adds_fold it_issues (item_step wb) (item_work wb) issue_ok
                 (λ st w Hw, item_step_ok wb st w Hw))].
    unfold item_run. cbn [foldl it_issues]. unfold stages. cbn [st_attributes].
    eapply adds_trans; [|apply parseAttributes_ok].
    eapply adds_trans; [|apply parseTypeGroupBindings_ok].
    eapply adds_trans; [|apply parseTypes_ok].
    eapply adds_trans; [|apply parseAttributeGroups_ok].
    eapply adds_trans; [|apply parseConfig_ok].
    apply ensureRequiredSheets_ok. }
  by destruct (adds_elem _ _ _ _ Hadds Hin) as [?%elem_of_nil|?].
Qed.

(** X15.  Every error and every warning of a run names one of the nine
    required sheets and a non-empty field, and its row is [null] or at
    least 1. *)
Theorem issues_name_a_sheet_and_a_field (wb : Workbook) (issue : Issue) :
  let result := parseAndValidateImportWorkbook wb in
  issue ∈ errors result ∨ issue ∈ warnings result →
  sheet issue ∈ requiredSheets
  ∧ field issue ≠ ""
  ∧ (row issue = None ∨ ∃ n, row issue = Some n ∧ (1 ≤ n)%nat).
Proof.
  intros result Hin.
  assert (issue ∈ all_issues wb) as Hall.
  { destruct Hin as [Hin|Hin];
      apply list_elem_of_In, filter_In in Hin as [Hin _];
      by apply list_elem_of_In. }
  destruct (all_issues_ok wb issue Hall) as (Hsheet & Hfield & Hrow).
  split; [done|]. split; [done|].
  destruct (row issue) as [n|]; [right|by left].
  exists n. split; [done|]. destruct n; [done|lia].
Qed.

End IssueShape.

Lemma string_length_app (s t : string) :
  String.length (s ++ t) = (String.length s + String.length t)%nat.
Proof. induction s as [|c s IH]; simpl; [done|]. by rewrite IH. Qed.

Lemma string_app_inv_tail (s1 s2 t : string) : s1 ++ t = s2 ++ t → s1 = s2.
Proof.
  revert s2. induction s1 as [|c s1 IH]; intros [|c' s2] Heq.
  - done.
  - apply (f_equal String.length) in Heq.
    rewrite !string_length_app in Heq. cbn [String.length] in Heq. lia.
  - apply (f_equal String.length) in Heq.
    rewrite !string_length_app in Heq. cbn [String.length] in Heq. lia.
  - change (String c (s1 ++ t) = String c' (s2 ++ t)) in Heq.
    injection Heq as -> Heq. f_equal. by apply IH.
Qed.

Section SecondPass.
Context `{Host}.

(** X16.  For every error and every warning of a run, [formatIssue] shows
    the sheet, the row when there is one, the field in brackets and the
    message: no issue of the parser falls into the branches that leave out
    a row 0 or an empty field. *)
Theorem formatIssue_shows_row_and_field (wb : Workbook) (issue : Issue) :
  let result := parseAndValidateImportWorkbook wb in
  issue ∈ errors result ∨ issue ∈ warnings result →
  formatIssue issue
  = (sheet issue ++ row_text (row issue))
    ++ (" [" ++ field issue ++ "]") ++ " - " ++ message issue.
Proof.
  intros result Hin.
  assert (issue ∈ all_issues wb) as Hall.
  { destruct Hin as [Hin|Hin];
      apply list_elem_of_In, filter_In in Hin as [Hin _];
      by apply list_elem_of_In. }
  destruct (all_issues_ok wb issue Hall) as (_ & Hfield & Hrow).
  unfold formatIssue, row_text.
  apply falsy_false in Hfield. rewrite Hfield.
  destruct (row issue) as [n|]; [|done].
  rewrite bool_decide_eq_false_2; [done|]. congruence.
Qed.

Lemma unknown_parent_type_issue_inj p q :
  unknown_parent_type_issue p = unknown_parent_type_issue q → p = q.
Proof.
  unfold unknown_parent_type_issue. intros [= Heq].
  exact (string_app_inv_tail p q _ Heq).
Qed.

Lemma type_check_eq byId iss t :
  type_check byId iss t = (iss ++ second_pass byId t)%list.
Proof.
  unfold type_check, second_pass, addIssue.
  repeat case_match; cbn [app]; rewrite ?app_nil_r, <- ?app_assoc; done.
Qed.

Lemma type_checks_eq byId (l : list TypeRequest) iss :
  foldl (type_check byId) iss l
  = (iss ++ List.concat (second_pass byId <$> l))%list.
Proof.
  revert iss. induction l as [|t l IH]; intros iss; cbn [foldl].
  - cbn. by rewrite app_nil_r.
  - rewrite IH, type_check_eq, fmap_cons. cbn [List.concat].
    by rewrite <- app_assoc.
Qed.

Lemma unknown_in_second_pass byId t p :
  unknown_parent_type_issue p ∈ second_pass byId t
  ↔ t_parentIdentifier t = Some p ∧ p ≠ "" ∧ byId !! p = None.
Proof.
  unfold second_pass. rewrite elem_of_app. split.
  - intros [Hw|He].
    + destruct (t_parentIdentifier t) as [q|]; [|by apply elem_of_nil in Hw].
      destruct (falsy q) eqn:Hf; cbn [negb andb] in Hw;
        [by apply elem_of_nil in Hw|].
      destruct (bool_decide (is_Some (byId !! q))) eqn:Hk; cbn [negb] in Hw;
        [by apply elem_of_nil in Hw|].
      apply list_elem_of_singleton, unknown_parent_type_issue_inj in Hw as ->.
      split; [done|]. split; [by apply falsy_false|].
      apply bool_decide_eq_false in Hk. by apply eq_None_not_Some.
    + case_bool_decide; [|by apply elem_of_nil in He].
      apply list_elem_of_singleton in He. discriminate.
  - intros (Hp & Hne & Hnone). left. rewrite Hp.
    apply falsy_false in Hne. rewrite Hne.
    rewrite bool_decide_eq_false_2; [apply list_elem_of_here|].
    rewrite Hnone. by intros [? ?].
Qed.

(** X14.  [parseTypes] checks parents in a second pass, against the
    complete table: it adds the warning for an unknown parent type exactly
    for the parents of payload records that the table does not hold, so a
    parent that a later row declares raises no warning. *)
Theorem unknown_parent_type_warning (wb : Workbook) (config : Config)
    (issues : list Issue) (parent : string) :
  let typs := parseTypes wb config issues in
  unknown_parent_type_issue parent ∈ acc_issues typs
  ↔ unknown_parent_type_issue parent ∈ issues
    ∨ (acc_byIdentifier typs !! parent = None
       ∧ ∃ t, t ∈ acc_payload typs ∧ t_parentIdentifier t = Some parent).
Proof.
  cbv zeta. split.
  - unfold parseTypes at 1. case_match eqn:Hexists; [by left|].
    cbn [acc_issues]. rewrite type_checks_eq.
    intros [Hin|Hin]%elem_of_app.
    + left.
      assert (adds (λ i, severity i = error) issues
                (acc_issues
                   (foldl (type_row config)
                      (mkAcc (missingHeaderIssues issues SHEETS.TYPES
                                (missingHeaders
                                   (parseSheetWithHeaders wb SHEETS.TYPES
                                      TYPE_HEADERS))) ∅ [])
                      (rows (parseSheetWithHeaders wb SHEETS.TYPES TYPE_HEADERS)))))
        as Hadds.
      { eapply adds_trans; [by apply missingHeaderIssues_adds|].
        apply (adds_fold acc_issues (type_row config) _ _
                 (λ st r _, type_row_adds _ config st r (λ _ _ _, eq_refl))
                 (mkAcc _ ∅ [])). }
      by destruct (adds_elem _ _ _ _ Hadds Hin) as [?|[=]].
    + right. apply list_elem_of_In, in_concat in Hin
        as (new & Hnew%list_elem_of_In & Hin%list_elem_of_In).
      apply list_elem_of_fmap in Hnew as (t & -> & Ht).
      apply unknown_in_second_pass in Hin as (Hp & _ & Hnone).
      unfold parseTypes. rewrite Hexists. cbn [acc_byIdentifier acc_payload].
      split; [done|]. by exists t.
  - intros [Hin|(Hnone & t & Ht & Hp)].
    + eapply elem_of_prefix; [exact Hin | apply parseTypes_prefix].
    + pose proof (parseTypes_parent _ _ _ _ Ht) as Hne.
      revert Hnone Ht. unfold parseTypes.
      case_match eqn:Hexists; [by intros _ ?%elem_of_nil|].
      cbn [acc_issues acc_byIdentifier acc_payload]. intros Hnone Ht.
      rewrite type_checks_eq. apply elem_of_app. right.
      apply list_elem_of_In, in_concat. eexists.
      split; apply list_elem_of_In.
      * apply list_elem_of_fmap. exists t. split; [reflexivity | exact Ht].
      * apply unknown_in_second_pass. split; [done|]. split; [congruence|done].
Qed.

End SecondPass.

Section Split.
Context `{Host}.

Lemma filter_severity_length (issues : list Issue) :
  (List.length (List.filter is_error issues)
   + List.length (List.filter is_warning issues))%nat
  = List.length issues.
Proof.
  induction issues as [|i l IH]; [done|]. cbn [List.filter].
  unfold is_error at 1, is_warning at 1.
  repeat case_bool_decide; cbn [List.length]; try lia; try congruence.
  by destruct (severity i).
Qed.

(** X17.  Every issue of a run is among the errors or among the warnings
    and never in both, and the two counts of the summary add up to the
    number of issues. *)
Theorem every_issue_is_an_error_or_a_warning (wb : Workbook) :
  let result := parseAndValidateImportWorkbook wb in
  (∀ issue, issue ∈ all_issues wb
            ↔ issue ∈ errors result ∨ issue ∈ warnings result)
  ∧ (∀ issue, issue ∈ errors result → issue ∉ warnings result)
  ∧ (s_errors (summary result) + s_warnings (summary result))%nat
    = List.length (all_issues wb).
Proof.
  intros result.
  assert (errors result = List.filter is_error (all_issues wb)) as He
    by reflexivity.
  assert (warnings result = List.filter is_warning (all_issues wb)) as Hw
    by reflexivity.
  assert (s_errors (summary result) = List.length (errors result)) as Hse
    by reflexivity.
  assert (s_warnings (summary result) = List.length (warnings result)) as Hsw
    by reflexivity.
  rewrite Hse, Hsw, He, Hw. clear He Hw Hse Hsw.
  split; [|split].
  - intros issue. rewrite !list_elem_of_In, !filter_In.
    unfold is_error, is_warning. rewrite !bool_decide_eq_true.
    destruct (severity issue); naive_solver.
  - intros issue. rewrite !list_elem_of_In, !filter_In.
    unfold is_error, is_warning. rewrite !bool_decide_eq_true.
    intros [_ He] [_ Hw]. congruence.
  - apply filter_severity_length.
Qed.

End Split.

Section NoSheets.
Context `{Host}.

Lemma parseSheetWithHeaders_absent wb sh hs :
  Sheets wb !! sh = None →
  parseSheetWithHeaders wb sh hs
  = {| sheet_exists := false; headers := []; rows := [];
       missingHeaders := hs |}.
Proof. intros Hsh. unfold parseSheetWithHeaders. by rewrite Hsh. Qed.

Lemma parseItemSheet_absent wb sh config am tm seen declared iss :
  Sheets wb !! sh = None →
  parseItemSheet wb sh config am tm seen declared iss = mkItemAcc iss seen [].
Proof.
  intros Hsh. unfold parseItemSheet.
  by rewrite parseSheetWithHeaders_absent.
Qed.

Lemma parseItemSheets_absent wb config am tm declared st sheetNames :
  Sheets wb = ∅ →
  parseItemSheets wb config am tm declared st sheetNames = st.
Proof.
  intros Hempty. unfold parseItemSheets. revert st.
  induction sheetNames as [|sh l IH]; intros st; [done|]. cbn [foldl].
  rewrite parseItemSheet_absent by (by rewrite Hempty, lookup_empty).
  cbn [it_issues it_seen it_payload]. rewrite app_nil_r, IH. by destruct st.
Qed.

Lemma stages_without_sheets wb :
  Sheets wb = ∅ →
  st_config (stages wb) = default_config
  ∧ st_groups (stages wb) = mkAcc (ensureRequiredSheets wb []) ∅ []
  ∧ st_types (stages wb) = mkAcc (ensureRequiredSheets wb []) ∅ []
  ∧ st_attributes (stages wb) = mkAcc (ensureRequiredSheets wb []) ∅ []
  ∧ st_items (stages wb) = mkItemAcc (ensureRequiredSheets wb []) ∅ [].
Proof.
  intros Hempty.
  assert (∀ sh hs, parseSheetWithHeaders wb sh hs
                   = {| sheet_exists := false; headers := []; rows := [];
                        missingHeaders := hs |}) as Habsent.
  { intros sh hs. apply parseSheetWithHeaders_absent.
    by rewrite Hempty, lookup_empty. }
  assert (∀ iss, parseConfig wb iss = (default_config, iss)) as Hconfig.
  { intros iss. unfold parseConfig. by rewrite Habsent. }
  assert (∀ config iss, parseAttributeGroups wb config iss = mkAcc iss ∅ [])
    as Hgroups.
  { intros config iss. unfold parseAttributeGroups. by rewrite Habsent. }
  assert (∀ config iss, parseTypes wb config iss = mkAcc iss ∅ []) as Htypes.
  { intros config iss. unfold parseTypes. by rewrite Habsent. }
  assert (∀ gs ts iss, parseTypeGroupBindings wb gs ts iss = (iss, ∅))
    as Hbindings.
  { intros gs ts iss. unfold parseTypeGroupBindings. by rewrite Habsent. }
  assert (∀ config gm tm bm iss,
            parseAttributes wb config gm tm bm iss = mkAcc iss ∅ []) as Hattrs.
  { intros config gm tm bm iss. unfold parseAttributes. by rewrite Habsent. }
  unfold stages. cbn [st_config st_groups st_types st_attributes st_items].
  rewrite parseItemSheets_absent by done.
  rewrite Hattrs, Hbindings, Htypes, Hgroups, Hconfig. done.
Qed.

(** X18.  A workbook that holds no sheet: the only issues are the errors
    for the required sheets that [SheetNames] does not list, the payload is
    empty with the default mode and error policy, and the run is valid
    exactly when [SheetNames] lists all nine sheets. *)
Theorem workbook_without_sheets (wb : Workbook) :
  Sheets wb = ∅ →
  let result := parseAndValidateImportWorkbook wb in
  all_issues wb
  = missing_sheet_issue <$> filter (λ sh, sh ∉ SheetNames wb) requiredSheets
  ∧ p_config (payload result) = ("CREATE_UPDATE", "PROCESS_WARN")
  ∧ attrGroups (payload result) = []
  ∧ attributes (payload result) = []
  ∧ types (payload result) = []
  ∧ items (payload result) = []
  ∧ (valid result = true ↔ ∀ sh, sh ∈ requiredSheets → sh ∈ SheetNames wb).
Proof.
  intros Hempty result.
  destruct (stages_without_sheets wb Hempty)
    as (Hconfig & Hgroups & Htypes & Hattrs & Hitems).
  assert (all_issues wb
          = missing_sheet_issue
              <$> filter (λ sh, sh ∉ SheetNames wb) requiredSheets) as Hall.
  { unfold all_issues. rewrite Hitems. cbn [it_issues].
    by rewrite ensureRequiredSheets_eq. }
  split; [done|].
  change (p_config (payload result))
    with (cfg_mode (st_config (stages wb)), cfg_errors (st_config (stages wb))).
  change (attrGroups (payload result)) with (acc_payload (st_groups (stages wb))).
  change (attributes (payload result))
    with (acc_payload (st_attributes (stages wb))).
  change (types (payload result)) with (acc_payload (st_types (stages wb))).
  change (items (payload result)) with (it_payload (st_items (stages wb))).
  rewrite Hconfig, Hgroups, Htypes, Hattrs, Hitems.
  split; [done|]. split; [done|]. split; [done|]. split; [done|].
  split; [done|].
  change (valid result)
    with (bool_decide (List.length (List.filter is_error (all_issues wb)) = 0)).
  rewrite bool_decide_eq_true, no_error_iff, Hall. split.
  - intros Hwarn sh Hsh.
    destruct (decide (sh ∈ SheetNames wb)) as [|Hmissing]; [done|].
    assert (severity (missing_sheet_issue sh) = warning) as Hsev; [|done].
    apply Hwarn, list_elem_of_fmap. exists sh. split; [done|].
    by apply list_elem_of_filter.
  - intros Hlisted issue (sh & -> & [Hmissing Hsh]%list_elem_of_filter)%list_elem_of_fmap.
    by destruct (Hmissing (Hlisted sh Hsh)).
Qed.

End NoSheets.

Section ConfigRows.
Context `{Host}.

Lemma config_row_key st r :
  rowHasAnyValue (data r) CONFIG_HEADERS = true →
  config_key r ≠ "" →
  (config_row st r).2
  = <[config_key r := toText (prop (data r) "value")]> st.2.
Proof.
  intros Hany Hkey. destruct st as [iss kv]. unfold config_row.
  rewrite Hany. apply falsy_false in Hkey. unfold config_key in Hkey.
  by rewrite Hkey.
Qed.

Lemma config_row_other st r k :
  config_key r ≠ k → (config_row st r).2 !! k = st.2 !! k.
Proof.
  intros Hkey. destruct st as [iss kv]. unfold config_row.
  repeat case_match; cbn [snd]; try done.
  by rewrite lookup_insert_ne.
Qed.

Lemma config_rows_other (rs : list Row) st k :
  (∀ r, r ∈ rs → config_key r ≠ k) →
  (foldl config_row st rs).2 !! k = st.2 !! k.
Proof.
  revert st. induction rs as [|r l IH]; intros st Hrs; [done|].
  cbn [foldl]. rewrite IH by (intros; by apply Hrs, list_elem_of_further).
  apply config_row_other, Hrs, list_elem_of_here.
Qed.

Lemma config_rows_last before r after st :
  rowHasAnyValue (data r) CONFIG_HEADERS = true →
  config_key r ≠ "" →
  (∀ r', r' ∈ after → config_key r' ≠ config_key r) →
  (foldl config_row st (before ++ r :: after)).2 !! config_key r
  = Some (toText (prop (data r) "value")).
Proof.
  intros Hany Hkey Hafter. rewrite foldl_app. cbn [foldl].
  rewrite config_rows_other by done.
  rewrite config_row_key by done. apply lookup_insert_eq.
Qed.

(** X19.  In Import_Config the last row of a key decides its value; keys
    are compared in lower case; a blank value stands for the default.  The
    mode and the error policy are read in upper case, the default language
    in lower case. *)
Theorem config_last_row_wins (wb : Workbook) (issues : list Issue)
    (before after : list Row) (r : Row) :
  let parsed := parseSheetWithHeaders wb SHEETS.CONFIG CONFIG_HEADERS in
  let value := toText (prop (data r) "value") in
  let config := (parseConfig wb issues).1 in
  sheet_exists parsed = true →
  rows parsed = (before ++ r :: after)%list →
  rowHasAnyValue (data r) CONFIG_HEADERS = true →
  (∀ r', r' ∈ after → config_key r' ≠ config_key r) →
  (config_key r = "mode" →
   cfg_mode config
   = Str.toUpperCase (if falsy value then "CREATE_UPDATE" else value))
  ∧ (config_key r = "errors" →
     cfg_errors config
     = Str.toUpperCase (if falsy value then "PROCESS_WARN" else value))
  ∧ (config_key r = "default_language" →
     cfg_defaultLanguage config
     = Str.toLowerCase (if falsy value then "en" else value)).
Proof.
  intros parsed value config Hexists Hrows Hany Hafter.
  assert (config_key r ≠ "" →
          ∃ iss kv, parseConfig wb issues
                    = ({| cfg_mode := Str.toUpperCase (get_or kv "mode" "CREATE_UPDATE");
                          cfg_errors := Str.toUpperCase (get_or kv "errors" "PROCESS_WARN");
                          cfg_defaultLanguage :=
                            Str.toLowerCase (get_or kv "default_language" "en") |},
                       iss)
                    ∧ kv !! config_key r = Some value) as Hkv.
  { intros Hkey. unfold parseConfig. fold parsed. rewrite Hexists, Hrows.
    cbn [negb].
    pose proof (config_rows_last before r after
                  (missingHeaderIssues issues SHEETS.CONFIG
                     (missingHeaders parsed), ∅) Hany Hkey Hafter) as Hlast.
    destruct (foldl config_row _ _) as [iss kv]. cbv zeta.
    eexists _, kv. split; [reflexivity | exact Hlast]. }
  split; [|split]; intros Hkey; rewrite Hkey in Hkv;
    destruct Hkv as (iss & kv & Hconfig & Hlookup); [done| |done| |done|];
    unfold config; rewrite Hconfig; cbn [fst cfg_mode cfg_errors
                                         cfg_defaultLanguage];
    unfold get_or; by rewrite Hlookup.
Qed.

End ConfigRows.

(** ** Normalization *)

Lemma toLowerCase_empty s : Str.toLowerCase s = "" ↔ s = "".
Proof. by destruct s. Qed.

Section Normalization.
Context `{Host}.

Lemma toText_trimmed v : Str.trim (toText v) = toText v.
Proof.
  unfold toText. destruct v; try apply trim_idem; reflexivity.
Qed.

(** X20.  Normalizing is idempotent: the text of a text cell that is
    already trimmed is itself, a normalized identifier is its own
    normalized form and its own text.  The normalized identifier of a value
    is empty exactly when its text is, and a blank value has an empty
    text. *)
Theorem normalization_is_idempotent (value : jsval) :
  toText (JStr (toText value)) = toText value
  ∧ normalizeIdentifier (JStr (normalizeIdentifier value))
    = normalizeIdentifier value
  ∧ toText (JStr (normalizeIdentifier value)) = normalizeIdentifier value
  ∧ (normalizeIdentifier value = "" ↔ toText value = "")
  ∧ (isBlank value = true → toText value = "").
Proof.
  split; [apply toText_trimmed|]. split; [apply normalizeIdentifier_fixed|].
  split; [|split; [apply toLowerCase_empty | apply isBlank_toText]].
  change (toText (JStr (normalizeIdentifier value)))
    with (Str.trim (Str.toLowerCase (toText value))).
  unfold normalizeIdentifier, Str.trim.
  rewrite trimStart_toLowerCase, trimEnd_toLowerCase.
  fold (Str.trim (toText value)). by rewrite toText_trimmed.
Qed.

End Normalization.

(** ** The binding map *)

Section BindingMap.
Context `{Host}.

Lemma binding_row_map gs ts st r :
  (binding_row gs ts st r).2
  = match binding_of_row r with
    | Some (g, b) => <[g := (default [] (st.2 !! g) ++ [b])%list]> st.2
    | None => st.2
    end.
Proof.
  destruct st as [iss bm]. unfold binding_row, binding_of_row.
  repeat case_match; simplify_eq; cbn [fst snd]; done.
Qed.

Lemma binding_rows_map gs ts (rs : list Row) st g :
  default [] ((foldl (binding_row gs ts) st rs).2 !! g)
  = (default [] (st.2 !! g) ++ omap (binding_for g) rs)%list.
Proof.
  revert st. induction rs as [|r l IH]; intros st; cbn [foldl omap list_omap].
  - by rewrite app_nil_r.
  - rewrite IH, binding_row_map. unfold binding_for at 2.
    destruct (binding_of_row r) as [[g' b]|]; [|done].
    destruct (decide (g' = g)) as [->|Hne].
    + rewrite lookup_insert_eq. cbn [default from_option id].
      by rewrite <- app_assoc.
    + by rewrite lookup_insert_ne.
Qed.

Lemma binding_of_row_group r g b :
  binding_of_row r = Some (g, b) →
  g ≠ "" ∧ normalizeIdentifier (JStr g) = g
  ∧ b_typeIdentifier b ≠ ""
  ∧ normalizeIdentifier (JStr (b_typeIdentifier b)) = b_typeIdentifier b.
Proof.
  unfold binding_of_row. repeat case_match; try discriminate.
  intros [= <- <-]. cbn [b_typeIdentifier].
  repeat match goal with
         | Hf : falsy _ = false |- _ => apply falsy_false in Hf
         end.
  split; [done|]. split; [apply normalizeIdentifier_fixed|].
  split; [done|]. apply normalizeIdentifier_fixed.
Qed.

Lemma binding_rows_keys gs ts (rs : list Row) st g l :
  (foldl (binding_row gs ts) st rs).2 !! g = Some l →
  st.2 !! g = Some l
  ∨ ∃ r b, r ∈ rs ∧ binding_of_row r = Some (g, b) ∧ l ≠ [].
Proof.
  revert st. induction rs as [|r rs IH]; intros st Hl; cbn [foldl] in Hl;
    [by left|].
  apply IH in Hl as [Hl|(r' & b & Hr' & Hb & Hne)].
  - rewrite binding_row_map in Hl.
    destruct (binding_of_row r) as [[g' b]|] eqn:Hb; [|by left].
    destruct (decide (g' = g)) as [->|Hne].
    + rewrite lookup_insert_eq in Hl. injection Hl as <-. right.
      exists r, b. split; [apply list_elem_of_here|]. split; [done|].
      by destruct (default [] (st.2 !! g)).
    + rewrite lookup_insert_ne in Hl by done. by left.
  - right. exists r', b. split; [by apply list_elem_of_further | done].
Qed.

(** X21.  The binding map of [parseTypeGroupBindings] holds, for every
    group, the bindings of the accepted rows of that group in row order,
    repeated rows included.  Its keys are non-empty group identifiers in
    normalized form with a non-empty list each, and every binding has a
    non-empty type identifier in normalized form. *)
Theorem binding_map_keeps_row_order (wb : Workbook)
    (groupIdentifiers typeIdentifiers : gset string) (issues : list Issue) :
  let bindingMap :=
    (parseTypeGroupBindings wb groupIdentifiers typeIdentifiers issues).2 in
  let bindingRows :=
    rows (parseSheetWithHeaders wb SHEETS.TYPE_GROUP_BINDINGS
            TYPE_GROUP_BINDING_HEADERS) in
  (∀ g, default [] (bindingMap !! g) = omap (binding_for g) bindingRows)
  ∧ (∀ g l, bindingMap !! g = Some l →
            l ≠ [] ∧ g ≠ "" ∧ normalizeIdentifier (JStr g) = g)
  ∧ (∀ g b, b ∈ default [] (bindingMap !! g) →
            b_typeIdentifier b ≠ ""
            ∧ normalizeIdentifier (JStr (b_typeIdentifier b))
              = b_typeIdentifier b).
Proof.
  cbv zeta. unfold parseTypeGroupBindings.
  destruct (sheet_exists _) eqn:Hexists; cbn [negb snd].
  - assert (∀ g, default []
                   ((foldl (binding_row groupIdentifiers typeIdentifiers)
                       (missingHeaderIssues issues SHEETS.TYPE_GROUP_BINDINGS
                          (missingHeaders
                             (parseSheetWithHeaders wb SHEETS.TYPE_GROUP_BINDINGS
                                TYPE_GROUP_BINDING_HEADERS)), ∅)
                       (rows (parseSheetWithHeaders wb SHEETS.TYPE_GROUP_BINDINGS
                                TYPE_GROUP_BINDING_HEADERS))).2 !! g)
                 = omap (binding_for g)
                     (rows (parseSheetWithHeaders wb SHEETS.TYPE_GROUP_BINDINGS
                              TYPE_GROUP_BINDING_HEADERS))) as Hlist.
    { intros g. rewrite binding_rows_map. cbn [snd].
      by rewrite lookup_empty. }
    split; [done|]. split.
    + intros g l [Hl|(r & b & _ & Hb & Hne)]%binding_rows_keys.
      * cbn [snd] in Hl. by rewrite lookup_empty in Hl.
      * destruct (binding_of_row_group _ _ _ Hb) as (Hg & Hnorm & _).
        done.
    + intros g b. rewrite Hlist.
      intros (r & _ & Hb)%list_elem_of_omap. unfold binding_for in Hb.
      destruct (binding_of_row r) as [[g' b']|] eqn:Hrow; [|done].
      case_match; [|done]. injection Hb as ->.
      by destruct (binding_of_row_group _ _ _ Hrow) as (_ & _ & ? & ?).
  - rewrite absent_sheet_has_no_rows by done.
    split; [intros g; by rewrite lookup_empty|].
    split; [intros g l; by rewrite lookup_empty|].
    intros g b. rewrite lookup_empty. by intros ?%elem_of_nil.
Qed.

End BindingMap.

(** ** The values of the items of a valid run *)

Lemma foldl_payload_split {St A R} (pl : St → list R) (f : St → A → St) :
  (∀ st x, pl (f st x) = pl st ∨ ∃ a, pl (f st x) = (pl st ++ [a])%list) →
  ∀ l st a, a ∈ pl (foldl f st l) →
    a ∈ pl st
    ∨ ∃ l1 x l2, l = (l1 ++ x :: l2)%list
                 ∧ pl (f (foldl f st l1) x) = (pl (foldl f st l1) ++ [a])%list.
Proof.
  intros Hf l st a. induction l as [|x l IH] using rev_ind; [by left|].
  rewrite foldl_app. cbn [foldl]. intros Ha.
  assert (a ∈ pl (foldl f st l)
          ∨ pl (f (foldl f st l) x) = (pl (foldl f st l) ++ [a])%list) as [Hold|Hnew].
  { destruct (Hf (foldl f st l) x) as [Heq|[b Heq]]; rewrite Heq in Ha.
    - by left.
    - apply elem_of_app in Ha as [?| ->%list_elem_of_singleton];
        [by left | by right]. }
  - destruct (IH Hold) as [?|(l1 & y & l2 & -> & Hpush)]; [by left|].
    right. exists l1, y, (l2 ++ [x])%list. split; [|done].
    by rewrite <- app_assoc.
  - right. by exists l, x, [].
Qed.

Section ItemValues.
Context `{Host}.

Lemma obj_lookup_elem k (o : obj) :
  is_Some (obj_lookup k o) → ∃ v, (k, v) ∈ o.
Proof.
  induction o as [|[k' v'] o IH]; cbn [obj_lookup]; [by intros [? ?]|].
  destruct (decide (k = k')) as [->|Hne].
  - intros _. exists v'. apply list_elem_of_here.
  - intros [v Hv]%IH. exists v. by apply list_elem_of_further.
Qed.

Lemma obj_set_keys k k' v (o : obj) :
  is_Some (obj_lookup k (obj_set k' v o)) →
  k = k' ∨ is_Some (obj_lookup k o).
Proof.
  destruct (decide (k = k')) as [->|Hne]; [by left|].
  rewrite obj_lookup_set_ne by done. by right.
Qed.

Lemma json_value_step_keys sh rn config am st entry k :
  is_Some (obj_lookup k (json_value_step sh rn config am st entry).2) →
  is_Some (obj_lookup k st.2) ∨ (is_Some (am !! k) ∧ normalizeIdentifier (JStr k) = k).
Proof.
  destruct st as [iss values], entry as [key raw]. unfold json_value_step.
  repeat case_match; cbn [snd]; try (by left).
  intros [->|?]%obj_set_keys; [right|by left].
  split; [by eexists | apply normalizeIdentifier_idem].
Qed.

Lemma attr_column_step_keys sh rn config am data st header k :
  is_Some (obj_lookup k (attr_column_step sh rn config am data st header).2) →
  is_Some (obj_lookup k st.2) ∨ (is_Some (am !! k) ∧ normalizeIdentifier (JStr k) = k).
Proof.
  destruct st as [iss values]. unfold attr_column_step.
  repeat case_match; cbn [snd]; try (by left).
  intros [->|?]%obj_set_keys; [right|by left].
  split; [by eexists | apply normalizeIdentifier_idem].
Qed.

Lemma item_values_keys sh rn config am ah data parsedValues iss k :
  is_Some (obj_lookup k (item_values sh rn config am ah data parsedValues iss).2) →
  is_Some (obj_lookup k parsedValues)
  ∨ (is_Some (am !! k) ∧ normalizeIdentifier (JStr k) = k).
Proof.
  unfold item_values.
  assert (∀ (l : list string) st,
            is_Some (obj_lookup k
                       (foldl (attr_column_step sh rn config am data) st l).2) →
            is_Some (obj_lookup k st.2)
            ∨ (is_Some (am !! k) ∧ normalizeIdentifier (JStr k) = k)) as Hcolumns.
  { induction l as [|h l IH]; intros st; cbn [foldl]; [by left|].
    intros [Hk|?]%IH; [|by right]. by apply attr_column_step_keys in Hk. }
  assert (∀ (l : obj) st,
            is_Some (obj_lookup k
                       (foldl (json_value_step sh rn config am) st l).2) →
            is_Some (obj_lookup k st.2)
            ∨ (is_Some (am !! k) ∧ normalizeIdentifier (JStr k) = k)) as Hjson.
  { induction l as [|e l IH]; intros st; cbn [foldl]; [by left|].
    intros [Hk|?]%IH; [|by right]. by apply json_value_step_keys in Hk. }
  intros [Hk|?]%Hcolumns; [|by right]. by apply Hjson in Hk.
Qed.

Lemma item_values_unknown sh rn config am ah data parsedValues iss key raw :
  (key, raw) ∈ parsedValues →
  am !! normalizeIdentifier (JStr key) = None →
  ∃ issue, issue ∈ (item_values sh rn config am ah data parsedValues iss).1
           ∧ severity issue = error.
Proof.
  intros (l1 & l2 & ->)%list_elem_of_split Hunknown. unfold item_values.
  rewrite foldl_app. cbn [foldl].
  destruct (foldl (json_value_step sh rn config am) (iss, (l1 ++ (key, raw) :: l2)%list) l1)
    as [iss1 values1].
  exists (Build_Issue error sh rn "values_json"
            ("values_json contains unknown attribute '" ++ key ++ "'")).
  split; [|done].
  eapply elem_of_prefix;
    [|apply (foldl_rel fst_grows _ _
               (attr_column_step_prefix sh rn config am data))].
  eapply elem_of_prefix;
    [|apply (foldl_rel fst_grows _ _ (json_value_step_prefix sh rn config am))].
  unfold json_value_step. rewrite Hunknown. cbn [fst].
  unfold addIssue. apply elem_of_app. right. apply list_elem_of_here.
Qed.

Lemma item_row_emitted_values sh config am tm declared hdrs ah st r req :
  it_payload (item_row sh config am tm declared hdrs ah st r)
  = (it_payload st ++ [req])%list →
  ∃ parsedValues iss,
    item_values sh (Some (rowNumber r)) config am ah (data r) parsedValues iss
    = (it_issues (item_row sh config am tm declared hdrs ah st r),
       values_of req).
Proof.
  unfold item_row, item_checked, warn_unknown_type, warn_unknown_parent,
    item_emit.
  row_cases; cbn [item_report item_reserve it_payload it_issues it_seen];
    try (intros Heq; by apply not_snoc in Heq).
  all: intros Heq; apply app_inv_head in Heq; injection Heq as <-.
  all: unfold values_of; cbn [i_values]; rewrite default_nonempty_obj.
  all: by eexists _, _.
Qed.

Lemma item_run_split wb req :
  req ∈ it_payload (item_run wb (item_work wb)) →
  ∃ work sh hdrs ah r more,
    item_work wb = (work ++ SheetRow sh hdrs ah r :: more)%list
    ∧ it_payload (item_step wb (item_run wb work) (SheetRow sh hdrs ah r))
      = (it_payload (item_run wb work) ++ [req])%list.
Proof.
  unfold item_run at 1.
  intros [?%elem_of_nil|(work & w & more & Hwork & Hpush)]%(foldl_payload_split
                                                             it_payload);
    [done|..].
  - destruct w as [sh missing|sh hdrs ah r].
    + cbn in Hpush. by apply not_snoc in Hpush.
    + by exists work, sh, hdrs, ah, r, more.
  - intros st w.
    destruct (work_step_payload (st_config (stages wb))
                (acc_byIdentifier (st_attributes (stages wb)))
                (acc_byIdentifier (st_types (stages wb)))
                (st_declared (stages wb)) st w)
      as [?|(a & ? & _)]; [by left | right; by exists a].
Qed.

(** X22.  In a valid run every key of the values of an item of the payload
    names, in its normalized form, an attribute of the payload: a
    values_json key of no declared attribute is an error. *)
Theorem valid_run_values_name_attributes (wb : Workbook) (req : ItemRequest)
    (key : string) :
  let result := parseAndValidateImportWorkbook wb in
  valid result = true →
  req ∈ items (payload result) →
  is_Some (obj_lookup key (values_of req)) →
  ∃ a, a ∈ attributes (payload result)
       ∧ a_identifier a = normalizeIdentifier (JStr key).
Proof.
  intros result Hvalid Hin Hkey.
  change (items (payload result)) with (it_payload (st_items (stages wb))) in Hin.
  rewrite st_items_flat in Hin.
  apply item_run_split in Hin
    as (work & sh & hdrs & ah & r & more & Hwork & Hpush).
  pose proof (final_issues wb work _ more Hwork) as Hfinal.
  rewrite item_step_row in Hpush, Hfinal.
  destruct (item_row_emitted_values _ _ _ _ _ _ _ _ _ _ Hpush)
    as (parsedValues & iss & Hvalues).
  assert (is_Some (acc_byIdentifier (st_attributes (stages wb))
                   !! normalizeIdentifier (JStr key))) as [m Hm].
  { pose proof (item_values_keys sh (Some (rowNumber r))
                  (st_config (stages wb))
                  (acc_byIdentifier (st_attributes (stages wb))) ah (data r)
                  parsedValues iss key) as Hkeys.
    rewrite Hvalues in Hkeys. destruct (Hkeys Hkey) as [Hraw|[Hsome Hnorm]].
    - apply obj_lookup_elem in Hraw as [raw Hraw].
      destruct (acc_byIdentifier (st_attributes (stages wb))
                !! normalizeIdentifier (JStr key)) as [m|] eqn:Hm;
        [by eexists|]. exfalso.
      destruct (item_values_unknown sh (Some (rowNumber r))
                  (st_config (stages wb)) _ ah (data r) parsedValues iss
                  key raw Hraw Hm) as (issue & Hissue & Hsev).
      rewrite Hvalues in Hissue. cbn [fst] in Hissue.
      apply (valid_run_has_no_error wb issue Hvalid); [|done].
      by eapply elem_of_prefix.
    - by rewrite Hnorm. }
  revert Hm. unfold stages at 1. cbn [st_attributes]. intros Hm.
  apply (proj2 (parseAttributes_table_ok _ _ _ _ _ _)) in Hm
    as (a & Ha & Hid & _).
  by exists a.
Qed.

End ItemValues.

(** * Witnesses and counterexamples

    The statements above hold for every host.  Below they are applied to the
    example workbooks, run on the example host. *)

Import ExampleHost.

(** Replaces a closed term by its value. *)
Ltac evaluate t :=
  let v := eval vm_compute in t in
  replace t with v by (vm_compute; reflexivity).

(** C2 at the example workbook without Import_Config. *)
Lemma config_sheet_absent_witness :
  parseConfig Examples.no_config [] = (default_config, [])
  ∧ st_config (stages Examples.no_config) = default_config
  ∧ ensureRequiredSheets Examples.no_config []
    = missing_sheet_issue
        <$> filter (λ sh, sh ∉ SheetNames Examples.no_config) requiredSheets
  ∧ missing_sheet_issue SHEETS.CONFIG ∈ ensureRequiredSheets Examples.no_config []
  ∧ ensureRequiredSheets Examples.no_config []
    `prefix_of` all_issues Examples.no_config.
Proof.
  apply (config_sheet_absent Examples.no_config []).
  - reflexivity.
  - apply (bool_decide_unpack _). vm_compute. exact I.
Defined.

(** C2 as stated fails: the workbook lacks nothing but Import_Config, and
    the run reports that sheet as a missing required sheet and is invalid. *)
Lemma config_sheet_absent_is_an_error :
  Sheets Examples.no_config !! SHEETS.CONFIG = None
  ∧ all_issues Examples.no_config = [missing_sheet_issue SHEETS.CONFIG]
  ∧ valid (parseAndValidateImportWorkbook Examples.no_config) = false.
Proof. split; [reflexivity|]. vm_compute. done. Qed.




(** Closes a closed equation or a closed decidable statement. *)
Ltac run := first [ vm_compute; reflexivity
                  | apply (bool_decide_unpack _); vm_compute; exact I ].












(** X6 at the example: it is valid, with mode CREATE_UPDATE. *)
Lemma valid_run_has_a_recognised_config_witness :
  (p_config (payload (parseAndValidateImportWorkbook Examples.plain))).1
  ∈ VALID_IMPORT_MODES
  ∧ (p_config (payload (parseAndValidateImportWorkbook Examples.plain))).2
    ∈ VALID_ERROR_PROCESSING.
Proof. apply valid_run_has_a_recognised_config. run. Defined.

(** X7 at the example and its sheet TCT_Router_Bit. *)
Lemma valid_run_meets_the_sheet_contract_witness :
  "TCT_Router_Bit" ∈ SheetNames Examples.plain
  ∧ (sheet_exists (parseSheetWithHeaders Examples.plain "TCT_Router_Bit"
                     ITEM_BASE_HEADERS) = true →
     missingHeaders (parseSheetWithHeaders Examples.plain "TCT_Router_Bit"
                       ITEM_BASE_HEADERS) = []).
Proof.
  apply (valid_run_meets_the_sheet_contract Examples.plain "TCT_Router_Bit"
           ITEM_BASE_HEADERS); [run|].
  unfold sheet_contract, itemSheetNames, PRODUCT_SHEETS. cbn [app fmap list_fmap].
  do 6 apply list_elem_of_further. apply list_elem_of_here.
Defined.

(** X11 at the attribute [material] of the example and its group. *)
Lemma attribute_groups_are_emitted_witness :
  ∃ group,
    group ∈ attrGroups (payload (parseAndValidateImportWorkbook Examples.plain))
    ∧ g_identifier group = "commercial".
Proof.
  apply (attribute_groups_are_emitted Examples.plain
           {| a_identifier := "material";
              a_name := [("en", JStr "Material")];
              a_groups := ["commercial"];
              a_type := Fin 1 0;
              a_languageDependent := false;
              a_richText := false;
              a_multiLine := false;
              a_order := Some (Fin 20 0);
              a_pattern := None;
              a_lov := None;
              a_valid := Some ["tct_router_bit"];
              a_visible := None;
              a_options := None |}).
  - evaluate (attributes (payload (parseAndValidateImportWorkbook Examples.plain))).
    apply list_elem_of_here.
  - apply list_elem_of_here.
Defined.

(** X12 at the product of the example: its type has a parent type, and the
    item has a parent. *)
Lemma emitted_items_are_well_formed_witness :
  ∃ req,
    req ∈ items (payload (parseAndValidateImportWorkbook Examples.plain))
    ∧ i_identifier req = "router_bit_001"
    ∧ i_parentIdentifier req ≠ Some (i_identifier req)
    ∧ i_values req ≠ Some [].
Proof.
  let p := eval vm_compute in
             (items (payload (parseAndValidateImportWorkbook Examples.plain))) in
  lazymatch p with
  | [?parent; ?req] =>
      assert (req ∈ items (payload (parseAndValidateImportWorkbook Examples.plain)))
        as Hin
        by (evaluate (items (payload (parseAndValidateImportWorkbook
                                        Examples.plain)));
            apply list_elem_of_further, list_elem_of_here);
      exists req; split; [exact Hin|]; split; [reflexivity|];
      destruct (emitted_items_are_well_formed Examples.plain req Hin)
        as (_ & _ & _ & _ & _ & _ & Hself & _ & Hvalues & _);
      split; [exact Hself | exact Hvalues]
  end.
Defined.

(** X15 at the duplicate error of the second x001 row. *)
Lemma issues_name_a_sheet_and_a_field_witness :
  sheet Examples.duplicate_x001 ∈ requiredSheets
  ∧ field Examples.duplicate_x001 ≠ ""
  ∧ (row Examples.duplicate_x001 = None
     ∨ ∃ n, row Examples.duplicate_x001 = Some n ∧ (1 ≤ n)%nat).
Proof.
  apply (issues_name_a_sheet_and_a_field Examples.reserved_then_duplicate).
  left.
  evaluate (errors (parseAndValidateImportWorkbook
                      Examples.reserved_then_duplicate)).
  apply list_elem_of_further, list_elem_of_here.
Defined.

(** X16 at the same error. *)
Lemma formatIssue_shows_row_and_field_witness :
  formatIssue Examples.duplicate_x001
  = "TCT_Router_Bit:row 3 [identifier] - Duplicate item identifier 'x001' across item sheets".
Proof.
  etrans.
  - apply (formatIssue_shows_row_and_field Examples.reserved_then_duplicate).
    left.
    evaluate (errors (parseAndValidateImportWorkbook
                        Examples.reserved_then_duplicate)).
    apply list_elem_of_further, list_elem_of_here.
  - vm_compute. reflexivity.
Defined.

(** X18 at the workbook that lists the nine sheets and holds none: no
    issue, an empty payload, a valid run. *)
Lemma workbook_without_sheets_witness :
  all_issues Examples.no_sheets = []
  ∧ items (payload (parseAndValidateImportWorkbook Examples.no_sheets)) = []
  ∧ valid (parseAndValidateImportWorkbook Examples.no_sheets) = true.
Proof.
  destruct (workbook_without_sheets Examples.no_sheets eq_refl)
    as (Hissues & _ & _ & _ & _ & Hitems & Hvalid).
  split; [|split; [exact Hitems|]].
  - rewrite Hissues. vm_compute. reflexivity.
  - apply Hvalid. intros sh Hsh. exact Hsh.
Defined.

(** X19 at the Import_Config sheet of the example and its row for mode. *)
Lemma config_last_row_wins_witness :
  cfg_mode (parseConfig Examples.plain []).1 = "CREATE_UPDATE".
Proof.
  let l := eval vm_compute in
             (rows (parseSheetWithHeaders Examples.plain SHEETS.CONFIG
                      CONFIG_HEADERS)) in
  lazymatch l with
  | [?r1; ?r2; ?r3] =>
      destruct (config_last_row_wins Examples.plain [] [] [r2; r3] r1)
        as (Hmode & _); [run | run | run | |]
  end.
  - intros r' Hr'. repeat (apply elem_of_cons in Hr' as [->|Hr']);
      [..|by apply elem_of_nil in Hr'];
      apply (bool_decide_unpack _); vm_compute; exact I.
  - etrans; [apply Hmode; run | run].
Defined.

(** X22 at the product of the example and its value for material. *)
Lemma valid_run_values_name_attributes_witness :
  ∃ a, a ∈ attributes (payload (parseAndValidateImportWorkbook Examples.plain))
       ∧ a_identifier a = "material".
Proof.
  let p := eval vm_compute in
             (items (payload (parseAndValidateImportWorkbook Examples.plain))) in
  lazymatch p with
  | [?parent; ?req] =>
      destruct (valid_run_values_name_attributes Examples.plain req "material")
        as (a & Ha & Hid);
        [ run
        | evaluate (items (payload (parseAndValidateImportWorkbook
                                      Examples.plain)));
          apply list_elem_of_further, list_elem_of_here
        | eexists; vm_compute; reflexivity
        | exists a; split; [exact Ha | rewrite Hid; vm_compute; reflexivity] ]
  end.
Defined.
